(** * A shallow embedding of the chess rules engine (modules/board.py, modules/move.py,
      modules/coordinates_converter.py)

    The Python classes [Board], [Board.Castling_Rights] and [Move] are embedded
    as records and pure functions.  Mutation of [self] becomes explicit state
    passing: a method that mutates the board takes a [Board] and returns the
    new one.  Python exceptions are values of [exn], carried by the error
    monad [res]; the [try]/[except Exception] of [_make_psuedo_legal_move]
    is modelled statement by statement.

    Conventions.
    - Text is [string]: a sequence of code points below 256.
    - A board square holds one of the thirteen two-character codes of the
      source (['wp'], ['bK'], ..., ['--']); they are the values of type
      [piece], and [code] gives the Python text back.
    - Coordinates are [Z]; list indexing follows Python (negative indices
      count from the end, anything else out of range raises IndexError).
    - [halfmove_clock] is a Python number that the source mixes with the
      float literal 0.5: [number] keeps the int/float distinction, a float
      being stored as its (integral) number of halves.
    - The SAN text of a move never influences the board: the attribute
      [Move.san] is not a field of the record, and [get_san] gives its value
      from the other attributes. *)

From Stdlib Require Import ZArith List String Ascii Bool Lia.
From Stdlib Require Import DecimalString DecimalZ.
Import ListNotations.

Local Open Scope string_scope.
Local Open Scope Z_scope.

(** ** Python exceptions as an error monad *)

(** [OutOfFuel] is not a Python exception: it marks a loop of the model that
    used up its iteration bound.  [slide_fuel_suffices] shows that the bound
    given to the only such loop is never reached. *)
Inductive exn : Type := IndexError | KeyError | ValueError | SystemExit | OutOfFuel.

Inductive res (A : Type) : Type :=
| Ok (a : A)
| Raise (e : exn).

Arguments Ok {A} a.
Arguments Raise {A} e.

Definition bind {A B : Type} (x : res A) (f : A -> res B) : res B :=
  match x with
  | Ok a => f a
  | Raise e => Raise e
  end.

Notation "x <- c1 ;; c2" := (bind c1 (fun x => c2))
  (at level 61, c1 at next level, right associativity).
Notation "' p <- c1 ;; c2" := (bind c1 (fun x => let 'p := x in c2))
  (at level 61, p pattern, c1 at next level, right associativity).

Definition is_ok {A : Type} (x : res A) : bool :=
  match x with Ok _ => true | Raise _ => false end.

(** ** Python lists and text *)

Module Py.

(** [l[i]] *)
Definition index {A : Type} (l : list A) (i : Z) : res A :=
  let j := if i <? 0 then i + Z.of_nat (List.length l) else i in
  if j <? 0 then Raise IndexError
  else match nth_error l (Z.to_nat j) with
       | Some x => Ok x
       | None => Raise IndexError
       end.

Fixpoint set_nth {A : Type} (l : list A) (n : nat) (x : A) : option (list A) :=
  match l, n with
  | [], _ => None
  | _ :: t, O => Some (x :: t)
  | h :: t, S n' => option_map (cons h) (set_nth t n' x)
  end.

(** [l[i] = x] *)
Definition store {A : Type} (l : list A) (i : Z) (x : A) : res (list A) :=
  let j := if i <? 0 then i + Z.of_nat (List.length l) else i in
  if j <? 0 then Raise IndexError
  else match set_nth l (Z.to_nat j) x with
       | Some l' => Ok l'
       | None => Raise IndexError
       end.

(** [l.pop()] : the list without its last element, and that element *)
Definition pop {A : Type} (l : list A) : res (list A * A) :=
  match rev l with
  | [] => Raise IndexError
  | x :: r => Ok (rev r, x)
  end.

(** [l[-1]] *)
Definition last {A : Type} (l : list A) : res A := index l (-1).

(** [l.count(x)] *)
Definition count (x : string) (l : list string) : nat :=
  List.length (filter (String.eqb x) l).

(** [c.isspace()] *)
Definition isspace (c : ascii) : bool :=
  let n := nat_of_ascii c in
  (((9 <=? n) && (n <=? 13)) || ((28 <=? n) && (n <=? 32))
   || (n =? 133) || (n =? 160))%nat.

(** [c.isdigit()]: the ten ASCII digits and the superscripts ², ³, ¹ *)
Definition isdigit (c : ascii) : bool :=
  let n := nat_of_ascii c in
  (((48 <=? n) && (n <=? 57)) || (n =? 178) || (n =? 179) || (n =? 185))%nat.

Definition is_ascii_digit (c : ascii) : bool :=
  let n := nat_of_ascii c in ((48 <=? n) && (n <=? 57))%nat.

(** [s.split()]: maximal runs of non-whitespace characters *)
Fixpoint split_ws_aux (s : string) (cur : string) : list string :=
  match s with
  | EmptyString => if String.eqb cur "" then [] else [cur]
  | String c t =>
      if isspace c
      then (if String.eqb cur "" then split_ws_aux t ""
            else cur :: split_ws_aux t "")
      else split_ws_aux t (cur ++ String c "")
  end.

Definition split_ws (s : string) : list string := split_ws_aux s "".

(** [s.split(sep)] for a one-character separator *)
Fixpoint split_on_aux (sep : ascii) (s : string) (cur : string) : list string :=
  match s with
  | EmptyString => [cur]
  | String c t =>
      if Ascii.eqb c sep then cur :: split_on_aux sep t ""
      else split_on_aux sep t (cur ++ String c "")
  end.

Definition split_on (sep : ascii) (s : string) : list string :=
  split_on_aux sep s "".

(** [sep.join(l)] *)
Definition join (sep : string) (l : list string) : string := String.concat sep l.

(** [c in s] for a one-character [c] *)
Fixpoint contains (c : ascii) (s : string) : bool :=
  match s with
  | EmptyString => false
  | String d t => Ascii.eqb d c || contains c t
  end.

(** [s.replace(c, '')] for a one-character [c] *)
Fixpoint remove (c : ascii) (s : string) : string :=
  match s with
  | EmptyString => EmptyString
  | String d t => if Ascii.eqb d c then remove c t else String d (remove c t)
  end.

(** [str(n)] for an int *)
Definition str_int (n : Z) : string := NilZero.string_of_int (Z.to_int n).

(** Digit groups of an int literal: underscores are allowed singly, between
    digits.  [after_digit] tells whether the previous character was a digit. *)
Fixpoint digits_of (s : string) (after_digit : bool) : option string :=
  match s with
  | EmptyString => if after_digit then Some EmptyString else None
  | String c t =>
      if is_ascii_digit c then option_map (String c) (digits_of t true)
      else if Ascii.eqb c "_" then (if after_digit then digits_of t false else None)
      else None
  end.

Definition nat_of_digits (s : string) : res Z :=
  match digits_of s false with
  | Some ds =>
      match NilZero.uint_of_string ds with
      | Some d => Ok (Z.of_uint d)
      | None => Raise ValueError
      end
  | None => Raise ValueError
  end.

(** [int(s)] for a text without surrounding whitespace *)
Definition int (s : string) : res Z :=
  match s with
  | String "-" t => n <- nat_of_digits t ;; Ok (- n)
  | String "+" t => nat_of_digits t
  | _ => nat_of_digits s
  end.

(** [ord(c)] *)
Definition ord (c : ascii) : Z := Z.of_nat (nat_of_ascii c).

(** [s[i]] for text *)
Definition char_at (s : string) (i : Z) : res ascii :=
  index (list_ascii_of_string s) i.

End Py.

(** ** Numbers: Python int and float *)

Inductive number : Type :=
| Int (n : Z)
| Float (halves : Z).   (* the float halves/2 *)

Module Num.

(** [x + 0.5] *)
Definition add_half (x : number) : number :=
  match x with Int n => Float (2 * n + 1) | Float h => Float (h + 1) end.

(** [x - 0.5] *)
Definition sub_half (x : number) : number :=
  match x with Int n => Float (2 * n - 1) | Float h => Float (h - 1) end.

(** [x - 0] *)
Definition sub_zero (x : number) : number := x.

(** [x == k] for an int literal [k] *)
Definition eq_int (x : number) (k : Z) : bool :=
  match x with Int n => n =? k | Float h => h =? 2 * k end.

(** [x // 1] *)
Definition floordiv_one (x : number) : number :=
  match x with Int n => Int n | Float h => Float (2 * (h / 2)) end.

(** [str(x)]; a float with an integral value prints as [<int>.0] *)
Definition str (x : number) : string :=
  match x with
  | Int n => Py.str_int n
  | Float h =>
      if h mod 2 =? 0 then Py.str_int (h / 2) ++ ".0"
      else if h <? 0 then "-" ++ Py.str_int (Z.abs h / 2) ++ ".5"
      else Py.str_int (h / 2) ++ ".5"
  end.

End Num.

(** ** Pieces and squares *)

Inductive color : Type := White | Black.
Inductive kind : Type := Pawn | Rook | Knight | Bishop | Queen | King.

(** The content of a square of [board_array]. *)
Inductive piece : Type :=
| Empty                              (* '--' *)
| Piece (c : color) (k : kind).      (* 'wp', 'wR', ..., 'bK' *)

Definition color_char (c : color) : ascii :=
  match c with White => "w" | Black => "b" end.

Definition kind_char (k : kind) : ascii :=
  match k with
  | Pawn => "p" | Rook => "R" | Knight => "N"
  | Bishop => "B" | Queen => "Q" | King => "K"
  end.

(** The two-character text of the source. *)
Definition code (p : piece) : string :=
  match p with
  | Empty => "--"
  | Piece c k => String (color_char c) (String (kind_char k) "")
  end.

(** [p[0]]: ['w'], ['b'], or ['-'] for an empty square ([None]). *)
Definition color_of (p : piece) : option color :=
  match p with Empty => None | Piece c _ => Some c end.

(** [p[1]]: the kind letter, or ['-'] for an empty square ([None]). *)
Definition kind_of (p : piece) : option kind :=
  match p with Empty => None | Piece _ k => Some k end.

Definition color_eqb (a b : color) : bool :=
  match a, b with White, White | Black, Black => true | _, _ => false end.

Definition kind_eqb (a b : kind) : bool :=
  match a, b with
  | Pawn, Pawn | Rook, Rook | Knight, Knight
  | Bishop, Bishop | Queen, Queen | King, King => true
  | _, _ => false
  end.

Definition piece_eqb (p q : piece) : bool :=
  match p, q with
  | Empty, Empty => true
  | Piece c k, Piece c' k' => color_eqb c c' && kind_eqb k k'
  | _, _ => false
  end.

(** [p[0] == q[0]] *)
Definition same_color_char (p q : piece) : bool :=
  match color_of p, color_of q with
  | None, None => true
  | Some a, Some b => color_eqb a b
  | _, _ => false
  end.

(** [p[0] == 'w'] and [p[0] == 'b'] *)
Definition has_color (p : piece) (c : color) : bool :=
  match color_of p with Some a => color_eqb a c | None => false end.

(** [p[1] == 'p'] *)
Definition is_pawn (p : piece) : bool :=
  match kind_of p with Some Pawn => true | _ => false end.

Definition is_empty (p : piece) : bool :=
  match p with Empty => true | _ => false end.

Definition opposite (c : color) : color :=
  match c with White => Black | Black => White end.

Definition grid : Type := list (list piece).

Definition square : Type := (Z * Z)%type.

Definition square_eqb (a b : square) : bool :=
  (fst a =? fst b) && (snd a =? snd b).

(** ** Move (modules/move.py) *)

Record Move : Type := mkMove {
  start_row : Z;
  start_col : Z;
  end_row : Z;
  end_col : Z;
  piece_moved : piece;
  piece_captured : piece;
  is_check : bool;
  is_castling : bool;
  promoted_piece : option kind;
  uci : string
}.

(** [Move.file_map] and [Move.rank_map]: dictionaries, so a missing key is a
    KeyError (negative keys included). *)
Definition file_map (c : Z) : res ascii :=
  match c with
  | 0 => Ok "a"%char | 1 => Ok "b"%char | 2 => Ok "c"%char | 3 => Ok "d"%char
  | 4 => Ok "e"%char | 5 => Ok "f"%char | 6 => Ok "g"%char | 7 => Ok "h"%char
  | _ => Raise KeyError
  end.

Definition rank_map (r : Z) : res ascii :=
  match r with
  | 7 => Ok "1"%char | 6 => Ok "2"%char | 5 => Ok "3"%char | 4 => Ok "4"%char
  | 3 => Ok "5"%char | 2 => Ok "6"%char | 1 => Ok "7"%char | 0 => Ok "8"%char
  | _ => Raise KeyError
  end.

(** [Move.coordinates_to_uci] *)
Definition coordinates_to_uci (sr sc er ec : Z) (promoted : option kind) : res string :=
  match promoted with
  | Some k =>
      f1 <- file_map sc ;; f2 <- file_map ec ;; r2 <- rank_map er ;;
      Ok (String f1 (String f2 (String r2 (String "=" (String (kind_char k) "")))))
  | None =>
      f1 <- file_map sc ;; r1 <- rank_map sr ;;
      f2 <- file_map ec ;; r2 <- rank_map er ;;
      Ok (String f1 (String r1 (String f2 (String r2 ""))))
  end.

(** [Move.__eq__] *)
Definition Move_eq (m1 m2 : Move) : bool := String.eqb (uci m1) (uci m2).

(** ** Castling rights (Board.Castling_Rights) *)

Record Castling_Rights : Type := mkCastling {
  castling_rights_string : string;
  castling_rights_log : list string
}.

Module CR.

Definition init (s : string) : Castling_Rights := mkCastling s [s].

Definition has_rights (cr : Castling_Rights) (side : ascii) : bool :=
  Py.contains side (castling_rights_string cr).

Definition remove_rights (cr : Castling_Rights) (sides : list ascii) : Castling_Rights :=
  fold_left
    (fun cr side =>
       mkCastling (Py.remove side (castling_rights_string cr)) (castling_rights_log cr))
    sides cr.

Definition update (cr : Castling_Rights) (move : Move) : Castling_Rights :=
  let cr1 :=
    match piece_moved move with
    | Piece White King => remove_rights cr ["K"; "Q"]%char
    | Piece Black King => remove_rights cr ["k"; "q"]%char
    | Piece White Rook =>
        if start_col move =? 7 then remove_rights cr ["K"%char]
        else if start_col move =? 0 then remove_rights cr ["Q"%char]
        else cr
    | Piece Black Rook =>
        if start_col move =? 7 then remove_rights cr ["k"%char]
        else if start_col move =? 0 then remove_rights cr ["q"%char]
        else cr
    | _ => cr
    end in
  mkCastling (castling_rights_string cr1)
             (castling_rights_log cr1 ++ [castling_rights_string cr1]).

Definition undo_castling_rights (cr : Castling_Rights) : Castling_Rights :=
  match rev (castling_rights_log cr) with
  | [] => cr
  | _ :: r =>
      match r with
      | [] => mkCastling (castling_rights_string cr) []
      | s :: _ => mkCastling s (rev r)
      end
  end.

(** [__str__] *)
Definition str (cr : Castling_Rights) : string :=
  if String.eqb (castling_rights_string cr) "" then "-"
  else castling_rights_string cr.

(** [__eq__] *)
Definition eq (a b : Castling_Rights) : bool :=
  String.eqb (castling_rights_string a) (castling_rights_string b).

End CR.

(** ** The board *)

Record Board : Type := mkBoard {
  board_array : grid;
  white_to_move : bool;
  castling_rights : Castling_Rights;
  en_passant_square : option square;
  halfmove_clock : number;
  fullmove_number : Z;
  move_log : list Move;
  fen_log : list string;
  white_king_pos : square;
  black_king_pos : square;
  is_checkmate : bool;
  is_draw : bool;
  legal_moves : list Move
}.

Definition set_board_array (b : Board) (g : grid) : Board :=
  mkBoard g (white_to_move b) (castling_rights b) (en_passant_square b)
    (halfmove_clock b) (fullmove_number b) (move_log b) (fen_log b)
    (white_king_pos b) (black_king_pos b) (is_checkmate b) (is_draw b) (legal_moves b).

Definition set_white_to_move (b : Board) (w : bool) : Board :=
  mkBoard (board_array b) w (castling_rights b) (en_passant_square b)
    (halfmove_clock b) (fullmove_number b) (move_log b) (fen_log b)
    (white_king_pos b) (black_king_pos b) (is_checkmate b) (is_draw b) (legal_moves b).

Definition set_castling_rights (b : Board) (cr : Castling_Rights) : Board :=
  mkBoard (board_array b) (white_to_move b) cr (en_passant_square b)
    (halfmove_clock b) (fullmove_number b) (move_log b) (fen_log b)
    (white_king_pos b) (black_king_pos b) (is_checkmate b) (is_draw b) (legal_moves b).

Definition set_en_passant_square (b : Board) (ep : option square) : Board :=
  mkBoard (board_array b) (white_to_move b) (castling_rights b) ep
    (halfmove_clock b) (fullmove_number b) (move_log b) (fen_log b)
    (white_king_pos b) (black_king_pos b) (is_checkmate b) (is_draw b) (legal_moves b).

Definition set_halfmove_clock (b : Board) (h : number) : Board :=
  mkBoard (board_array b) (white_to_move b) (castling_rights b) (en_passant_square b)
    h (fullmove_number b) (move_log b) (fen_log b)
    (white_king_pos b) (black_king_pos b) (is_checkmate b) (is_draw b) (legal_moves b).

Definition set_fullmove_number (b : Board) (n : Z) : Board :=
  mkBoard (board_array b) (white_to_move b) (castling_rights b) (en_passant_square b)
    (halfmove_clock b) n (move_log b) (fen_log b)
    (white_king_pos b) (black_king_pos b) (is_checkmate b) (is_draw b) (legal_moves b).

Definition set_move_log (b : Board) (l : list Move) : Board :=
  mkBoard (board_array b) (white_to_move b) (castling_rights b) (en_passant_square b)
    (halfmove_clock b) (fullmove_number b) l (fen_log b)
    (white_king_pos b) (black_king_pos b) (is_checkmate b) (is_draw b) (legal_moves b).

Definition set_fen_log (b : Board) (l : list string) : Board :=
  mkBoard (board_array b) (white_to_move b) (castling_rights b) (en_passant_square b)
    (halfmove_clock b) (fullmove_number b) (move_log b) l
    (white_king_pos b) (black_king_pos b) (is_checkmate b) (is_draw b) (legal_moves b).

Definition set_king_pos (b : Board) (wk bk : square) : Board :=
  mkBoard (board_array b) (white_to_move b) (castling_rights b) (en_passant_square b)
    (halfmove_clock b) (fullmove_number b) (move_log b) (fen_log b)
    wk bk (is_checkmate b) (is_draw b) (legal_moves b).

Definition set_is_checkmate (b : Board) (v : bool) : Board :=
  mkBoard (board_array b) (white_to_move b) (castling_rights b) (en_passant_square b)
    (halfmove_clock b) (fullmove_number b) (move_log b) (fen_log b)
    (white_king_pos b) (black_king_pos b) v (is_draw b) (legal_moves b).

Definition set_is_draw (b : Board) (v : bool) : Board :=
  mkBoard (board_array b) (white_to_move b) (castling_rights b) (en_passant_square b)
    (halfmove_clock b) (fullmove_number b) (move_log b) (fen_log b)
    (white_king_pos b) (black_king_pos b) (is_checkmate b) v (legal_moves b).

Definition set_legal_moves (b : Board) (l : list Move) : Board :=
  mkBoard (board_array b) (white_to_move b) (castling_rights b) (en_passant_square b)
    (halfmove_clock b) (fullmove_number b) (move_log b) (fen_log b)
    (white_king_pos b) (black_king_pos b) (is_checkmate b) (is_draw b) l.

(** [g[r][c]] *)
Definition at_ (g : grid) (r c : Z) : res piece :=
  row <- Py.index g r ;; Py.index row c.

(** [g[r][c] = p] *)
Definition put (g : grid) (r c : Z) (p : piece) : res grid :=
  row <- Py.index g r ;;
  row' <- Py.store row c p ;;
  Py.store g r row'.

(** [Move.__init__]: the moved and captured pieces are read off the board as
    it is when the move is built. *)
Definition Move_init (g : grid) (sr sc er ec : Z) (promoted : option kind)
    (castling : bool) : res Move :=
  pm <- at_ g sr sc ;;
  pc <- at_ g er ec ;;
  u <- coordinates_to_uci sr sc er ec promoted ;;
  Ok (mkMove sr sc er ec pm pc false castling promoted u).

(** ** FEN codec *)

(** [fen_symbols.get(char, '--')] *)
Definition fen_symbols_get (c : ascii) : piece :=
  match c with
  | "r" => Piece Black Rook | "n" => Piece Black Knight | "b" => Piece Black Bishop
  | "q" => Piece Black Queen | "k" => Piece Black King | "p" => Piece Black Pawn
  | "R" => Piece White Rook | "N" => Piece White Knight | "B" => Piece White Bishop
  | "Q" => Piece White Queen | "K" => Piece White King | "P" => Piece White Pawn
  | _ => Empty
  end%char.

(** [piece_to_fen[square]] for a piece; ['--'] maps to the empty text and is
    never looked up by [board_to_fen]. *)
Definition piece_to_fen (c : color) (k : kind) : ascii :=
  match c, k with
  | Black, Rook => "r" | Black, Knight => "n" | Black, Bishop => "b"
  | Black, Queen => "q" | Black, King => "k" | Black, Pawn => "p"
  | White, Rook => "R" | White, Knight => "N" | White, Bishop => "B"
  | White, Queen => "Q" | White, King => "K" | White, Pawn => "P"
  end%char.

(** The inner loop of [fen_to_board]: one rank of the piece placement. *)
Fixpoint fen_row (row : string) : res (list piece) :=
  match row with
  | EmptyString => Ok []
  | String char t =>
      if Py.isdigit char then
        n <- Py.int (String char "") ;;
        rest <- fen_row t ;;
        Ok (repeat Empty (Z.to_nat n) ++ rest)%list
      else
        rest <- fen_row t ;;
        Ok (fen_symbols_get char :: rest)
  end.

Fixpoint fen_rows (rows : list string) : res grid :=
  match rows with
  | [] => Ok []
  | row :: t =>
      board_row <- fen_row row ;;
      rest <- fen_rows t ;;
      Ok (board_row :: rest)
  end.

(** The en-passant field: [None if s == '-' else (8 - int(s[1]), ord(s[0]) - ord('a'))] *)
Definition fen_en_passant (s : string) : res (option square) :=
  if String.eqb s "-" then Ok None
  else
    c1 <- Py.char_at s 1 ;;
    n <- Py.int (String c1 "") ;;
    c0 <- Py.char_at s 0 ;;
    Ok (Some (8 - n, Py.ord c0 - Py.ord "a")).

(** [Board.fen_to_board] *)
Definition fen_to_board (fen : string)
  : res (grid * bool * Castling_Rights * option square * number * Z) :=
  let sections := Py.split_ws fen in
  piece_placement <- Py.index sections 0 ;;
  let rows := Py.split_on "/" piece_placement in
  board <- fen_rows rows ;;
  s1 <- Py.index sections 1 ;;
  let active_color := String.eqb s1 "w" in
  s2 <- Py.index sections 2 ;;
  let castling := CR.init s2 in
  s3 <- Py.index sections 3 ;;
  en_passant_target <- fen_en_passant s3 ;;
  s4 <- Py.index sections 4 ;;
  halfmove <- Py.int s4 ;;
  s5 <- Py.index sections 5 ;;
  fullmove <- Py.int s5 ;;
  Ok (board, active_color, castling, en_passant_target, Int halfmove, fullmove).

(** The loop of [board_to_fen] over the squares of one row; [empty_count]
    is the run of empty squares seen so far. *)
Fixpoint fen_of_row (row : list piece) (empty_count : Z) : string :=
  match row with
  | [] => if 0 <? empty_count then Py.str_int empty_count else ""
  | Empty :: t => fen_of_row t (empty_count + 1)
  | Piece c k :: t =>
      String.append (if 0 <? empty_count then Py.str_int empty_count else "")
                    (String (piece_to_fen c k) (fen_of_row t 0))
  end.

(** The en-passant field of [board_to_fen]:
    [Move.file_map[ep[1]] + Move.rank_map[ep[0]]], or '-'. *)
Definition en_passant_text (ep : option square) : res string :=
  match ep with
  | Some (r, c) => f <- file_map c ;; k <- rank_map r ;; Ok (String f (String k ""))
  | None => Ok "-"
  end.

(** [Board.board_to_fen], from the fields it reads *)
Definition fen_of (g : grid) (wtm : bool) (cr : Castling_Rights)
    (ep : option square) (halfmove : number) (fullmove : Z) : res string :=
  let fen_pieces := map (fun row => fen_of_row row 0) g in
  let piece_placement := Py.join "/" fen_pieces in
  let active_color := if wtm then "w" else "b" in
  let castling := CR.str cr in
  en_passant_target <- en_passant_text ep ;;
  Ok (Py.join " " [piece_placement; active_color; castling; en_passant_target;
                   Num.str (Num.floordiv_one halfmove); Py.str_int fullmove]).

Definition board_to_fen (b : Board) : res string :=
  fen_of (board_array b) (white_to_move b) (castling_rights b)
         (en_passant_square b) (halfmove_clock b) (fullmove_number b).

(** [Board.__eq__] *)
Definition Board_eq (a b : Board) : res bool :=
  fa <- board_to_fen a ;;
  fb <- board_to_fen b ;;
  Ok (String.eqb fa fb).

(** [remove_extra_details] (local to [make_legal_move]) *)
Definition remove_extra_details (fen : string) : string :=
  let parts := Py.split_ws fen in
  let parts := if (6 <=? List.length parts)%nat then firstn 4 parts else parts in
  Py.join " " parts.

(** [s[:s.rfind(' ', 0, s.rfind(' '))]] as used by [Board.__init__]: the
    text before the last-but-one blank.  [rfind] is -1 when there is no
    blank, and a negative bound counts from the end of the text. *)
Fixpoint rfind_aux (s : list ascii) (i : Z) (stop : Z) (found : Z) : Z :=
  match s with
  | [] => found
  | c :: t =>
      if i <? stop
      then rfind_aux t (i + 1) stop (if Ascii.eqb c " " then i else found)
      else found
  end.

Definition clip (len i : Z) : Z :=
  if i <? 0 then Z.max 0 (i + len) else Z.min i len.

Definition rfind_blank (s : string) (stop : Z) : Z :=
  let l := list_ascii_of_string s in
  rfind_aux l 0 (clip (Z.of_nat (List.length l)) stop) (-1).

Definition slice_to (s : string) (stop : Z) : string :=
  let l := list_ascii_of_string s in
  string_of_list_ascii (firstn (Z.to_nat (clip (Z.of_nat (List.length l)) stop)) l).

Definition initial_fen_log_entry (fen : string) : string :=
  let len := Z.of_nat (String.length fen) in
  slice_to fen (rfind_blank fen (rfind_blank fen len)).

(** ** King locations *)

(** [get_king_locations]: scan in row-major order, remembering the last king
    of each colour seen, and stop as soon as both are known; falling out of
    the loops reaches [sys.exit()]. *)
Fixpoint king_scan_row (row : list piece) (r c : Z) (wk bk : option square)
  : (option square * option square) + (square * square) :=
  match row with
  | [] => inl (wk, bk)
  | p :: t =>
      match p with
      | Piece White King =>
          match bk with
          | Some k => inr ((r, c), k)
          | None => king_scan_row t r (c + 1) (Some (r, c)) bk
          end
      | Piece Black King =>
          match wk with
          | Some k => inr (k, (r, c))
          | None => king_scan_row t r (c + 1) wk (Some (r, c))
          end
      | _ => king_scan_row t r (c + 1) wk bk
      end
  end.

Fixpoint king_scan (g : grid) (r : Z) (wk bk : option square) : res (square * square) :=
  match g with
  | [] => Raise SystemExit
  | row :: t =>
      match king_scan_row row r 0 wk bk with
      | inr found => Ok found
      | inl (wk', bk') => king_scan t (r + 1) wk' bk'
      end
  end.

Definition get_king_locations (g : grid) : res (square * square) :=
  king_scan g 0 None None.

(** ** Pseudo-legal move generation *)

Definition in_range8 (x : Z) : bool := (0 <=? x) && (x <? 8).

Definition range8 : list Z := [0; 1; 2; 3; 4; 5; 6; 7].

Section Generators.

Variable g : grid.
Variable ep : option square.

Definition new_move (sr sc er ec : Z) : res Move :=
  Move_init g sr sc er ec None false.

(** [for piece in ['Q', 'N', 'R', 'B']: moves.append(Move(..., promoted_piece=piece))] *)
Definition promotions (sr sc er ec : Z) : res (list Move) :=
  q <- Move_init g sr sc er ec (Some Queen) false ;;
  n <- Move_init g sr sc er ec (Some Knight) false ;;
  r <- Move_init g sr sc er ec (Some Rook) false ;;
  b <- Move_init g sr sc er ec (Some Bishop) false ;;
  Ok [q; n; r; b].

Definition ep_is (r c : Z) : bool :=
  match ep with
  | Some e => square_eqb (r, c) e
  | None => false
  end.

(** One turn of [for d_col in (-1, 1)] in [get_pawn_moves]. *)
Definition pawn_capture (row col direction : Z) (is_w is_b : bool) (d_col : Z)
  : res (list Move) :=
  if in_range8 (col + d_col) && in_range8 (row + direction) then
    target <- at_ g (row + direction) (col + d_col) ;;
    if has_color target (if is_w then Black else White) then
      if (is_w && (row - 1 =? 0)) || (is_b && (row + 1 =? 7))
      then promotions row col (row + direction) (col + d_col)
      else (m <- new_move row col (row + direction) (col + d_col) ;; Ok [m])
    else if ep_is (row + direction) (col + d_col) then
      m <- new_move row col (row + direction) (col + d_col) ;; Ok [m]
    else Ok []
  else Ok [].

(** The moves [get_pawn_moves] appends, in order. *)
Definition pawn_moves (row col : Z) : res (list Move) :=
  p <- at_ g row col ;;
  let is_w := has_color p White in
  let is_b := has_color p Black in
  let direction := if is_w then -1 else 1 in
  forward <-
    (if (1 <=? row + direction) && (row + direction <? 8) then
       ahead <- at_ g (row + direction) col ;;
       if is_empty ahead then
         one <-
           (if (is_w && (row - 1 =? 0)) || (is_b && (row + 1 =? 7))
            then promotions row col (row + direction) col
            else (m <- new_move row col (row + direction) col ;; Ok [m])) ;;
         two <-
           (if ((row =? 6) && is_w) || ((row =? 1) && is_b) then
              ahead2 <- at_ g (row + 2 * direction) col ;;
              if is_empty ahead2
              then (m <- new_move row col (row + 2 * direction) col ;; Ok [m])
              else Ok []
            else Ok []) ;;
         Ok (one ++ two)%list
       else Ok []
     else Ok []) ;;
  left <- pawn_capture row col direction is_w is_b (-1) ;;
  right <- pawn_capture row col direction is_w is_b 1 ;;
  Ok (forward ++ left ++ right)%list.

(** The [while 0 <= r < 8 and 0 <= c < 8] loop of the rook and bishop
    generators, for one direction; [fuel] bounds the number of turns. *)
Fixpoint slide (fuel : nat) (row col dr dc r c : Z) : res (list Move) :=
  if in_range8 r && in_range8 c then
    match fuel with
    | O => Raise OutOfFuel
    | S fuel' =>
        target <- at_ g r c ;;
        if is_empty target then
          m <- new_move row col r c ;;
          rest <- slide fuel' row col dr dc (r + dr) (c + dc) ;;
          Ok (m :: rest)
        else
          own <- at_ g row col ;;
          if negb (same_color_char target own) then
            m <- new_move row col r c ;; Ok [m]
          else Ok []
    end
  else Ok [].

Fixpoint slides (directions : list (Z * Z)) (row col : Z) : res (list Move) :=
  match directions with
  | [] => Ok []
  | (dr, dc) :: t =>
      ms <- slide 8 row col dr dc (row + dr) (col + dc) ;;
      rest <- slides t row col ;;
      Ok (ms ++ rest)%list
  end.

Definition rook_directions : list (Z * Z) := [(1, 0); (-1, 0); (0, 1); (0, -1)].
Definition bishop_directions : list (Z * Z) := [(1, 1); (-1, 1); (1, -1); (-1, -1)].

Definition rook_moves (row col : Z) : res (list Move) := slides rook_directions row col.
Definition bishop_moves (row col : Z) : res (list Move) := slides bishop_directions row col.

Definition queen_moves (row col : Z) : res (list Move) :=
  a <- rook_moves row col ;;
  b <- bishop_moves row col ;;
  Ok (a ++ b)%list.

(** The loop shared by [get_knight_moves] and [get_king_moves]. *)
Fixpoint steps (offsets : list (Z * Z)) (row col : Z) : res (list Move) :=
  match offsets with
  | [] => Ok []
  | (dr, dc) :: t =>
      let r := row + dr in
      let c := col + dc in
      here <-
        (if in_range8 r && in_range8 c then
           target <- at_ g r c ;;
           if is_empty target then (m <- new_move row col r c ;; Ok [m])
           else
             own <- at_ g row col ;;
             if negb (same_color_char target own)
             then (m <- new_move row col r c ;; Ok [m])
             else Ok []
         else Ok []) ;;
      rest <- steps t row col ;;
      Ok (here ++ rest)%list
  end.

Definition knight_offsets : list (Z * Z) :=
  [(2, 1); (2, -1); (-2, 1); (-2, -1); (1, 2); (1, -2); (-1, 2); (-1, -2)].

Definition king_offsets : list (Z * Z) :=
  [(1, 0); (-1, 0); (0, 1); (0, -1); (1, 1); (1, -1); (-1, 1); (-1, -1)].

Definition knight_moves (row col : Z) : res (list Move) := steps knight_offsets row col.
Definition king_moves (row col : Z) : res (list Move) := steps king_offsets row col.

(** [self.moveFunctions[piece_type](row, col, moves)] *)
Definition moveFunctions (k : kind) (row col : Z) : res (list Move) :=
  match k with
  | Pawn => pawn_moves row col
  | Rook => rook_moves row col
  | Knight => knight_moves row col
  | Bishop => bishop_moves row col
  | Queen => queen_moves row col
  | King => king_moves row col
  end.

Variable wtm : bool.

(** The body of the two [range(8)] loops of [get_psuedo_legal_moves]. *)
Definition moves_from (row col : Z) : res (list Move) :=
  p <- at_ g row col ;;
  match p with
  | Empty => Ok []
  | Piece c k =>
      if (color_eqb c White && wtm) || (color_eqb c Black && negb wtm)
      then moveFunctions k row col
      else Ok []
  end.

Fixpoint scan_cols (row : Z) (cols : list Z) : res (list Move) :=
  match cols with
  | [] => Ok []
  | col :: t =>
      ms <- moves_from row col ;;
      rest <- scan_cols row t ;;
      Ok (ms ++ rest)%list
  end.

Fixpoint scan_rows (rows : list Z) : res (list Move) :=
  match rows with
  | [] => Ok []
  | row :: t =>
      ms <- scan_cols row range8 ;;
      rest <- scan_rows t ;;
      Ok (ms ++ rest)%list
  end.

End Generators.

(** [Board.get_psuedo_legal_moves] *)
Definition get_psuedo_legal_moves (b : Board) : res (list Move) :=
  scan_rows (board_array b) (en_passant_square b) (white_to_move b) range8.

Definition ends_at (row col : Z) (m : Move) : bool :=
  (end_row m =? row) && (end_col m =? col).

(** [Board.square_under_attack]: the turn is switched for the generation of
    the opponent's moves and switched back. *)
Definition square_under_attack (b : Board) (row col : Z) : res bool :=
  opponent_moves <-
    get_psuedo_legal_moves (set_white_to_move b (negb (white_to_move b))) ;;
  Ok (existsb (ends_at row col) opponent_moves).

(** [Board.in_check] *)
Definition in_check (b : Board) : res bool :=
  if white_to_move b
  then square_under_attack b (fst (white_king_pos b)) (snd (white_king_pos b))
  else square_under_attack b (fst (black_king_pos b)) (snd (black_king_pos b)).

(** One of the two [if] blocks of [get_castling_moves]; [d] is 1 for the
    king side and -1 for the queen side. *)
Definition castling_side (b : Board) (row col : Z) (w_side b_side : ascii) (d : Z)
  : res (list Move) :=
  if (white_to_move b && CR.has_rights (castling_rights b) w_side)
     || (negb (white_to_move b) && CR.has_rights (castling_rights b) b_side)
  then
    s1 <- at_ (board_array b) row (col + d) ;;
    s2 <- at_ (board_array b) row (col + 2 * d) ;;
    if piece_eqb s1 s2 && is_empty s2 then
      a1 <- square_under_attack b row (col + d) ;;
      if negb a1 then
        a2 <- square_under_attack b row (col + 2 * d) ;;
        if negb a2 then
          m <- Move_init (board_array b) row col row (col + 2 * d) None true ;;
          Ok [m]
        else Ok []
      else Ok []
    else Ok []
  else Ok [].

(** [Board.get_castling_moves] *)
Definition get_castling_moves (b : Board) (row col : Z) (moves : list Move)
  : res (list Move) :=
  chk <- in_check b ;;
  if chk then Ok moves
  else
    ks <- castling_side b row col "K" "k" 1 ;;
    qs <- castling_side b row col "Q" "q" (-1) ;;
    Ok (moves ++ ks ++ qs)%list.

(** ** Making and undoing moves *)

(** A [try: ... except Exception as e: print(...)] block, one statement per
    element: the first statement that raises ends the block and what the
    earlier ones did stays.  [sys.exit()] raises SystemExit, which
    [except Exception] does not catch. *)
Fixpoint try_block (stmts : list (Board -> res Board)) (b : Board) : res Board :=
  match stmts with
  | [] => Ok b
  | stmt :: rest =>
      match stmt b with
      | Ok b' => try_block rest b'
      | Raise SystemExit => Raise SystemExit
      | Raise OutOfFuel => Raise OutOfFuel
      | Raise _ => Ok b
      end
  end.

(** [self.board_array[r][c] = p] as a statement *)
Definition assign (r c : Z) (p : piece) (b : Board) : res Board :=
  g <- put (board_array b) r c p ;; Ok (set_board_array b g).

(** [self.board_array[r][c] = self.board_array[r'][c']] *)
Definition copy_square (r c r' c' : Z) (b : Board) : res Board :=
  p <- at_ (board_array b) r' c' ;; assign r c p b.

(** [self.white_king_pos, self.black_king_pos = self.get_king_locations()] *)
Definition update_king_pos (b : Board) : res Board :=
  '(wk, bk) <- get_king_locations (board_array b) ;; Ok (set_king_pos b wk bk).

(** [1 if move.piece_moved[0] == 'w' else -1] *)
Definition behind (move : Move) : Z :=
  if has_color (piece_moved move) White then 1 else -1.

(** [move.piece_moved[0] + move.promoted_piece].  For a move of an empty
    square the source writes a text that is no piece code; no generator
    builds a promotion from an empty square, and the model keeps ['--']. *)
Definition promoted_code (move : Move) (k : kind) : piece :=
  match color_of (piece_moved move) with
  | Some c => Piece c k
  | None => Empty
  end.

(** [Board._make_psuedo_legal_move] *)
Definition _make_psuedo_legal_move (b : Board) (move : Move) : res Board :=
  try_block
    [ (fun b => Ok (set_move_log b (move_log b ++ [move])%list));
      (fun b => Ok (set_white_to_move b (negb (white_to_move b))));
      (fun b => Ok (set_fullmove_number b
                      (fullmove_number b + (if white_to_move b then 1 else 0))));
      (fun b =>
         if is_pawn (piece_moved move) && negb (start_col move =? end_col move)
            && is_empty (piece_captured move)
         then assign (end_row move + behind move) (end_col move) Empty b
         else Ok b);
      assign (start_row move) (start_col move) Empty;
      assign (end_row move) (end_col move) (piece_moved move);
      update_king_pos;
      (fun b =>
         match promoted_piece move with
         | Some k => assign (end_row move) (end_col move) (promoted_code move k) b
         | None => Ok b
         end);
      (fun b => Ok (set_castling_rights b (CR.update (castling_rights b) move)));
      (fun b =>
         if is_castling move then
           if start_col move <? end_col move then
             copy_square (end_row move) (end_col move - 1)
                         (end_row move) (end_col move + 1) b
           else if end_col move <? start_col move then
             copy_square (end_row move) (end_col move + 1)
                         (end_row move) (end_col move - 2) b
           else Ok b
         else Ok b);
      (fun b =>
         if is_castling move then
           if start_col move <? end_col move then
             assign (end_row move) (end_col move + 1) Empty b
           else if end_col move <? start_col move then
             assign (end_row move) (end_col move - 2) Empty b
           else Ok b
         else Ok b) ]
    b.

(** [Board.undo_move] up to, and without, its final [if not in_engine:]. *)
Definition undo_move_body (in_engine : bool) (b : Board) (move : Move)
    (log' : list Move) : res Board :=
  let b := set_move_log b log' in
  let b := set_fullmove_number b
             (fullmove_number b - (if white_to_move b then 1 else 0)) in
  let b := set_halfmove_clock b
             (if negb (Num.eq_int (halfmove_clock b) 0) && negb in_engine
              then Num.sub_half (halfmove_clock b)
              else Num.sub_zero (halfmove_clock b)) in
  b <- assign (start_row move) (start_col move) (piece_moved move) b ;;
  b <- assign (end_row move) (end_col move) (piece_captured move) b ;;
  let b := set_white_to_move b (negb (white_to_move b)) in
  let b := set_is_checkmate b false in
  let b := set_is_draw b false in
  b <- update_king_pos b ;;
  let b := set_castling_rights b (CR.undo_castling_rights (castling_rights b)) in
  b <-
    (if is_pawn (piece_moved move)
        && (Z.abs (start_row move - end_row move) =? 2)
     then
       let b := set_en_passant_square b (Some (end_row move, end_col move)) in
       if negb (start_col move =? end_col move) && is_empty (piece_captured move)
       then assign (end_row move + behind move) (end_col move)
              (Piece (if has_color (piece_moved move) Black then White else Black) Pawn) b
       else Ok b
     else Ok (set_en_passant_square b None)) ;;
  if is_castling move then
    if start_col move <? end_col move then
      b <- copy_square (end_row move) (end_col move + 1)
                       (end_row move) (end_col move - 1) b ;;
      assign (end_row move) (end_col move - 1) Empty b
    else if end_col move <? start_col move then
      b <- copy_square (end_row move) (end_col move - 2)
                       (end_row move) (end_col move + 1) b ;;
      assign (end_row move) (end_col move + 1) Empty b
    else Ok b
  else Ok b.

(** [self.undo_move(True)], the undo used while moves are validated *)
Definition undo_move_in_engine (b : Board) : res Board :=
  match rev (move_log b) with
  | [] => Ok b
  | move :: r => undo_move_body true b move (rev r)
  end.

Definition flip_turn (b : Board) : Board :=
  set_white_to_move b (negb (white_to_move b)).

Definition set_is_check (m : Move) (v : bool) : Move :=
  mkMove (start_row m) (start_col m) (end_row m) (end_col m)
         (piece_moved m) (piece_captured m) v (is_castling m)
         (promoted_piece m) (uci m).

(** The loop [for i in range(len(moves) - 1, -1, -1)] of [get_legal_moves]:
    the candidates are tried from the last one down to the first one, each
    made, tested and undone on the board the previous trial left. *)
Fixpoint legality_filter (moves : list Move) (b : Board) : res (Board * list Move) :=
  match moves with
  | [] => Ok (b, [])
  | m :: rest =>
      '(b, kept) <- legality_filter rest b ;;
      b <- _make_psuedo_legal_move b m ;;
      let b := flip_turn b in
      chk <- in_check b ;;
      let b := flip_turn b in
      b <- undo_move_in_engine b ;;
      Ok (b, if chk then kept else m :: kept)
  end.

(** [update_is_check] (local to [get_legal_moves]) *)
Fixpoint update_is_check (moves : list Move) (b : Board) : res (Board * list Move) :=
  match moves with
  | [] => Ok (b, [])
  | m :: rest =>
      b <- _make_psuedo_legal_move b m ;;
      chk <- in_check b ;;
      b <- undo_move_in_engine b ;;
      '(b, rest') <- update_is_check rest b ;;
      Ok (b, set_is_check m chk :: rest')
  end.

(** [Board.get_legal_moves]: the list it returns and the board it leaves. *)
Definition get_legal_moves (b : Board) : res (Board * list Move) :=
  moves <- get_psuedo_legal_moves b ;;
  let active_king_pos := if white_to_move b then white_king_pos b else black_king_pos b in
  moves <- get_castling_moves b (fst active_king_pos) (snd active_king_pos) moves ;;
  '(b, moves) <- legality_filter moves b ;;
  update_is_check moves b.

(** [Board.undo_move] *)
Definition undo_move (in_engine : bool) (b : Board) : res Board :=
  match rev (move_log b) with
  | [] => Ok b
  | move :: r =>
      b <- undo_move_body in_engine b move (rev r) ;;
      if in_engine then Ok b
      else
        '(fens, _) <- Py.pop (fen_log b) ;;
        let b := set_fen_log b fens in
        '(b, moves) <- get_legal_moves b ;;
        Ok (set_legal_moves b moves)
  end.

(** [update_en_passant_square] (local to [make_legal_move]) *)
Definition pawn_beside (b : Board) (move : Move) (col : Z) : res bool :=
  if (0 <=? end_row move) && (end_row move <? Z.of_nat (List.length (board_array b))) then
    row0 <- Py.index (board_array b) 0 ;;
    if (0 <=? col) && (col <? Z.of_nat (List.length row0)) then
      p <- at_ (board_array b) (end_row move) col ;;
      Ok (negb (same_color_char p (piece_moved move)) && is_pawn p)
    else Ok false
  else Ok false.

Definition update_en_passant_square (b : Board) (move : Move) : res Board :=
  if is_pawn (piece_moved move) && (Z.abs (start_row move - end_row move) =? 2) then
    right <- pawn_beside b move (end_col move + 1) ;;
    beside <- (if right then Ok true else pawn_beside b move (end_col move - 1)) ;;
    if beside
    then Ok (set_en_passant_square b (Some (end_row move + behind move, start_col move)))
    else Ok (set_en_passant_square b None)
  else Ok (set_en_passant_square b None).

(** [self.legal_moves[self.legal_moves.index(move)]] *)
Definition find_move (move : Move) (l : list Move) : option Move :=
  find (fun m => Move_eq m move) l.

(** The new value of [halfmove_clock] in [make_legal_move].  [piece_moved] is a
    two-character code, so [move.piece_moved == 'p'] compares it with a
    one-character text. *)
Definition next_halfmove_clock (clock : number) (move : Move) : number :=
  if negb (is_pawn (piece_moved move))
     && is_empty (piece_captured move)
     && (String.eqb (code (piece_moved move)) "p"
         && (start_col move =? end_col move))
  then Num.add_half clock
  else Int 0.

(** [any(self.fen_log.count(x) >= 3 for x in set(self.fen_log))] *)
Definition repeated_thrice (log : list string) : bool :=
  existsb (fun x => (3 <=? Py.count x log)%nat) log.

(** [Board.make_legal_move] *)
Definition make_legal_move (b : Board) (move : Move) : res Board :=
  if existsb (fun m => Move_eq m move) (legal_moves b)
     && negb (is_checkmate b) && negb (is_draw b)
  then
    match find_move move (legal_moves b) with
    | None => Raise ValueError
    | Some move =>
        b <- _make_psuedo_legal_move b move ;;
        fen <- board_to_fen b ;;
        let b := set_fen_log b (fen_log b ++ [remove_extra_details fen])%list in
        b <- update_en_passant_square b move ;;
        let b := set_halfmove_clock b (next_halfmove_clock (halfmove_clock b) move) in
        '(b, moves) <- get_legal_moves b ;;
        let b := set_legal_moves b moves in
        match moves with
        | [] =>
            chk <- in_check b ;;
            if chk then Ok (set_is_checkmate b true) else Ok (set_is_draw b true)
        | _ :: _ =>
            if Num.eq_int (halfmove_clock b) 50 || repeated_thrice (fen_log b)
            then Ok (set_is_draw b true)
            else Ok b
        end
    end
  else Ok b.

(** [Board.__init__] *)
Definition Board_init (fen : string) : res Board :=
  '(g, wtm, cr, ep, halfmove, fullmove) <- fen_to_board fen ;;
  f <- fen_of g wtm cr ep halfmove fullmove ;;
  let log := [initial_fen_log_entry f] in
  '(wk, bk) <- get_king_locations g ;;
  let b := mkBoard g wtm cr ep halfmove fullmove [] log wk bk false false [] in
  '(b, moves) <- get_legal_moves b ;;
  Ok (set_legal_moves b moves).

Definition default_fen : string :=
  "rnbqkbnr/pppppppp/8/8/8/8/PPPPPPPP/RNBQKBNR w KQkq - 0 1".

(** ** Callers and test drivers *)

(** What the GUI does with two clicks: build the move from the board as it
    stands and submit it. *)
Definition submit (b : Board) (sr sc er ec : Z) (promoted : option kind) : res Board :=
  move <- Move_init (board_array b) sr sc er ec promoted false ;;
  make_legal_move b move.

(** A game: the board loaded from [fen], then the moves submitted in turn. *)
Fixpoint play_from (b : Board) (moves : list (Z * Z * Z * Z)) : res Board :=
  match moves with
  | [] => Ok b
  | (sr, sc, er, ec) :: rest =>
      b' <- submit b sr sc er ec None ;;
      play_from b' rest
  end.

Definition play (fen : string) (moves : list (Z * Z * Z * Z)) : res Board :=
  b <- Board_init fen ;; play_from b moves.

Definition no_board : Board :=
  mkBoard [] true (CR.init "") None (Int 0) 0 [] [] (0, 0) (0, 0) false false [].

(** The board of a computation that is known to succeed. *)
Definition the_board (r : res Board) : Board :=
  match r with Ok b => b | Raise _ => no_board end.



(** ** Well-formedness *)

(** The grid of the data model: eight rows of eight squares. *)
Definition grid_8x8 (g : grid) : bool :=
  (List.length g =? 8)%nat && forallb (fun row => (List.length row =? 8)%nat) g.

Definition on_board (s : square) : bool := in_range8 (fst s) && in_range8 (snd s).

(** The castling letters of the present rights, in the order KQkq. *)
Definition rights_listing (K Q k q : bool) : string :=
  ((if K then "K" else "") ++ (if Q then "Q" else "")
   ++ (if k then "k" else "") ++ (if q then "q" else ""))%string.


(** The rights text of a board loaded from a FEN whose castling field is a
    subset of KQkq in that order, or '-', and of every board that follows. *)
Definition canonical_rights (cr : Castling_Rights) : bool :=
  let s := castling_rights_string cr in
  String.eqb s "-"
  || String.eqb s (rights_listing (CR.has_rights cr "K") (CR.has_rights cr "Q")
                                  (CR.has_rights cr "k") (CR.has_rights cr "q")).



(** *** FEN text, as section 6 of the specification describes it *)

Definition is_piece_letter (c : ascii) : bool :=
  negb (is_empty (fen_symbols_get c)).


Fixpoint string_forallb (f : ascii -> bool) (s : string) : bool :=
  match s with
  | EmptyString => true
  | String c t => f c && string_forallb f t
  end.






(** *** What makes [fen_to_board] raise *)






(** ** Examples *)

(** The guard of [make_legal_move]. *)
Definition accepted (b : Board) (move : Move) : bool :=
  existsb (fun m => Move_eq m move) (legal_moves b)
  && negb (is_checkmate b) && negb (is_draw b).

Definition initial_board : Board :=
  Eval vm_compute in the_board (Board_init default_fen).

(** The pawn e2 sent to e5: no legal move. *)
Definition e2e5 : Move :=
  mkMove 6 4 3 4 (Piece White Pawn) Empty false false None "e2e5".

Definition knights_out_1 : Board :=
  Eval vm_compute in the_board (play default_fen [(7, 6, 5, 5); (0, 6, 2, 5); (7, 1, 5, 2); (0, 1, 2, 2)]).

Definition knights_out_2 : Board :=
  Eval vm_compute in the_board (play default_fen [(7, 1, 5, 2); (0, 1, 2, 2); (7, 6, 5, 5); (0, 6, 2, 5)]).

Definition knights_out_fen : string :=
  "r1bqkb1r/pppppppp/2n2n2/8/8/2N2N2/PPPPPPPP/R1BQKB1R w KQkq - 0 3".

(** The position after 1. Nf3, with its halfmove clock at 1. *)
Definition after_Nf3_fen : string :=
  "rnbqkbnr/pppppppp/8/8/8/5N2/PPPPPPPP/RNBQKB1R b KQkq - 1 1".

Definition after_Nf3 : Board :=
  Eval vm_compute in the_board (Board_init after_Nf3_fen).

Definition g8f6 : Move :=
  mkMove 0 6 2 5 (Piece Black Knight) Empty false false None "g8f6".

Definition g1f3 : Move :=
  mkMove 7 6 5 5 (Piece White Knight) Empty false false None "g1f3".

(** The history of the castling rights ends with the rights in force. *)
Definition log_ok (cr : Castling_Rights) : Prop :=
  exists l, castling_rights_log cr = (l ++ [castling_rights_string cr])%list.

(** A king move and a rook move from the corner h1. *)
Definition e1e2 : Move :=
  mkMove 7 4 6 4 (Piece White King) Empty false false None "e1e2".

Definition h1g1 : Move :=
  mkMove 7 7 7 6 (Piece White Rook) Empty false false None "h1g1".

(** ** Termination of the generators *)

(** A computation that returns. *)
Definition total {A : Type} (x : res A) : Prop := exists a, x = Ok a.

(** The number of squares left before a walk from (r, c) along (dr, dc)
    leaves the board. *)
Definition squares_left (dr dc r c : Z) : Z :=
  if dr =? 1 then 8 - r
  else if dr =? -1 then r + 1
  else if dc =? 1 then 8 - c
  else c + 1.

Definition is_direction (dr dc : Z) : Prop :=
  -1 <= dr <= 1 /\ -1 <= dc <= 1 /\ (dr <> 0 \/ dc <> 0).

(** White to move with both rooks on their corners and a knight on b1. *)
Definition knight_on_b1_fen : string := "r3k2r/8/8/8/8/8/8/RN2K2R w KQkq - 0 1".

Definition knight_on_b1 : Board :=
  Eval vm_compute in the_board (Board_init knight_on_b1_fen).

(** White to move, a black pawn on e2 that attacks d1 and f1. *)
Definition pawn_on_e2_fen : string := "4k3/8/8/8/8/8/4p3/4K2R w K - 0 1".

Definition pawn_on_e2 : Board :=
  Eval vm_compute in the_board (Board_init pawn_on_e2_fen).



(** A text without whitespace, and a text without the character [sep]. *)
Definition ws_free (s : string) : bool :=
  string_forallb (fun c => negb (Py.isspace c)) s.

Definition sep_free (sep : ascii) (s : string) : bool :=
  string_forallb (fun c => negb (Ascii.eqb c sep)) s.

(** The characters of an encoded rank. *)
Definition rank_char (c : ascii) : bool := is_piece_letter c || Py.is_ascii_digit c.


(** ** Move notation (Move.get_san) *)

(** [s[n:]] *)
Fixpoint text_from (n : nat) (s : string) : string :=
  match n, s with
  | O, _ => s
  | S n', String _ t => text_from n' t
  | S _, EmptyString => EmptyString
  end.

(** [p[1]] as a character: the kind letter, ['-'] for ['--']. *)
Definition second_char (p : piece) : ascii :=
  match p with Empty => "-"%char | Piece _ k => kind_char k end.

(** [Move.get_san], from the attributes of the move as they stand.  The
    attribute [Move.san] is the value of this method when it was last called
    ([Move.__init__], then [update_is_check] once [is_check] is known). *)
Definition get_san (m : Move) : res string :=
  san <-
    (if is_pawn (piece_moved m) then
       let san := match promoted_piece m with
                  | None => text_from 2 (uci m)
                  | Some _ => text_from 1 (uci m)
                  end in
       if negb (is_empty (piece_captured m)) || negb (start_col m =? end_col m)
       then (c <- Py.char_at (uci m) 0 ;; Ok (String c (String "x" san)))
       else Ok san
     else if is_castling m then
       Ok (if start_col m <? end_col m then "O-O" else "O-O-O")
     else
       let san := String (second_char (piece_moved m)) (text_from 2 (uci m)) in
       if negb (is_empty (piece_captured m))
       then (c <- Py.char_at san 0 ;; Ok (String c (String "x" (text_from 1 san))))
       else Ok san) ;;
  Ok (if is_check m then (san ++ "+")%string else san).

(** The name of a square in algebraic notation: file letter, then rank digit. *)
Definition square_name (r c : Z) : res string :=
  f <- file_map c ;; k <- rank_map r ;; Ok (String f (String k "")).

(** ** The printed board (Board.__repr__) *)

Definition newline : string := String "010"%char "".

(** ['\n'.join(' '.join(piece for piece in row) for row in self.board_array)] *)
Definition Board_repr (g : grid) : string :=
  Py.join newline (map (fun row => Py.join " " (map code row)) g).

(** ** Screen coordinates (modules/coordinates_converter.py) *)

(** The function indexes its first argument twice and divides by
    [SQUARE_SIZE]; it can raise IndexError and ZeroDivisionError. *)
Inductive converted : Type :=
| Converted (s : square)
| ConvIndexError
| ZeroDivisionError.

(** [round(max(0, min(7, q)))] for an int [q]; [round] of an int is that int. *)
Definition clamp07 (q : Z) : Z := Z.max 0 (Z.min 7 q).

(** [coordinates_converter(coordinates, pov, SQUARE_SIZE, PADDING)] on ints,
    as its signature annotates the sizes; [//] is floor division, which is
    [Z.div].  The result is [(y, x)]: row first. *)
Definition coordinates_converter (coordinates : list Z) (pov : bool)
    (SQUARE_SIZE PADDING : Z) : converted :=
  match coordinates with
  | [] => ConvIndexError
  | c0 :: rest =>
      if SQUARE_SIZE =? 0 then ZeroDivisionError
      else
        let x := if pov then clamp07 ((c0 - PADDING) / SQUARE_SIZE)
                 else clamp07 (7 - (c0 - PADDING) / SQUARE_SIZE) in
        match rest with
        | [] => ConvIndexError
        | c1 :: _ =>
            let y := if pov then clamp07 ((c1 - PADDING) / SQUARE_SIZE)
                     else clamp07 (7 - (c1 - PADDING) / SQUARE_SIZE) in
            Converted (y, x)
        end
  end.

(** The top-left pixel of the square (row, col) as the GUI draws it:
    [((col if pov else 7 - col) * SQUARE_SIZE + PADDING,
      (row if pov else 7 - row) * SQUARE_SIZE + PADDING)]. *)
Definition square_rect_origin (pov : bool) (row col SQUARE_SIZE PADDING : Z) : Z * Z :=
  ((if pov then col else 7 - col) * SQUARE_SIZE + PADDING,
   (if pov then row else 7 - row) * SQUARE_SIZE + PADDING).

(** ** Presence of a piece *)

Definition has_piece (p : piece) (g : grid) : bool :=
  existsb (existsb (piece_eqb p)) g.

(** Two white knights, on b1 and f1, that can both go to d2; a white pawn on
    e5 beside a black pawn on d5, with d6 as the en-passant target. *)
Definition two_knights_fen : string := "4k3/8/8/3pP3/8/8/8/1N2KN2 w - d6 0 1".

Definition two_knights : Board :=
  Eval vm_compute in the_board (Board_init two_knights_fen).

(** The same position as [fen_to_board] decodes it, before any move is
    validated on it. *)
Definition en_passant_ready : Board :=
  Eval vm_compute in
    match fen_to_board two_knights_fen with
    | Ok (g, wtm, cr, ep, halfmove, fullmove) =>
        mkBoard g wtm cr ep halfmove fullmove [] [] (7, 4) (0, 4) false false []
    | Raise _ => no_board
    end.

(** ** Vocabulary for the moves the generators build *)

Definition is_some {A : Type} (o : option A) : bool :=
  match o with Some _ => true | None => false end.

(** The side to move. *)
Definition side (wtm : bool) : color := if wtm then White else Black.

(** [m] is the move that [Move(self, (sr, sc, er, ec), promoted_piece=promoted)]
    makes on the grid [g]; the notation maps then know the end square. *)
Definition built (g : grid) (sr sc er ec : Z) (promoted : option kind) (m : Move) : Prop :=
  start_row m = sr /\ start_col m = sc /\ end_row m = er /\ end_col m = ec
  /\ at_ g sr sc = Ok (piece_moved m) /\ at_ g er ec = Ok (piece_captured m)
  /\ is_castling m = false /\ is_check m = false /\ promoted_piece m = promoted
  /\ in_range8 er = true /\ in_range8 ec = true.

(** [m] ends [j] steps of (dr, dc) away from its start, over empty squares. *)
Definition along (g : grid) (dr dc : Z) (m : Move) : Prop :=
  exists j,
    1 <= j
    /\ end_row m = start_row m + j * dr /\ end_col m = start_col m + j * dc
    /\ forall i, 1 <= i < j ->
                 at_ g (start_row m + i * dr) (start_col m + i * dc) = Ok Empty.

(** [m] ends one of the [offsets] away from its start. *)
Definition steps_by (offsets : list (Z * Z)) (m : Move) : Prop :=
  exists d, In d offsets
            /\ end_row m = start_row m + fst d /\ end_col m = start_col m + snd d.

(** The direction of the pawns of a colour, the row they start from and the
    row they promote on. *)
Definition forward (c : color) : Z := match c with White => -1 | Black => 1 end.
Definition home_row (c : color) : Z := match c with White => 6 | Black => 1 end.
Definition last_row (c : color) : Z := match c with White => 0 | Black => 7 end.

(** The four kinds of pawn move: one square ahead, two squares ahead,
    capture, en-passant capture. *)
Definition pawn_push (c : color) (m : Move) : Prop :=
  end_col m = start_col m /\ end_row m = start_row m + forward c
  /\ piece_captured m = Empty /\ 1 <= end_row m
  /\ (promoted_piece m <> None <-> end_row m = last_row c).

Definition pawn_double_push (g : grid) (c : color) (m : Move) : Prop :=
  end_col m = start_col m /\ end_row m = start_row m + 2 * forward c
  /\ start_row m = home_row c /\ piece_captured m = Empty
  /\ at_ g (start_row m + forward c) (start_col m) = Ok Empty
  /\ promoted_piece m = None.

Definition pawn_takes (c : color) (m : Move) : Prop :=
  (end_col m = start_col m - 1 \/ end_col m = start_col m + 1)
  /\ end_row m = start_row m + forward c
  /\ has_color (piece_captured m) (opposite c) = true
  /\ (promoted_piece m <> None <-> end_row m = last_row c).

Definition pawn_takes_en_passant (ep : option square) (c : color) (m : Move) : Prop :=
  (end_col m = start_col m - 1 \/ end_col m = start_col m + 1)
  /\ end_row m = start_row m + forward c
  /\ has_color (piece_captured m) (opposite c) = false
  /\ ep = Some (end_row m, end_col m)
  /\ promoted_piece m = None.

Definition pawn_shape (g : grid) (ep : option square) (c : color) (m : Move) : Prop :=
  (pawn_push c m \/ pawn_double_push g c m \/ pawn_takes c m
   \/ pawn_takes_en_passant ep c m)
  /\ forall k, promoted_piece m = Some k -> In k [Queen; Knight; Rook; Bishop].

(** The lines of a sliding piece. *)
Definition lines_of (k : kind) : list (Z * Z) :=
  match k with
  | Rook => rook_directions
  | Bishop => bishop_directions
  | Queen => (rook_directions ++ bishop_directions)%list
  | _ => []
  end.

(** The shape of a move of the piece that [m] moves. *)
Definition shaped (g : grid) (ep : option square) (m : Move) : Prop :=
  match piece_moved m with
  | Empty => False
  | Piece c Pawn => pawn_shape g ep c m
  | Piece c Knight =>
      promoted_piece m = None /\ steps_by knight_offsets m
      /\ has_color (piece_captured m) c = false
  | Piece c King =>
      promoted_piece m = None /\ steps_by king_offsets m
      /\ has_color (piece_captured m) c = false
  | Piece c k =>
      promoted_piece m = None
      /\ (exists d, In d (lines_of k) /\ along g (fst d) (snd d) m)
      /\ has_color (piece_captured m) c = false
  end.

(** What holds of every move of [get_psuedo_legal_moves]. *)
Definition generated (g : grid) (ep : option square) (wtm : bool) (m : Move) : Prop :=
  In (start_row m) range8 /\ In (start_col m) range8
  /\ built g (start_row m) (start_col m) (end_row m) (end_col m) (promoted_piece m) m
  /\ has_color (piece_moved m) (side wtm) = true
  /\ shaped g ep m.

(** A white pawn on a7 and a black pawn on a2, the squares a8 and a1 ahead of
    them empty. *)
Definition pawns_on_seventh_fen : string := "4k3/P7/8/8/8/8/p7/4K3 w - - 0 1".

Definition pawns_on_seventh : Board :=
  Eval vm_compute in the_board (Board_init pawns_on_seventh_fen).

(** The value [undo_move] writes to [en_passant_square] when it takes back
    the move [m]: the end square of a two-row pawn move, else [None]. *)
Definition en_passant_after_undo (m : Move) : option square :=
  if is_pawn (piece_moved m) && (Z.abs (start_row m - end_row m) =? 2)
  then Some (end_row m, end_col m)
  else None.

(** Black is mated: the queen on g7 gives check and is protected. *)
Definition mated_fen : string := "7k/6Q1/6K1/8/8/8/8/8 b - - 0 1".

Definition mated : Board :=
  Eval vm_compute in the_board (Board_init mated_fen).

(** The reply 1... Nf6 made on [after_Nf3], and the board after it is taken
    back. *)
Definition after_Nf3_Nf6 : Board :=
  Eval vm_compute in the_board (make_legal_move after_Nf3 g8f6).

Definition after_Nf3_undone : Board :=
  Eval vm_compute in the_board (undo_move false after_Nf3_Nf6).

(** ** Squares as total functions *)

(** The piece on a square and the grid with one square rewritten, as total
    functions; on the squares of an 8x8 grid they are [at_] and [put]. *)
Definition sq (g : grid) (r c : Z) : piece :=
  match at_ g r c with Ok p => p | Raise _ => Empty end.

Definition set_sq (g : grid) (r c : Z) (p : piece) : grid :=
  match put g r c p with Ok g' => g' | Raise _ => g end.

(** Castling rights as a FEN means them: a right of the side to move says
    that the king of that side stands on its home square, which is the king
    square the board records, and a rook of that side in the corner. *)
Definition castling_rights_sound (b : Board) : bool :=
  let wtm := white_to_move b in
  let row := if wtm then 7 else 0 in
  let k := if wtm then white_king_pos b else black_king_pos b in
  let home := square_eqb k (row, 4)
              && piece_eqb (sq (board_array b) row 4) (Piece (side wtm) King) in
  (negb (CR.has_rights (castling_rights b) (if wtm then "K" else "k")%char)
   || (home && piece_eqb (sq (board_array b) row 7) (Piece (side wtm) Rook)))
  && (negb (CR.has_rights (castling_rights b) (if wtm then "Q" else "q")%char)
      || (home && piece_eqb (sq (board_array b) row 0) (Piece (side wtm) Rook))).

(** ** Moves whose squares are on the board *)

(** The test of [_make_psuedo_legal_move] for an en-passant capture: a pawn
    that changes column and captures nothing on its end square. *)
Definition ep_shape (m : Move) : bool :=
  is_pawn (piece_moved m) && negb (start_col m =? end_col m)
  && is_empty (piece_captured m).

(** The squares that making and taking back [m] index are on the board. *)
Definition move_on_board (m : Move) : bool :=
  in_range8 (start_row m) && in_range8 (start_col m)
  && in_range8 (end_row m) && in_range8 (end_col m)
  && (if ep_shape m then in_range8 (end_row m + behind m) else true)
  && (if is_castling m then
        if start_col m <? end_col m
        then in_range8 (end_col m - 1) && in_range8 (end_col m + 1)
        else if end_col m <? start_col m
             then in_range8 (end_col m + 1) && in_range8 (end_col m - 2)
             else true
      else true).

(** ** The trial of a candidate move *)

(** What [get_legal_moves] asks of a candidate: made on the board, does it
    leave the king of the side that moved out of check; and does it give
    check to the other king. *)
Definition leaves_king_safe (b : Board) (m : Move) : res bool :=
  b1 <- _make_psuedo_legal_move b m ;;
  chk <- in_check (flip_turn b1) ;;
  Ok (negb chk).

Definition gives_check (b : Board) (m : Move) : res bool :=
  b1 <- _make_psuedo_legal_move b m ;; in_check b1.

Definition is_true (r : res bool) : bool :=
  match r with Ok true => true | _ => false end.

(** ** Entries of the position log *)

(** The first four fields of the FEN text: placement, side to move, castling
    rights and en-passant square. *)
Definition position_key (g : grid) (wtm : bool) (cr : Castling_Rights)
    (ep : option square) : res string :=
  en_passant_target <- en_passant_text ep ;;
  Ok (Py.join " " [Py.join "/" (map (fun row => fen_of_row row 0) g);
                   if wtm then "w" else "b"; CR.str cr; en_passant_target]).

(** The en-passant capture e5xd6 on [en_passant_ready]. *)
Definition e5d6 : Move :=
  mkMove 3 4 2 3 (Piece White Pawn) Empty false false None "e5d6".

(** * Properties *)

(** ** The error monad *)

Lemma bind_Ok {A B : Type} (x : res A) (f : A -> res B) (b : B) :
  bind x f = Ok b -> exists a, x = Ok a /\ f a = Ok b.
Proof.
  destruct x as [a|e]; simpl; intros H.
  - exists a. split; [reflexivity | exact H].
  - discriminate H.
Qed.

Ltac inv_bind H :=
  let a := fresh "x" in
  let Ha := fresh "E" in
  apply bind_Ok in H; destruct H as (a & Ha & H).

Ltac inv_ok :=
  repeat match goal with
         | H : Ok _ = Ok _ |- _ => injection H as H; try subst
         | H : Raise _ = Ok _ |- _ => discriminate H
         | H : Ok _ = Raise _ |- _ => discriminate H
         end.

(** ** Text *)

Lemma append_cancel_l (s x y : string) : (s ++ x)%string = (s ++ y)%string -> x = y.
Proof.
  induction s as [|c s IH]; simpl; intros H.
  - exact H.
  - injection H as H. auto.
Qed.

Lemma append_assoc (a b c : string) :
  ((a ++ b) ++ c)%string = (a ++ (b ++ c))%string.
Proof. induction a as [|x a IH]; simpl; [reflexivity | now rewrite IH]. Qed.

Lemma append_nil_r (a : string) : (a ++ "")%string = a.
Proof. induction a as [|x a IH]; simpl; [reflexivity | now rewrite IH]. Qed.

(** A text that ends with a blank followed by a blank-free field determines
    that field and what precedes it. *)
Definition blank_free (s : string) : Prop := Py.contains " " s = false.

Lemma last_field_unique (x y f f' : string) :
  blank_free f -> blank_free f' ->
  (x ++ String " " f)%string = (y ++ String " " f')%string ->
  x = y /\ f = f'.
Proof.
  intros Hf Hf'. revert y.
  induction x as [|c x IH]; intros y H.
  - destruct y as [|d y]; simpl in H.
    + injection H as H. auto.
    + injection H as Hc H. subst d.
      assert (Py.contains " " f = true) as K.
      { rewrite H. clear. induction y as [|e y IH]; simpl.
        - reflexivity.
        - rewrite IH. apply orb_true_r. }
      unfold blank_free in Hf. congruence.
  - destruct y as [|d y]; simpl in H.
    + injection H as Hc H. subst c.
      assert (Py.contains " " f' = true) as K.
      { rewrite <- H. clear. induction x as [|e x IH]; simpl.
        - reflexivity.
        - rewrite IH. apply orb_true_r. }
      unfold blank_free in Hf'. congruence.
    + injection H as Hc H. subst d.
      destruct (IH y H) as [-> ->]. auto.
Qed.

(** *** Decimal text of integers *)

Lemma digit_char_cases (c : ascii) :
  Py.is_ascii_digit c = true ->
  In c ["0"; "1"; "2"; "3"; "4"; "5"; "6"; "7"; "8"; "9"]%char.
Proof.
  destruct c as [[|] [|] [|] [|] [|] [|] [|] [|]]; vm_compute; intros H;
    try discriminate H; tauto.
Qed.

Lemma uint_text_digits (d : Decimal.uint) :
  string_forallb Py.is_ascii_digit (NilEmpty.string_of_uint d) = true.
Proof. induction d; simpl; auto. Qed.

Lemma uint_text_blank_free (d : Decimal.uint) :
  blank_free (NilEmpty.string_of_uint d).
Proof. unfold blank_free. induction d; simpl; auto. Qed.

Lemma digits_of_digits (s : string) (after : bool) :
  string_forallb Py.is_ascii_digit s = true ->
  (s <> "" \/ after = true) ->
  Py.digits_of s after = Some s.
Proof.
  revert after. induction s as [|c s IH]; intros after Hd Hne.
  - destruct Hne as [Hne | ->]; [congruence | reflexivity].
  - simpl in Hd. apply andb_true_iff in Hd as [Hc Hs].
    simpl. rewrite Hc. rewrite IH; auto.
Qed.

Lemma str_int_blank_free (n : Z) : blank_free (Py.str_int n).
Proof.
  unfold Py.str_int. destruct n as [|p|p]; simpl.
  - reflexivity.
  - unfold NilZero.string_of_uint.
    destruct (Pos.to_uint p) eqn:E; try apply uint_text_blank_free. reflexivity.
  - unfold blank_free. simpl. unfold NilZero.string_of_uint.
    destruct (Pos.to_uint p) eqn:E; try apply uint_text_blank_free. reflexivity.
Qed.

(** [int(str(n)) == n] *)
Lemma int_str_int (n : Z) : Py.int (Py.str_int n) = Ok n.
Proof.
  assert (forall p, Py.nat_of_digits (NilZero.string_of_uint (Pos.to_uint p)) = Ok (Zpos p)) as P.
  { intros p. unfold Py.nat_of_digits.
    assert (NilZero.string_of_uint (Pos.to_uint p) = NilEmpty.string_of_uint (Pos.to_uint p)) as E.
    { unfold NilZero.string_of_uint. destruct (Pos.to_uint p) eqn:Ep; try reflexivity.
      exfalso. exact (DecimalPos.Unsigned.to_uint_nonnil p Ep). }
    rewrite E, digits_of_digits.
    - rewrite <- E, NilZero.usu by apply DecimalPos.Unsigned.to_uint_nonnil.
      f_equal. unfold Z.of_uint. rewrite DecimalPos.Unsigned.of_to. reflexivity.
    - apply uint_text_digits.
    - left. pose proof (DecimalPos.Unsigned.to_uint_nonnil p) as K.
      destruct (Pos.to_uint p); simpl; congruence. }
  unfold Py.str_int. destruct n as [|p|p]; simpl Z.to_int.
  - reflexivity.
  - change (Z.to_int (Zpos p)) with (Decimal.Pos (Pos.to_uint p)).
    cbn [NilZero.string_of_int]. 
    specialize (P p).
    assert (forall s, string_forallb Py.is_ascii_digit s = true -> Py.int s = Py.nat_of_digits s) as Q.
    { intros s Hs. destruct s as [|c s]; [reflexivity|].
      simpl in Hs. apply andb_true_iff in Hs as [Hc _].
      apply digit_char_cases in Hc. simpl in Hc.
      repeat (destruct Hc as [<- | Hc]; [reflexivity|]). contradiction. }
    rewrite Q; [exact P|].
    unfold NilZero.string_of_uint. destruct (Pos.to_uint p); try apply uint_text_digits.
    reflexivity.
  - cbn [NilZero.string_of_int Z.to_int].
    change (Py.int (String "-" (NilZero.string_of_uint (Pos.to_uint p))))
      with (n <- Py.nat_of_digits (NilZero.string_of_uint (Pos.to_uint p)) ;; Ok (- n)).
    rewrite P. reflexivity.
Qed.

Lemma str_int_inj (n m : Z) : Py.str_int n = Py.str_int m -> n = m.
Proof.
  intros H. pose proof (int_str_int n) as Hn. rewrite H, int_str_int in Hn.
  congruence.
Qed.

Lemma contains_append (c : ascii) (a b : string) :
  Py.contains c (a ++ b)%string = Py.contains c a || Py.contains c b.
Proof.
  induction a as [|x a IH]; simpl; [reflexivity|].
  rewrite IH. apply orb_assoc.
Qed.

Lemma clock_text_blank_free (x : number) :
  blank_free (Num.str (Num.floordiv_one x)).
Proof.
  destruct x as [n|h]; cbn [Num.floordiv_one Num.str].
  - apply str_int_blank_free.
  - replace ((2 * (h / 2)) mod 2 =? 0) with true.
    + unfold blank_free. rewrite contains_append.
      rewrite (str_int_blank_free (2 * (h / 2) / 2)). reflexivity.
    + symmetry. apply Z.eqb_eq. rewrite Z.mul_comm. apply Z.mod_mul. lia.
Qed.

(** ** Board equality *)

(** The shape of an encoded FEN: what precedes the two clocks, then the
    clocks. *)
Lemma fen_of_shape g wtm cr ep hm fm fen :
  fen_of g wtm cr ep hm fm = Ok fen ->
  exists front,
    fen = ((front ++ String " " (Num.str (Num.floordiv_one hm)))
             ++ String " " (Py.str_int fm))%string.
Proof.
  unfold fen_of. intros H. inv_bind H. inv_ok.
  unfold Py.join. cbn [String.concat].
  match goal with
  | |- exists front, (?p ++ String " " (?a ++ String " " (?c ++ String " " (?e ++ _))))%string = _ =>
      exists (p ++ String " " (a ++ String " " (c ++ String " " e)))%string
  end.
  repeat (rewrite append_assoc; cbn [String.append]). reflexivity.
Qed.

(** C10. [Board.__eq__] compares the encoded FEN texts and nothing else: two
    boards are equal exactly when their FEN texts are; equal boards have the
    same fullmove number and the same halfmove-clock text; the move log, the
    position log and the cached legal moves play no part; hence boards with
    the same position and clocks are equal whatever their histories. *)
Theorem Board_eq_is_fen_equality (a b : Board) (fa fb : string)
    (Ha : board_to_fen a = Ok fa) (Hb : board_to_fen b = Ok fb) :
  (Board_eq a b = Ok true <-> fa = fb)
  /\ (Board_eq a b = Ok true ->
      fullmove_number a = fullmove_number b
      /\ Num.str (Num.floordiv_one (halfmove_clock a))
         = Num.str (Num.floordiv_one (halfmove_clock b)))
  /\ (forall ml fl lm ml' fl' lm',
        Board_eq (set_legal_moves (set_fen_log (set_move_log a ml) fl) lm)
                 (set_legal_moves (set_fen_log (set_move_log b ml') fl') lm')
        = Board_eq a b)
  /\ (board_array a = board_array b ->
      white_to_move a = white_to_move b ->
      CR.str (castling_rights a) = CR.str (castling_rights b) ->
      en_passant_square a = en_passant_square b ->
      halfmove_clock a = halfmove_clock b ->
      fullmove_number a = fullmove_number b ->
      Board_eq a b = Ok true).
Proof.
  assert (Board_eq a b = Ok true <-> fa = fb) as Hiff.
  { unfold Board_eq. rewrite Ha, Hb. simpl. split.
    - intros H. injection H as H. now apply String.eqb_eq.
    - intros ->. now rewrite String.eqb_refl. }
  split; [exact Hiff|]. split; [|split].
  - intros H. apply Hiff in H. subst fb.
    unfold board_to_fen in Ha, Hb.
    apply fen_of_shape in Ha as (x & Hx).
    apply fen_of_shape in Hb as (y & Hy).
    rewrite Hx in Hy.
    apply last_field_unique in Hy as [Hy Hf]; try apply str_int_blank_free.
    apply last_field_unique in Hy as [_ Hh]; try apply clock_text_blank_free.
    split; [now apply str_int_inj | exact Hh].
  - intros. reflexivity.
  - intros Hg Hw Hc He Hh Hf.
    apply Hiff. unfold board_to_fen, fen_of in Ha, Hb.
    rewrite Hg, Hw, Hc, He, Hh, Hf in Ha. congruence.
Qed.

(** Two orders of the same four knight moves: different move logs, equal
    boards. *)
Lemma Board_eq_is_fen_equality_witness :
  map uci (move_log knights_out_1) <> map uci (move_log knights_out_2)
  /\ Board_eq knights_out_1 knights_out_2 = Ok true.
Proof.
  split.
  - vm_compute. discriminate.
  - apply (proj1 (Board_eq_is_fen_equality knights_out_1 knights_out_2
                    knights_out_fen knights_out_fen
                    ltac:(vm_compute; reflexivity) ltac:(vm_compute; reflexivity))).
    reflexivity.
Defined.

(** ** What validating moves leaves untouched *)

(** The fields that no statement of [_make_psuedo_legal_move] after the third
    one, and no statement of the in-engine undo but its first ones, writes. *)
Definition frame (b : Board) :=
  (move_log b, white_to_move b, fullmove_number b,
   halfmove_clock b, fen_log b, legal_moves b).

Lemma assign_frame r c p b b' : assign r c p b = Ok b' -> frame b' = frame b.
Proof. unfold assign. intros H. inv_bind H. inv_ok. reflexivity. Qed.

Lemma copy_square_frame r c r' c' b b' :
  copy_square r c r' c' b = Ok b' -> frame b' = frame b.
Proof. unfold copy_square. intros H. inv_bind H. eauto using assign_frame. Qed.

Lemma update_king_pos_frame b b' : update_king_pos b = Ok b' -> frame b' = frame b.
Proof.
  unfold update_king_pos. intros H. inv_bind H. destruct x. inv_ok. reflexivity.
Qed.

Lemma try_block_inv (P : Board -> Prop) (stmts : list (Board -> res Board)) :
  Forall (fun stmt => forall x y, P x -> stmt x = Ok y -> P y) stmts ->
  forall b b', P b -> try_block stmts b = Ok b' -> P b'.
Proof.
  induction 1 as [|stmt stmts Hs _ IH]; intros b b' Hb H; simpl in H.
  - inv_ok. exact Hb.
  - destruct (stmt b) as [y|e] eqn:E.
    + eapply IH; [|exact H]. eauto.
    + destruct e; inv_ok; exact Hb.
Qed.

Lemma try_block_cons_ok (stmt : Board -> res Board) rest b b1 :
  stmt b = Ok b1 -> try_block (stmt :: rest) b = try_block rest b1.
Proof. intros H. simpl. now rewrite H. Qed.

Lemma flip_flip (b : Board) : flip_turn (flip_turn b) = b.
Proof. destruct b. unfold flip_turn, set_white_to_move. simpl. now rewrite negb_involutive. Qed.

Lemma make_frame (b b' : Board) (m : Move) :
  _make_psuedo_legal_move b m = Ok b' ->
  frame b' = ((move_log b ++ [m])%list, negb (white_to_move b),
              fullmove_number b + (if negb (white_to_move b) then 1 else 0),
              halfmove_clock b, fen_log b, legal_moves b).
Proof.
  unfold _make_psuedo_legal_move.
  do 3 (erewrite try_block_cons_ok by reflexivity).
  match goal with
  | |- _ -> _ = ?t => apply (try_block_inv (fun x => frame x = t)); [|reflexivity]
  end.
  repeat constructor; intros x y Hx Hy; rewrite <- Hx;
    repeat match type of Hy with
           | (if ?c then _ else _) = _ => destruct c
           | match ?c with _ => _ end = _ => destruct c
           end;
    inv_ok; eauto using assign_frame, copy_square_frame, update_king_pos_frame.
Qed.

Lemma undo_body_frame (b b' : Board) (m : Move) (l : list Move) :
  undo_move_body true b m l = Ok b' ->
  frame b' = (l, negb (white_to_move b),
              fullmove_number b - (if white_to_move b then 1 else 0),
              halfmove_clock b, fen_log b, legal_moves b).
Proof.
  unfold undo_move_body. rewrite andb_false_r. unfold Num.sub_zero.
  intros H.
  inv_bind H. apply assign_frame in E.
  inv_bind H. apply assign_frame in E0.
  inv_bind H. apply update_king_pos_frame in E1.
  inv_bind H.
  assert (frame x2 = frame x1) as E2'.
  { revert E2.
    repeat match goal with
           | |- (if ?c then _ else _) = _ -> _ => destruct c
           end; intros E2; inv_ok; try reflexivity.
    apply assign_frame in E2. rewrite E2. reflexivity. }
  assert (frame b' = frame x2) as E3.
  { revert H.
    repeat match goal with
           | |- (if ?c then _ else _) = _ -> _ => destruct c
           end; intros H; inv_ok; try reflexivity;
      inv_bind H; apply copy_square_frame in E3; apply assign_frame in H; congruence. }
  rewrite E3, E2', E1.
  unfold frame in *. simpl in *.
  injection E0 as -> -> -> -> -> ->.
  injection E as -> -> -> -> -> ->.
  reflexivity.
Qed.
Lemma make_undo_frame (b b1 b2 : Board) (m : Move) :
  _make_psuedo_legal_move b m = Ok b1 ->
  undo_move_in_engine b1 = Ok b2 ->
  frame b2 = frame b.
Proof.
  intros Hm Hu. apply make_frame in Hm.
  unfold undo_move_in_engine in Hu.
  assert (move_log b1 = (move_log b ++ [m])%list) as Hl
      by (unfold frame in Hm; congruence).
  rewrite Hl, rev_app_distr in Hu. simpl in Hu.
  apply undo_body_frame in Hu. rewrite Hu, rev_involutive.
  unfold frame in *. injection Hm as _ -> -> -> -> ->.
  rewrite negb_involutive.
  repeat f_equal. destruct (white_to_move b); simpl; lia.
Qed.

Lemma legality_filter_frame (moves : list Move) :
  forall b b' kept, legality_filter moves b = Ok (b', kept) -> frame b' = frame b.
Proof.
  induction moves as [|m rest IH]; intros b b' kept H; simpl in H.
  - inv_ok. reflexivity.
  - inv_bind H. destruct x as [b0 kept0].
    inv_bind H. inv_bind H. rewrite flip_flip in H. inv_bind H. inv_ok.
    rewrite (make_undo_frame _ _ _ _ E0 E2). eauto.
Qed.

Lemma update_is_check_frame (moves : list Move) :
  forall b b' out, update_is_check moves b = Ok (b', out) -> frame b' = frame b.
Proof.
  induction moves as [|m rest IH]; intros b b' out H; simpl in H.
  - inv_ok. reflexivity.
  - inv_bind H. inv_bind H. inv_bind H. inv_bind H. destruct x2 as [b3 out3].
    inv_ok. rewrite (IH _ _ _ E2). eauto using make_undo_frame.
Qed.

Lemma get_legal_moves_frame (b b' : Board) (moves : list Move) :
  get_legal_moves b = Ok (b', moves) -> frame b' = frame b.
Proof.
  unfold get_legal_moves. intros H.
  inv_bind H. inv_bind H. inv_bind H. destruct x1 as [b1 kept].
  rewrite (update_is_check_frame _ _ _ _ H).
  eauto using legality_filter_frame.
Qed.



(** ** The halfmove clock *)

(** The guard of the clock update compares a two-character piece code with
    ['p'], so its increment is never taken. *)
Lemma next_halfmove_clock_zero (clock : number) (move : Move) :
  next_halfmove_clock clock move = Int 0.
Proof.
  unfold next_halfmove_clock.
  replace (String.eqb (code (piece_moved move)) "p") with false.
  - now rewrite andb_false_l, andb_false_r.
  - destruct (piece_moved move) as [|[] []]; reflexivity.
Qed.

Lemma update_en_passant_square_frame b move b' :
  update_en_passant_square b move = Ok b' -> frame b' = frame b.
Proof.
  unfold update_en_passant_square.
  repeat match goal with
         | |- (if ?c then _ else _) = _ -> _ => destruct c
         | |- bind _ _ = _ -> _ => let H := fresh in intros H; inv_bind H; revert H
         end; intros HH; inv_ok; reflexivity.
Qed.

(** Every accepted move leaves the clock at the int 0. *)
Lemma make_legal_move_clock (b b' : Board) (move : Move) :
  accepted b move = true ->
  make_legal_move b move = Ok b' ->
  halfmove_clock b' = Int 0.
Proof.
  intros Ha Hm. unfold make_legal_move in Hm.
  fold (accepted b move) in Hm. rewrite Ha in Hm.
  destruct (find_move move (legal_moves b)) as [mv|]; [|discriminate].
  inv_bind Hm. inv_bind Hm. inv_bind Hm. inv_bind Hm. destruct x2 as [b2 moves].
  apply get_legal_moves_frame in E2.
  assert (halfmove_clock b2 = Int 0) as Hc.
  { unfold frame in E2. simpl in E2. injection E2 as _ _ _ E2 _ _.
    rewrite E2. apply next_halfmove_clock_zero. }
  assert (halfmove_clock b' = halfmove_clock b2) as Hb'.
  { destruct moves; [inv_bind Hm; destruct x2|];
      repeat match type of Hm with
             | (if ?c then _ else _) = _ => destruct c
             end; inv_ok; reflexivity. }
  congruence.
Qed.

(** C2. The knight move 1. Nf3 from the initial position is neither a pawn
    move nor a capture, and so is the reply 1... Nf6; the clock, which starts
    at 0, is still the int 0 after each of them, where the rule for the clock
    gives 1 and 2. *)
Theorem quiet_move_resets_halfmove_clock :
  Board_init default_fen = Ok initial_board
  /\ halfmove_clock initial_board = Int 0
  /\ (b1 <- make_legal_move initial_board g1f3 ;;
      Ok (map (fun m => (uci m, piece_moved m, piece_captured m)) (move_log b1),
          halfmove_clock b1))
     = Ok ([("g1f3", Piece White Knight, Empty)], Int 0)
  /\ (b1 <- make_legal_move initial_board g1f3 ;;
      b2 <- make_legal_move b1 g8f6 ;;
      Ok (map (fun m => (uci m, piece_moved m, piece_captured m)) (move_log b2),
          halfmove_clock b2))
     = Ok ([("g1f3", Piece White Knight, Empty); ("g8f6", Piece Black Knight, Empty)],
           Int 0).
Proof. vm_compute. repeat split. Qed.

(** ** Apply, then undo *)

(** C1. On the board loaded from the position after 1. Nf3 with its clock at
    1, the legal move Nf6 followed by a user-facing undo gives a board whose
    FEN has the clock at 0: the FEN before the move is not restored. *)
Theorem apply_undo_loses_halfmove_clock :
  Board_init after_Nf3_fen = Ok after_Nf3
  /\ accepted after_Nf3 g8f6 = true
  /\ board_to_fen after_Nf3
     = Ok "rnbqkbnr/pppppppp/8/8/8/5N2/PPPPPPPP/RNBQKB1R b KQkq h5 1 1"
  /\ (b1 <- make_legal_move after_Nf3 g8f6 ;;
      b2 <- undo_move false b1 ;;
      board_to_fen b2)
     = Ok "rnbqkbnr/pppppppp/8/8/8/5N2/PPPPPPPP/RNBQKB1R b KQkq h5 0 1"
  /\ (b1 <- make_legal_move after_Nf3 g8f6 ;;
      b2 <- undo_move false b1 ;;
      Board_eq after_Nf3 b2)
     = Ok false.
Proof. vm_compute. repeat split. Qed.

(** ** Castling rights *)

Lemma contains_remove_same (c : ascii) (s : string) :
  Py.contains c (Py.remove c s) = false.
Proof.
  induction s as [|d s IH]; simpl; [reflexivity|].
  destruct (Ascii.eqb d c) eqn:E; simpl; [exact IH|]. now rewrite E.
Qed.

Lemma contains_remove_other (c d : ascii) (s : string) :
  c <> d -> Py.contains c (Py.remove d s) = Py.contains c s.
Proof.
  intros Hcd. induction s as [|x s IH]; simpl; [reflexivity|].
  destruct (Ascii.eqb x d) eqn:E; simpl.
  - apply Ascii.eqb_eq in E. subst x.
    destruct (Ascii.eqb d c) eqn:E'; [apply Ascii.eqb_eq in E'; congruence|].
    exact IH.
  - now rewrite IH.
Qed.

Lemma contains_remove_le (c d : ascii) (s : string) :
  Py.contains c (Py.remove d s) = true -> Py.contains c s = true.
Proof.
  destruct (Ascii.eqb c d) eqn:E.
  - apply Ascii.eqb_eq in E. subst d. now rewrite contains_remove_same.
  - apply Ascii.eqb_neq in E. now rewrite contains_remove_other.
Qed.

Lemma has_rights_remove_le (cr : Castling_Rights) (sides : list ascii) (side : ascii) :
  CR.has_rights (CR.remove_rights cr sides) side = true -> CR.has_rights cr side = true.
Proof.
  revert cr. induction sides as [|d sides IH]; intros cr; simpl; [auto|].
  intros H. apply IH in H. unfold CR.has_rights in *. simpl in H.
  eauto using contains_remove_le.
Qed.

(** An update never adds a right. *)
Lemma update_le (cr : Castling_Rights) (move : Move) (side : ascii) :
  CR.has_rights (CR.update cr move) side = true -> CR.has_rights cr side = true.
Proof.
  unfold CR.update.
  destruct (piece_moved move) as [|[] []];
    repeat match goal with |- context [if ?c then _ else _] => destruct c end;
    unfold CR.has_rights at 1; cbn [castling_rights_string];
    intros H; try exact H;
    match type of H with
    | Py.contains _ (castling_rights_string ?x) = true =>
        change (CR.has_rights x side = true) in H
    end; eauto using has_rights_remove_le.
Qed.

(** Undoing an update gives back the rights and the history there were,
    provided the history ended with the rights in force. *)
Lemma update_log_ok cr move : log_ok (CR.update cr move).
Proof. unfold log_ok, CR.update. simpl. eauto. Qed.

Lemma undo_update (cr : Castling_Rights) (move : Move) :
  log_ok cr -> CR.undo_castling_rights (CR.update cr move) = cr.
Proof.
  intros [l Hl]. 
  assert (castling_rights_log (CR.update cr move)
          = (castling_rights_log cr ++ [castling_rights_string (CR.update cr move)])%list) as E.
  { unfold CR.update. cbn [castling_rights_log castling_rights_string].
    f_equal. destruct (piece_moved move) as [|[] []];
      repeat match goal with |- context [if ?c then _ else _] => destruct c end;
      reflexivity. }
  unfold CR.undo_castling_rights. rewrite E, rev_app_distr. simpl.
  rewrite Hl, rev_app_distr. simpl. rewrite rev_involutive.
  destruct cr as [s lg]. simpl in *. now rewrite Hl.
Qed.

(** C8. The rule table of [Castling_Rights.update]: a king move revokes both
    rights of its colour and no right of the other colour; a rook leaving its
    corner revokes the right of that corner and no other; a right that is
    absent stays absent, so no update ever adds a right; and the undo of an
    update gives the earlier rights back. *)
Theorem castling_update_rule (cr : Castling_Rights) (move : Move) :
  let has := CR.has_rights cr in
  let has' := CR.has_rights (CR.update cr move) in
  (piece_moved move = Piece White King ->
   has' "K" = false /\ has' "Q" = false /\ has' "k" = has "k" /\ has' "q" = has "q")%char
  /\ (piece_moved move = Piece Black King ->
      has' "k" = false /\ has' "q" = false /\ has' "K" = has "K" /\ has' "Q" = has "Q")%char
  /\ (piece_moved move = Piece White Rook -> start_row move = 7 -> start_col move = 7 ->
      has' "K" = false /\ has' "Q" = has "Q" /\ has' "k" = has "k" /\ has' "q" = has "q")%char
  /\ (piece_moved move = Piece White Rook -> start_row move = 7 -> start_col move = 0 ->
      has' "Q" = false /\ has' "K" = has "K" /\ has' "k" = has "k" /\ has' "q" = has "q")%char
  /\ (piece_moved move = Piece Black Rook -> start_row move = 0 -> start_col move = 7 ->
      has' "k" = false /\ has' "K" = has "K" /\ has' "Q" = has "Q" /\ has' "q" = has "q")%char
  /\ (piece_moved move = Piece Black Rook -> start_row move = 0 -> start_col move = 0 ->
      has' "q" = false /\ has' "K" = has "K" /\ has' "Q" = has "Q" /\ has' "k" = has "k")%char
  /\ (forall side, has side = false -> has' side = false)
  /\ (log_ok cr -> CR.undo_castling_rights (CR.update cr move) = cr).
Proof.
  intros has has'. subst has has'.
  repeat match goal with |- _ /\ _ => split end;
    try (intros Hp; try intros Hr Hc; unfold CR.update; rewrite Hp; try rewrite Hc;
         cbv [Z.eqb Pos.eqb]; cbn [CR.remove_rights fold_left]; unfold CR.has_rights;
         cbn [castling_rights_string];
         repeat match goal with |- _ /\ _ => split end;
         rewrite ?contains_remove_same; try reflexivity;
         repeat (rewrite contains_remove_other by (intros K; discriminate K));
         rewrite ?contains_remove_same; reflexivity).
  - intros side H. destruct (CR.has_rights (CR.update cr move) side) eqn:E; [|reflexivity].
    apply update_le in E. congruence.
  - apply undo_update.
Qed.

Lemma castling_update_rule_witness :
  let cr := CR.init "KQkq" in
  (CR.has_rights (CR.update cr e1e2) "K" = false
   /\ CR.has_rights (CR.update cr e1e2) "Q" = false
   /\ CR.has_rights (CR.update cr e1e2) "k" = CR.has_rights cr "k"
   /\ CR.has_rights (CR.update cr e1e2) "q" = CR.has_rights cr "q")%char
  /\ (CR.has_rights (CR.update cr h1g1) "K" = false
      /\ CR.has_rights (CR.update cr h1g1) "Q" = CR.has_rights cr "Q"
      /\ CR.has_rights (CR.update cr h1g1) "k" = CR.has_rights cr "k"
      /\ CR.has_rights (CR.update cr h1g1) "q" = CR.has_rights cr "q")%char
  /\ CR.undo_castling_rights (CR.update cr e1e2) = cr.
Proof.
  intros cr.
  pose proof (castling_update_rule cr e1e2) as (Hk & _ & _ & _ & _ & _ & _ & Hu).
  pose proof (castling_update_rule cr h1g1) as (_ & _ & Hr & _).
  split; [exact (Hk eq_refl)|]. split; [exact (Hr eq_refl eq_refl eq_refl)|].
  apply Hu. exists []. reflexivity.
Defined.

(** ** Pseudo-legal moves *)

Lemma Forall_app_intro {A : Type} (P : A -> Prop) (l1 l2 : list A) :
  Forall P l1 -> Forall P l2 -> Forall P (l1 ++ l2)%list.
Proof. intros. apply Forall_app. auto. Qed.

(** Whatever holds of every move built by [Move(self, ...)] without the
    castling flag holds of every move the generators append. *)
Section GeneratedMoves.

Variable g : grid.
Variable ep : option square.
Variable P : Move -> Prop.
Hypothesis built :
  forall sr sc er ec promoted m,
    Move_init g sr sc er ec promoted false = Ok m -> P m.

Ltac gen_step :=
  match goal with
  | H : Ok _ = Ok _ |- _ => injection H as H; try subst
  | H : Raise _ = Ok _ |- _ => discriminate H
  | H : bind _ _ = Ok _ |- _ => inv_bind H
  | H : (if ?c then _ else _) = Ok _ |- _ => destruct c
  | H : new_move _ _ _ _ _ = Ok _ |- _ => apply built in H
  | H : Move_init _ _ _ _ _ _ false = Ok _ |- _ => apply built in H
  | |- Forall _ (_ :: _) => constructor
  | |- Forall _ [] => constructor
  | |- Forall _ (_ ++ _)%list => apply Forall_app_intro
  end.

Lemma promotions_P sr sc er ec ms :
  promotions g sr sc er ec = Ok ms -> Forall P ms.
Proof. unfold promotions. intros H. repeat gen_step; auto. Qed.

Lemma pawn_capture_P row col direction is_w is_b d_col ms :
  pawn_capture g ep row col direction is_w is_b d_col = Ok ms -> Forall P ms.
Proof.
  unfold pawn_capture. intros H.
  repeat gen_step; eauto using promotions_P.
Qed.

Lemma pawn_moves_P row col ms : pawn_moves g ep row col = Ok ms -> Forall P ms.
Proof.
  unfold pawn_moves. intros H.
  repeat gen_step; eauto using promotions_P, pawn_capture_P.
Qed.

Lemma slide_P fuel row col dr dc :
  forall r c ms, slide g fuel row col dr dc r c = Ok ms -> Forall P ms.
Proof.
  induction fuel as [|fuel IH]; intros r c ms H; simpl in H.
  - destruct (in_range8 r && in_range8 c); inv_ok. constructor.
  - repeat gen_step; eauto.
Qed.

Lemma slides_P directions row col :
  forall ms, slides g directions row col = Ok ms -> Forall P ms.
Proof.
  induction directions as [|[dr dc] t IH]; intros ms H; simpl in H.
  - inv_ok. constructor.
  - repeat gen_step; eauto using slide_P.
Qed.

Lemma steps_P offsets row col :
  forall ms, steps g offsets row col = Ok ms -> Forall P ms.
Proof.
  induction offsets as [|[dr dc] t IH]; intros ms H; simpl in H.
  - inv_ok. constructor.
  - inv_bind H. inv_bind H. inv_ok. apply Forall_app_intro; [|eauto].
    repeat gen_step; auto.
Qed.

Lemma moveFunctions_P k row col ms :
  moveFunctions g ep k row col = Ok ms -> Forall P ms.
Proof.
  destruct k; simpl; unfold rook_moves, bishop_moves, queen_moves, knight_moves, king_moves;
    intros H; repeat gen_step; eauto using pawn_moves_P, slides_P, steps_P.
Qed.

Lemma moves_from_P wtm row col ms :
  moves_from g ep wtm row col = Ok ms -> Forall P ms.
Proof.
  unfold moves_from. intros H. inv_bind H.
  destruct x; [inv_ok; constructor|].
  repeat gen_step; eauto using moveFunctions_P.
Qed.

Lemma scan_cols_P wtm row cols :
  forall ms, scan_cols g ep wtm row cols = Ok ms -> Forall P ms.
Proof.
  induction cols as [|col t IH]; intros ms H; simpl in H.
  - inv_ok. constructor.
  - repeat gen_step; eauto using moves_from_P.
Qed.

Lemma scan_rows_P wtm rows :
  forall ms, scan_rows g ep wtm rows = Ok ms -> Forall P ms.
Proof.
  induction rows as [|row t IH]; intros ms H; cbn [scan_rows] in H.
  - inv_ok. constructor.
  - repeat gen_step; eauto using scan_cols_P.
Qed.

End GeneratedMoves.

Lemma Move_init_fields g sr sc er ec promoted castling m :
  Move_init g sr sc er ec promoted castling = Ok m ->
  start_row m = sr /\ start_col m = sc /\ end_row m = er /\ end_col m = ec
  /\ at_ g sr sc = Ok (piece_moved m) /\ at_ g er ec = Ok (piece_captured m)
  /\ is_castling m = castling /\ promoted_piece m = promoted
  /\ coordinates_to_uci sr sc er ec promoted = Ok (uci m).
Proof.
  unfold Move_init. intros H. inv_bind H. inv_bind H. inv_bind H. inv_ok.
  simpl. repeat split; assumption.
Qed.

(** No move of [get_psuedo_legal_moves] carries the castling flag. *)
Lemma pseudo_legal_not_castling (b : Board) (ms : list Move) :
  get_psuedo_legal_moves b = Ok ms -> Forall (fun m => is_castling m = false) ms.
Proof.
  unfold get_psuedo_legal_moves. apply scan_rows_P.
  intros sr sc er ec promoted m H. apply Move_init_fields in H. tauto.
Qed.

(** [get_castling_moves] appends castling moves only. *)
Lemma castling_side_flag b row col w_side b_side d ms :
  castling_side b row col w_side b_side d = Ok ms ->
  Forall (fun m => is_castling m = true) ms.
Proof.
  unfold castling_side. intros H.
  repeat match goal with
         | H : Ok _ = Ok _ |- _ => injection H as H; try subst
         | H : bind _ _ = Ok _ |- _ => inv_bind H
         | H : (if ?c then _ else _) = Ok _ |- _ => destruct c
         end; repeat constructor.
  apply Move_init_fields in E3. tauto.
Qed.

Lemma get_castling_moves_appends b row col moves ms :
  get_castling_moves b row col moves = Ok ms ->
  exists extra, ms = (moves ++ extra)%list
                /\ Forall (fun m => is_castling m = true) extra.
Proof.
  unfold get_castling_moves. intros H. inv_bind H.
  destruct x.
  - inv_ok. exists []. rewrite app_nil_r. auto.
  - inv_bind H. inv_bind H. inv_ok. exists (x ++ x0)%list. split; [reflexivity|].
    apply Forall_app_intro; eauto using castling_side_flag.
Qed.

(** ** Totality of the attack query on an 8x8 grid *)

Lemma total_Ok {A : Type} (a : A) : total (Ok a).
Proof. exists a. reflexivity. Qed.

Lemma total_bind {A B : Type} (x : res A) (f : A -> res B) :
  total x -> (forall a, x = Ok a -> total (f a)) -> total (bind x f).
Proof. intros [a Ha] H. rewrite Ha. simpl. auto. Qed.

Ltac b2p :=
  repeat match goal with
         | H : _ && _ = true |- _ => apply andb_true_iff in H; destruct H
         | H : (_ <=? _) = true |- _ => apply Z.leb_le in H
         | H : (_ <? _) = true |- _ => apply Z.ltb_lt in H
         | H : (_ =? _) = true |- _ => apply Z.eqb_eq in H
         | H : (_ <=? _) = false |- _ => apply Z.leb_gt in H
         | H : (_ <? _) = false |- _ => apply Z.ltb_ge in H
         | H : (_ =? _) = false |- _ => apply Z.eqb_neq in H
         | H : in_range8 _ = true |- _ => unfold in_range8 in H
         | |- in_range8 _ = true => unfold in_range8
         | |- _ && _ = true => apply andb_true_iff; split
         | |- (_ <=? _) = true => apply Z.leb_le
         | |- (_ <? _) = true => apply Z.ltb_lt
         end.

Lemma index_total {A : Type} (l : list A) (i : Z) :
  0 <= i < Z.of_nat (List.length l) -> total (Py.index l i).
Proof.
  intros H. assert ((i <? 0) = false) as E0 by (apply Z.ltb_ge; lia).
  unfold Py.index. cbv zeta. rewrite !E0.
  destruct (nth_error l (Z.to_nat i)) as [x|] eqn:E.
  - apply total_Ok.
  - apply nth_error_None in E. lia.
Qed.

Lemma grid_8x8_rows (g : grid) :
  grid_8x8 g = true ->
  List.length g = 8%nat /\ Forall (fun row => List.length row = 8%nat) g.
Proof.
  unfold grid_8x8. intros H. apply andb_true_iff in H as [H1 H2].
  apply Nat.eqb_eq in H1. split; [exact H1|].
  apply Forall_forall. intros row Hr.
  rewrite forallb_forall in H2. apply Nat.eqb_eq. auto.
Qed.

Lemma at_total (g : grid) (r c : Z) :
  grid_8x8 g = true -> in_range8 r = true -> in_range8 c = true ->
  total (at_ g r c).
Proof.
  intros Hg Hr Hc. apply grid_8x8_rows in Hg as [Hl Hrows]. b2p.
  unfold at_. apply total_bind.
  - apply index_total. lia.
  - intros row Hrow. apply index_total.
    assert ((r <? 0) = false) as E0 by (apply Z.ltb_ge; lia).
    unfold Py.index in Hrow. cbv zeta in Hrow. rewrite !E0 in Hrow.
    destruct (nth_error g (Z.to_nat r)) as [x|] eqn:E; inv_ok.
    apply nth_error_In in E. rewrite Forall_forall in Hrows.
    rewrite (Hrows _ E). lia.
Qed.

Lemma file_map_total (c : Z) : in_range8 c = true -> total (file_map c).
Proof.
  intros H. b2p.
  assert (c = 0 \/ c = 1 \/ c = 2 \/ c = 3 \/ c = 4 \/ c = 5 \/ c = 6 \/ c = 7) as K by lia.
  repeat (destruct K as [-> | K]; [apply total_Ok|]). subst. apply total_Ok.
Qed.

Lemma rank_map_total (r : Z) : in_range8 r = true -> total (rank_map r).
Proof.
  intros H. b2p.
  assert (r = 0 \/ r = 1 \/ r = 2 \/ r = 3 \/ r = 4 \/ r = 5 \/ r = 6 \/ r = 7) as K by lia.
  repeat (destruct K as [-> | K]; [apply total_Ok|]). subst. apply total_Ok.
Qed.

Lemma Move_init_total (g : grid) (sr sc er ec : Z) promoted castling :
  grid_8x8 g = true ->
  in_range8 sr = true -> in_range8 sc = true ->
  in_range8 er = true -> in_range8 ec = true ->
  total (Move_init g sr sc er ec promoted castling).
Proof.
  intros Hg H1 H2 H3 H4. unfold Move_init.
  apply total_bind; [now apply at_total|intros pm _].
  apply total_bind; [now apply at_total|intros pc _].
  apply total_bind; [|intros; apply total_Ok].
  unfold coordinates_to_uci. destruct promoted.
  - repeat (apply total_bind; [auto using file_map_total, rank_map_total|intros ? _]).
    apply total_Ok.
  - repeat (apply total_bind; [auto using file_map_total, rank_map_total|intros ? _]).
    apply total_Ok.
Qed.

Section Totality.

Variable g : grid.
Variable ep : option square.
Hypothesis Hg : grid_8x8 g = true.

Ltac tot :=
  repeat match goal with
         | |- total (Ok _) => apply total_Ok
         | |- total (bind _ _) => apply total_bind; [|intros ? ?]
         | |- total (if ?c then _ else _) => destruct c eqn:?
         | |- total (at_ g _ _) => apply at_total; [exact Hg| |]
         | |- total (new_move g _ _ _ _) => apply Move_init_total; [exact Hg| | | |]
         | |- total (Move_init g _ _ _ _ _ _) => apply Move_init_total; [exact Hg| | | |]
         end.

Lemma promotions_total sr sc er ec :
  in_range8 sr = true -> in_range8 sc = true ->
  in_range8 er = true -> in_range8 ec = true ->
  total (promotions g sr sc er ec).
Proof. intros. unfold promotions. tot; assumption. Qed.

Lemma pawn_capture_total row col direction is_w is_b d_col :
  in_range8 row = true -> in_range8 col = true ->
  total (pawn_capture g ep row col direction is_w is_b d_col).
Proof.
  intros Hr Hc. unfold pawn_capture.
  tot; try apply promotions_total; b2p; try lia.
Qed.

Lemma pawn_moves_total row col :
  in_range8 row = true -> in_range8 col = true ->
  total (pawn_moves g ep row col).
Proof.
  intros Hr Hc. unfold pawn_moves.
  apply total_bind; [now apply at_total|intros p _].
  destruct p as [|[] k]; cbn [has_color color_of color_eqb];
    tot; try apply promotions_total; try apply pawn_capture_total;
    b2p; try lia; try discriminate.
Qed.

Lemma slide_total fuel row col dr dc :
  in_range8 row = true -> in_range8 col = true -> is_direction dr dc ->
  forall r c, squares_left dr dc r c <= Z.of_nat fuel ->
              total (slide g fuel row col dr dc r c).
Proof.
  intros Hr Hc Hd. induction fuel as [|fuel IH]; intros r c Hf.
  - simpl. destruct (in_range8 r && in_range8 c) eqn:E; [|apply total_Ok].
    exfalso. unfold squares_left, is_direction in *. b2p.
    repeat match type of Hf with context [if ?x then _ else _] => destruct x eqn:? end;
      b2p; lia.
  - cbn [slide]. tot; b2p; try lia.
    apply IH. unfold squares_left, is_direction in *.
    repeat match goal with |- context [if ?x then _ else _] => destruct x eqn:? end;
      repeat match type of Hf with context [if ?x then _ else _] => destruct x eqn:? end;
      b2p; lia.
Qed.

Lemma slides_total directions row col :
  in_range8 row = true -> in_range8 col = true ->
  Forall (fun d => is_direction (fst d) (snd d)) directions ->
  total (slides g directions row col).
Proof.
  intros Hr Hc. induction 1 as [|[dr dc] t Hd _ IH]; cbn [slides]; [apply total_Ok|].
  apply total_bind; [|intros ms _; apply total_bind; [exact IH|intros; apply total_Ok]].
  apply slide_total; auto. simpl in Hd.
  unfold squares_left, is_direction in *. b2p.
  repeat match goal with |- context [if ?x then _ else _] => destruct x eqn:? end;
    b2p; change (Z.of_nat 8) with 8; lia.
Qed.

Lemma steps_total offsets row col :
  in_range8 row = true -> in_range8 col = true ->
  total (steps g offsets row col).
Proof.
  intros Hr Hc. induction offsets as [|[dr dc] t IH]; cbn [steps]; [apply total_Ok|].
  apply total_bind; [|intros ms _; apply total_bind; [exact IH|intros; apply total_Ok]].
  tot; b2p; try lia; assumption.
Qed.

Lemma directions_ok :
  Forall (fun d => is_direction (fst d) (snd d)) rook_directions
  /\ Forall (fun d => is_direction (fst d) (snd d)) bishop_directions.
Proof. split; repeat constructor; simpl; lia. Qed.

Lemma moveFunctions_total k row col :
  in_range8 row = true -> in_range8 col = true ->
  total (moveFunctions g ep k row col).
Proof.
  intros Hr Hc. destruct directions_ok as [Hrook Hbishop].
  destruct k; cbn [moveFunctions].
  - now apply pawn_moves_total.
  - now apply slides_total.
  - now apply steps_total.
  - now apply slides_total.
  - unfold queen_moves.
    apply total_bind; [now apply slides_total|intros ? _].
    apply total_bind; [now apply slides_total|intros ? _].
    apply total_Ok.
  - now apply steps_total.
Qed.

Lemma scan_cols_total wtm row cols :
  in_range8 row = true -> Forall (fun c => in_range8 c = true) cols ->
  total (scan_cols g ep wtm row cols).
Proof.
  intros Hr. induction 1 as [|col t Hc _ IH]; cbn [scan_cols]; [apply total_Ok|].
  apply total_bind; [|intros ms _; apply total_bind; [exact IH|intros; apply total_Ok]].
  unfold moves_from. apply total_bind; [now apply at_total|intros p _].
  destruct p as [|c k]; [apply total_Ok|].
  destruct (_ || _); [|apply total_Ok]. now apply moveFunctions_total.
Qed.

Lemma scan_rows_total wtm rows :
  Forall (fun r => in_range8 r = true) rows ->
  total (scan_rows g ep wtm rows).
Proof.
  induction 1 as [|row t Hr _ IH]; cbn [scan_rows]; [apply total_Ok|].
  apply total_bind; [|intros ms _; apply total_bind; [exact IH|intros; apply total_Ok]].
  apply scan_cols_total; [exact Hr|]. repeat constructor.
Qed.

End Totality.

Lemma get_psuedo_legal_moves_total (b : Board) :
  grid_8x8 (board_array b) = true -> total (get_psuedo_legal_moves b).
Proof.
  intros Hg. unfold get_psuedo_legal_moves.
  apply scan_rows_total; [exact Hg|]. repeat constructor.
Qed.

(** The bound given to [slide] is never reached from a square of the board:
    a walk along one of the eight directions leaves the board within seven
    steps, whatever the grid. *)
Lemma bind_fuel {A B : Type} (x : res A) (f : A -> res B) :
  x <> Raise OutOfFuel -> (forall a, f a <> Raise OutOfFuel) ->
  bind x f <> Raise OutOfFuel.
Proof.
  destruct x as [a|e]; simpl; intros Hx Hf; [apply Hf|].
  intros K. apply Hx. injection K as ->. reflexivity.
Qed.

Lemma index_fuel {A : Type} (l : list A) (i : Z) : Py.index l i <> Raise OutOfFuel.
Proof.
  unfold Py.index. cbv zeta.
  destruct (_ <? 0); [discriminate|].
  destruct (nth_error _ _); discriminate.
Qed.

Lemma at_fuel (g : grid) (r c : Z) : at_ g r c <> Raise OutOfFuel.
Proof. unfold at_. apply bind_fuel; intros; apply index_fuel. Qed.

Lemma file_map_fuel (c : Z) : file_map c <> Raise OutOfFuel.
Proof.
  unfold file_map.
  repeat match goal with
         | |- context [match ?x with _ => _ end] => destruct x
         end; discriminate.
Qed.

Lemma rank_map_fuel (r : Z) : rank_map r <> Raise OutOfFuel.
Proof.
  unfold rank_map.
  repeat match goal with
         | |- context [match ?x with _ => _ end] => destruct x
         end; discriminate.
Qed.

Lemma Move_init_fuel g sr sc er ec promoted castling :
  Move_init g sr sc er ec promoted castling <> Raise OutOfFuel.
Proof.
  unfold Move_init.
  apply bind_fuel; [apply at_fuel|intros pm].
  apply bind_fuel; [apply at_fuel|intros pc].
  apply bind_fuel; [|discriminate].
  unfold coordinates_to_uci. destruct promoted;
    repeat (apply bind_fuel; [apply file_map_fuel || apply rank_map_fuel|intros ?]);
    discriminate.
Qed.

Lemma slide_fuel_suffices g row col dr dc :
  is_direction dr dc ->
  forall fuel r c, squares_left dr dc r c <= Z.of_nat fuel ->
                   slide g fuel row col dr dc r c <> Raise OutOfFuel.
Proof.
  intros Hd. induction fuel as [|fuel IH]; intros r c Hf.
  - simpl. destruct (in_range8 r && in_range8 c) eqn:E; [|discriminate].
    exfalso. unfold squares_left, is_direction in *. b2p.
    repeat match type of Hf with context [if ?x then _ else _] => destruct x eqn:? end;
      b2p; lia.
  - cbn [slide]. destruct (in_range8 r && in_range8 c) eqn:E; [|discriminate].
    assert (squares_left dr dc (r + dr) (c + dc) <= Z.of_nat fuel) as Hf'.
    { unfold squares_left, is_direction in *.
      repeat match goal with |- context [if ?x then _ else _] => destruct x eqn:? end;
        repeat match type of Hf with context [if ?x then _ else _] => destruct x eqn:? end;
        b2p; lia. }
    specialize (IH _ _ Hf').
    apply bind_fuel; [apply at_fuel|intros target].
    destruct (is_empty target).
    + apply bind_fuel; [apply Move_init_fuel|intros m].
      apply bind_fuel; [exact IH|discriminate].
    + apply bind_fuel; [apply at_fuel|intros own].
      destruct (negb _); [|discriminate].
      apply bind_fuel; [apply Move_init_fuel|discriminate].
Qed.

(** C9. On a board with an 8x8 grid the attack query returns: it runs the
    generators of [get_psuedo_legal_moves] for the other side, which
    terminate and build no move with the castling flag, and answers from
    their moves alone; castling moves come from [get_castling_moves], which
    only appends moves that carry the flag. *)
Theorem attack_query_avoids_castling (b : Board)
    (Hg : grid_8x8 (board_array b) = true) :
  (exists ms, get_psuedo_legal_moves b = Ok ms
              /\ Forall (fun m => is_castling m = false) ms)
  /\ (forall row col,
        exists ms, get_psuedo_legal_moves (flip_turn b) = Ok ms
                   /\ Forall (fun m => is_castling m = false) ms
                   /\ square_under_attack b row col
                      = Ok (existsb (ends_at row col) ms))
  /\ (exists v, in_check b = Ok v)
  /\ (forall row col moves ms,
        get_castling_moves b row col moves = Ok ms ->
        exists extra, ms = (moves ++ extra)%list
                      /\ Forall (fun m => is_castling m = true) extra).
Proof.
  assert (forall row col,
        exists ms, get_psuedo_legal_moves (flip_turn b) = Ok ms
                   /\ Forall (fun m => is_castling m = false) ms
                   /\ square_under_attack b row col
                      = Ok (existsb (ends_at row col) ms)) as Hatt.
  { intros row col.
    destruct (get_psuedo_legal_moves_total (flip_turn b) Hg) as [ms Hms].
    exists ms. split; [exact Hms|]. split.
    - eapply pseudo_legal_not_castling; eauto.
    - unfold square_under_attack. fold (flip_turn b). rewrite Hms. reflexivity. }
  split; [|split; [exact Hatt|split]].
  - destruct (get_psuedo_legal_moves_total b Hg) as [ms Hms].
    exists ms. split; [exact Hms|]. eapply pseudo_legal_not_castling; eauto.
  - unfold in_check. destruct (white_to_move b).
    + destruct (Hatt (fst (white_king_pos b)) (snd (white_king_pos b))) as (ms & _ & _ & H).
      eauto.
    + destruct (Hatt (fst (black_king_pos b)) (snd (black_king_pos b))) as (ms & _ & _ & H).
      eauto.
  - intros row col moves ms. apply get_castling_moves_appends.
Qed.

Lemma attack_query_avoids_castling_witness :
  (exists ms, get_psuedo_legal_moves initial_board = Ok ms
              /\ Forall (fun m => is_castling m = false) ms)
  /\ (exists v, in_check initial_board = Ok v).
Proof.
  pose proof (attack_query_avoids_castling initial_board
                ltac:(vm_compute; reflexivity)) as (H1 & _ & H3 & _).
  split; [exact H1 | exact H3].
Defined.

(** ** Castling *)

Lemma piece_eqb_empty (p q : piece) :
  piece_eqb p q && is_empty q = true -> p = Empty /\ q = Empty.
Proof. destruct p as [|[] []], q as [|[] []]; simpl; intros H; try discriminate; auto. Qed.

(** What [get_castling_moves] does check before it appends a castling move:
    no check, the right of the side to move, the two squares next to the
    king empty, and neither of them attacked. *)
Lemma castling_side_conditions b row col w_side b_side d ms :
  castling_side b row col w_side b_side d = Ok ms ->
  ms <> [] ->
  CR.has_rights (castling_rights b) (if white_to_move b then w_side else b_side) = true
  /\ at_ (board_array b) row (col + d) = Ok Empty
  /\ at_ (board_array b) row (col + 2 * d) = Ok Empty
  /\ square_under_attack b row (col + d) = Ok false
  /\ square_under_attack b row (col + 2 * d) = Ok false
  /\ exists m, ms = [m] /\ is_castling m = true
               /\ (start_row m, start_col m) = (row, col)
               /\ (end_row m, end_col m) = (row, col + 2 * d).
Proof.
  unfold castling_side. intros H Hne.
  destruct (_ || _) eqn:Hr; [|inv_ok; congruence].
  inv_bind H. inv_bind H.
  destruct (piece_eqb x x0 && is_empty x0) eqn:He; [|inv_ok; congruence].
  apply piece_eqb_empty in He as [-> ->].
  inv_bind H. destruct x; simpl in H; [inv_ok; congruence|].
  inv_bind H. destruct x; simpl in H; [inv_ok; congruence|].
  inv_bind H. inv_ok. apply Move_init_fields in E3.
  repeat split; auto.
  - destruct (white_to_move b); simpl in Hr.
    + now rewrite orb_false_r in Hr.
    + exact Hr.
  - destruct E3 as (H1 & H2 & H3 & H4 & _ & _ & H7 & _).
    exists x. rewrite H1, H2, H3, H4. auto.
Qed.

Lemma get_castling_moves_conditions b row col moves ms :
  get_castling_moves b row col moves = Ok ms ->
  ms = moves
  \/ (in_check b = Ok false
      /\ exists ks qs,
           castling_side b row col "K" "k" 1 = Ok ks
           /\ castling_side b row col "Q" "q" (-1) = Ok qs
           /\ ms = (moves ++ ks ++ qs)%list).
Proof.
  unfold get_castling_moves. intros H. inv_bind H. destruct x.
  - inv_ok. now left.
  - inv_bind H. inv_bind H. inv_ok. right. eauto 6.
Qed.

(** C5. With a white knight on b1, between the king on e1 and the rook on
    a1, [get_castling_moves] still appends the queen-side castling move, the
    move is among the legal moves, and making it takes the rook from a1 to
    d1 over the knight.  With a black pawn on e2, which attacks the square f1
    that the king crosses, the king-side castling move is appended and
    accepted as well. *)
Theorem castling_past_occupied_b1 :
  Board_init knight_on_b1_fen = Ok knight_on_b1
  /\ at_ (board_array knight_on_b1) 7 1 = Ok (Piece White Knight)
  /\ (ms <- get_castling_moves knight_on_b1 7 4 [] ;;
      Ok (map (fun m => (uci m, is_castling m)) ms))
     = Ok [("e1g1", true); ("e1c1", true)]
  /\ (b <- submit knight_on_b1 7 4 7 2 None ;; board_to_fen b)
     = Ok "r3k2r/8/8/8/8/8/8/1NKR3R b kq - 0 1"
  /\ Board_init pawn_on_e2_fen = Ok pawn_on_e2
  /\ at_ (board_array pawn_on_e2) 6 4 = Ok (Piece Black Pawn)
  /\ square_under_attack pawn_on_e2 7 5 = Ok false
  /\ (ms <- get_castling_moves pawn_on_e2 7 4 [] ;;
      Ok (map (fun m => (uci m, is_castling m)) ms))
     = Ok [("e1g1", true)]
  /\ (b <- submit pawn_on_e2 7 4 7 6 None ;; board_to_fen b)
     = Ok "4k3/8/8/8/8/8/4p3/5RK1 b - - 0 1".
Proof. vm_compute. repeat split. Qed.

(** ** Decoding a FEN *)






Lemma index_nat {A : Type} (l : list A) (i : nat) :
  Py.index l (Z.of_nat i)
  = match nth_error l i with Some x => Ok x | None => Raise IndexError end.
Proof.
  assert ((Z.of_nat i <? 0) = false) as E0 by (apply Z.ltb_ge; lia).
  unfold Py.index. cbv zeta. rewrite !E0. now rewrite Nat2Z.id.
Qed.








Lemma bind_Raise {A B : Type} (x : res A) (f : A -> res B) (e : exn) :
  bind x f = Raise e -> x = Raise e \/ exists a, x = Ok a /\ f a = Raise e.
Proof.
  destruct x as [a|e']; simpl; intros H; [right; eauto|].
  left. injection H as ->. reflexivity.
Qed.










(** ** Encoding, then decoding *)

(** *** Splitting a joined text *)

Lemma split_ws_aux_field (f rest cur : string) :
  ws_free f = true ->
  Py.split_ws_aux (f ++ rest) cur = Py.split_ws_aux rest (cur ++ f).
Proof.
  revert cur. induction f as [|c f IH]; intros cur H; simpl.
  - now rewrite append_nil_r.
  - cbn [ws_free string_forallb] in H. apply andb_true_iff in H as [Hc Hf].
    apply negb_true_iff in Hc. rewrite Hc. fold (ws_free f) in Hf.
    rewrite IH by exact Hf. rewrite append_assoc. reflexivity.
Qed.

Lemma split_ws_cons (f rest : string) :
  ws_free f = true -> f <> "" ->
  Py.split_ws_aux (f ++ String " " rest) "" = f :: Py.split_ws_aux rest "".
Proof.
  intros Hf Hne. rewrite split_ws_aux_field by exact Hf. cbn [String.append].
  cbn [Py.split_ws_aux]. change (Py.isspace " ") with true. cbv iota.
  destruct f; [congruence|reflexivity].
Qed.

Lemma split_ws_last (f : string) :
  ws_free f = true -> f <> "" -> Py.split_ws_aux f "" = [f].
Proof.
  intros Hf Hne. rewrite <- (append_nil_r f) at 1.
  rewrite split_ws_aux_field by exact Hf. cbn [String.append Py.split_ws_aux].
  destruct f; [congruence|reflexivity].
Qed.

Lemma split_on_aux_field (sep : ascii) (f rest cur : string) :
  sep_free sep f = true ->
  Py.split_on_aux sep (f ++ rest) cur = Py.split_on_aux sep rest (cur ++ f).
Proof.
  revert cur. induction f as [|c f IH]; intros cur H; simpl.
  - now rewrite append_nil_r.
  - cbn [sep_free string_forallb] in H. apply andb_true_iff in H as [Hc Hf].
    apply negb_true_iff in Hc. rewrite Hc. fold (sep_free sep f) in Hf.
    rewrite IH by exact Hf. rewrite append_assoc. reflexivity.
Qed.

Lemma split_on_join (sep : ascii) (l : list string) :
  l <> [] -> forallb (sep_free sep) l = true ->
  Py.split_on sep (Py.join (String sep "") l) = l.
Proof.
  unfold Py.split_on, Py.join. intros Hne.
  induction l as [|x t IH]; [congruence|]. intros H.
  cbn [forallb] in H. apply andb_true_iff in H as [Hx Ht].
  destruct t as [|y t'].
  - cbn [String.concat]. rewrite <- (append_nil_r x) at 1.
    rewrite split_on_aux_field by exact Hx. reflexivity.
  - cbn [String.concat]. rewrite split_on_aux_field by exact Hx.
    cbn [String.append Py.split_on_aux]. rewrite Ascii.eqb_refl.
    f_equal. apply IH; [discriminate|exact Ht].
Qed.

(** *** One rank *)

Lemma small_count_cases (k : Z) :
  0 < k <= 9 ->
  k = 1 \/ k = 2 \/ k = 3 \/ k = 4 \/ k = 5 \/ k = 6 \/ k = 7 \/ k = 8 \/ k = 9.
Proof. lia. Qed.

(** A run of one to nine empty squares is written as one digit, which reads
    back as the run. *)
Lemma fen_row_run (k : Z) (rest : string) :
  0 < k <= 9 ->
  fen_row (Py.str_int k ++ rest)
  = (r <- fen_row rest ;; Ok (repeat Empty (Z.to_nat k) ++ r)%list).
Proof.
  intros H. apply small_count_cases in H.
  repeat (destruct H as [-> | H]; [reflexivity|]). subst. reflexivity.
Qed.

Lemma fen_symbols_get_piece (c : color) (k : kind) :
  fen_symbols_get (piece_to_fen c k) = Piece c k
  /\ Py.isdigit (piece_to_fen c k) = false.
Proof. destruct c, k; split; reflexivity. Qed.

Lemma repeat_snoc_cons {A : Type} (x : A) (n : nat) (l : list A) :
  (repeat x (S n) ++ l = repeat x n ++ x :: l)%list.
Proof.
  induction n as [|n IH]; [reflexivity|].
  change (repeat x (S (S n))) with (x :: repeat x (S n)).
  change (repeat x (S n)) with (x :: repeat x n) at 2.
  simpl app in *. now rewrite IH.
Qed.

Lemma fen_row_of_row (row : list piece) :
  forall k, 0 <= k -> k + Z.of_nat (List.length row) <= 9 ->
  fen_row (fen_of_row row k) = Ok (repeat Empty (Z.to_nat k) ++ row)%list.
Proof.
  induction row as [|p t IH]; intros k Hk Hlen; cbn [fen_of_row].
  - simpl in Hlen. destruct (0 <? k) eqn:E.
    + apply Z.ltb_lt in E. rewrite <- (append_nil_r (Py.str_int k)).
      rewrite fen_row_run by lia. reflexivity.
    + apply Z.ltb_ge in E. replace k with 0 by lia. reflexivity.
  - cbn [List.length] in Hlen. destruct p as [|c kd].
    + rewrite IH by lia. f_equal.
      replace (Z.to_nat (k + 1)) with (S (Z.to_nat k)) by lia.
      apply repeat_snoc_cons.
    + destruct (fen_symbols_get_piece c kd) as [Hs Hd].
      assert (fen_row (String (piece_to_fen c kd) (fen_of_row t 0))
              = Ok (Piece c kd :: t)) as Hrest.
      { cbn [fen_row]. rewrite Hd, IH by lia. simpl. now rewrite Hs. }
      destruct (0 <? k) eqn:E.
      * apply Z.ltb_lt in E. rewrite fen_row_run by lia. now rewrite Hrest.
      * apply Z.ltb_ge in E. replace k with 0 by lia. exact Hrest.
Qed.

Lemma rank_char_plain (c : ascii) :
  rank_char c = true ->
  Py.isspace c = false /\ Ascii.eqb c "/" = false.
Proof.
  destruct c as [[|] [|] [|] [|] [|] [|] [|] [|]]; vm_compute; intros H;
    try discriminate H; auto.
Qed.

Lemma string_forallb_append (f : ascii -> bool) (a b : string) :
  string_forallb f (a ++ b) = string_forallb f a && string_forallb f b.
Proof.
  induction a as [|c a IH]; simpl; [reflexivity|].
  now rewrite IH, andb_assoc.
Qed.

Lemma string_forallb_impl (f h : ascii -> bool) (s : string) :
  (forall c, f c = true -> h c = true) ->
  string_forallb f s = true -> string_forallb h s = true.
Proof.
  intros Hfh. induction s as [|c s IH]; simpl; [reflexivity|].
  intros H. apply andb_true_iff in H as [Hc Hs]. rewrite Hfh, IH; auto.
Qed.

Lemma count_text_chars (k : Z) :
  0 <= k <= 9 ->
  string_forallb rank_char (if 0 <? k then Py.str_int k else "") = true.
Proof.
  intros H.
  assert (k = 0 \/ 0 < k <= 9) as [-> | K] by lia; [reflexivity|].
  apply small_count_cases in K.
  repeat (destruct K as [-> | K]; [reflexivity|]). subst. reflexivity.
Qed.

Lemma fen_of_row_chars (row : list piece) :
  forall k, 0 <= k -> k + Z.of_nat (List.length row) <= 9 ->
  string_forallb rank_char (fen_of_row row k) = true.
Proof.
  induction row as [|p t IH]; intros k Hk Hlen; cbn [fen_of_row].
  - simpl in Hlen. apply count_text_chars. lia.
  - cbn [List.length] in Hlen. destruct p as [|c kd].
    + apply IH; lia.
    + unfold String.append at 1. rewrite string_forallb_append.
      rewrite count_text_chars by lia. cbn [string_forallb andb].
      rewrite IH by lia. destruct c, kd; reflexivity.
Qed.

Lemma fen_of_row_nonempty (row : list piece) (k : Z) :
  row <> [] -> 0 <= k -> fen_of_row row k <> "".
Proof.
  revert k. induction row as [|p t IH]; intros k Hne Hk; [congruence|].
  cbn [fen_of_row]. destruct p as [|c kd].
  - destruct t as [|q t'].
    + cbn [fen_of_row]. replace (0 <? k + 1) with true by (symmetry; apply Z.ltb_lt; lia).
      unfold Py.str_int. destruct (k + 1) eqn:E; try lia.
      simpl. unfold NilZero.string_of_uint.
      pose proof (DecimalPos.Unsigned.to_uint_nonnil p) as Hp.
      destruct (Pos.to_uint p); try congruence; discriminate.
    + apply IH; [discriminate|lia].
  - destruct (if 0 <? k then Py.str_int k else ""); discriminate.
Qed.

(** *** The other fields *)

Lemma str_int_ws_free (n : Z) : ws_free (Py.str_int n) = true /\ Py.str_int n <> "".
Proof.
  assert (forall d, ws_free (NilEmpty.string_of_uint d) = true) as K.
  { intros d. apply (string_forallb_impl Py.is_ascii_digit); [|apply uint_text_digits].
    intros c Hc. apply digit_char_cases in Hc. simpl in Hc.
    repeat (destruct Hc as [<- | Hc]; [reflexivity|]). contradiction. }
  assert (forall p, ws_free (NilZero.string_of_uint (Pos.to_uint p)) = true
                    /\ NilZero.string_of_uint (Pos.to_uint p) <> "") as P.
  { intros p. unfold NilZero.string_of_uint.
    pose proof (DecimalPos.Unsigned.to_uint_nonnil p) as Hp.
    destruct (Pos.to_uint p) eqn:E; try congruence;
      (split; [apply K | simpl; discriminate]). }
  unfold Py.str_int. destruct n as [|p|p]; simpl.
  - split; [reflexivity|discriminate].
  - apply P.
  - split; [|discriminate]. cbn [ws_free string_forallb]. apply P.
Qed.

Lemma en_passant_round_trip (ep : option square) :
  match ep with Some s => on_board s | None => true end = true ->
  exists t, en_passant_text ep = Ok t
            /\ ws_free t = true /\ t <> ""
            /\ fen_en_passant t = Ok ep.
Proof.
  destruct ep as [[r c]|]; [|intros _; exists "-"; repeat split; discriminate].
  unfold on_board. cbn [fst snd]. intros H. b2p.
  assert (r = 0 \/ r = 1 \/ r = 2 \/ r = 3 \/ r = 4 \/ r = 5 \/ r = 6 \/ r = 7) as Kr by lia.
  assert (c = 0 \/ c = 1 \/ c = 2 \/ c = 3 \/ c = 4 \/ c = 5 \/ c = 6 \/ c = 7) as Kc by lia.
  clear - Kr Kc.
  repeat (destruct Kr as [-> | Kr]);
    repeat (destruct Kc as [-> | Kc]); subst;
    (eexists; split; [reflexivity|]; repeat split; discriminate).
Qed.



Lemma placement_round_trip (g : grid) :
  grid_8x8 g = true ->
  let rows := map (fun row => fen_of_row row 0) g in
  fen_rows (Py.split_on "/" (Py.join "/" rows)) = Ok g
  /\ ws_free (Py.join "/" rows) = true
  /\ Py.join "/" rows <> "".
Proof.
  intros Hg rows. apply grid_8x8_rows in Hg as [Hlen Hrows].
  assert (forall row, In row g ->
            fen_row (fen_of_row row 0) = Ok row
            /\ string_forallb rank_char (fen_of_row row 0) = true
            /\ fen_of_row row 0 <> "") as Hrow.
  { intros row Hin. rewrite Forall_forall in Hrows. specialize (Hrows _ Hin).
    split; [|split].
    - rewrite fen_row_of_row by lia. reflexivity.
    - apply fen_of_row_chars; lia.
    - apply fen_of_row_nonempty; [|lia]. intros ->. discriminate Hrows. }
  assert (forallb (sep_free "/") rows = true) as Hsep.
  { apply forallb_forall. intros s Hs. apply in_map_iff in Hs as (row & <- & Hin).
    apply (string_forallb_impl rank_char); [|apply Hrow, Hin].
    intros c Hc. apply rank_char_plain in Hc as [_ ->]. reflexivity. }
  assert (rows <> []) as Hne.
  { subst rows. destruct g; [discriminate Hlen|discriminate]. }
  split; [|split].
  - rewrite split_on_join by assumption.
    subst rows. clear - Hrow. induction g as [|row t IH]; [reflexivity|].
    cbn [map fen_rows]. destruct (Hrow row (or_introl eq_refl)) as [-> _].
    cbn [bind]. rewrite IH; [reflexivity|]. intros r Hr. apply Hrow. now right.
  - assert (Forall (fun s => ws_free s = true) rows) as Hws.
    { apply Forall_forall. intros s Hs. subst rows.
      apply in_map_iff in Hs as (row & <- & Hin).
      apply (string_forallb_impl rank_char); [|apply Hrow, Hin].
      intros c Hc. apply rank_char_plain in Hc as [-> _]. reflexivity. }
    clear - Hws. unfold Py.join. induction Hws as [|x t Hx _ IH]; [reflexivity|].
    cbn [String.concat]. destruct t as [|y t']; [exact Hx|].
    unfold ws_free in *. rewrite string_forallb_append, Hx.
    cbn [String.append string_forallb andb].
    change (negb (Py.isspace "/")) with true. exact IH.
  - destruct g as [|row t]; [discriminate Hlen|].
    subst rows. unfold Py.join. cbn [map String.concat].
    destruct (Hrow row (or_introl eq_refl)) as (_ & _ & Hn).
    destruct (map _ t); [exact Hn|].
    destruct (fen_of_row row 0); [congruence|discriminate].
Qed.



(** The rights text stays in the order KQkq under every update. *)
Lemma canonical_update (cr : Castling_Rights) (move : Move) :
  canonical_rights cr = true -> canonical_rights (CR.update cr move) = true.
Proof.
  unfold canonical_rights, CR.has_rights. destruct cr as [s lg].
  cbn [castling_rights_string]. intros H.
  assert (In s ["-"; rights_listing false false false false;
                rights_listing false false false true; rights_listing false false true false;
                rights_listing false false true true; rights_listing false true false false;
                rights_listing false true false true; rights_listing false true true false;
                rights_listing false true true true; rights_listing true false false false;
                rights_listing true false false true; rights_listing true false true false;
                rights_listing true false true true; rights_listing true true false false;
                rights_listing true true false true; rights_listing true true true false;
                rights_listing true true true true]) as Hs.
  { apply orb_true_iff in H as [H | H]; apply String.eqb_eq in H.
    - left. now symmetry.
    - right. rewrite H.
      destruct (Py.contains "K" s), (Py.contains "Q" s),
               (Py.contains "k" s), (Py.contains "q" s); simpl; tauto. }
  clear H. unfold CR.update.
  destruct (piece_moved move) as [|[] []];
    repeat match goal with |- context [if ?c then _ else _] => destruct c end;
    cbn [CR.remove_rights fold_left castling_rights_string castling_rights_log];
    simpl in Hs;
    repeat (destruct Hs as [<- | Hs]; [reflexivity|]); contradiction.
Qed.

(** ** Perft from the initial position *)


(** * Further properties of the code *)

(** [bind_as H a Ha]: from [H : (a <- x ;; f a) = Ok b], the value [a] with
    [Ha : x = Ok a], and [H : f a = Ok b]. *)
Tactic Notation "bind_as" hyp(H) ident(a) ident(Ha) :=
  apply bind_Ok in H; destruct H as (a & Ha & H).

(** ** Moves and their notation *)

Lemma file_map_cases (c : Z) (a : ascii) :
  file_map c = Ok a ->
  In (c, a) [(0, "a"); (1, "b"); (2, "c"); (3, "d");
             (4, "e"); (5, "f"); (6, "g"); (7, "h")]%char.
Proof.
  unfold file_map. intros H.
  repeat match type of H with
         | match ?x with _ => _ end = _ => destruct x
         end; try discriminate H; inv_ok; simpl; tauto.
Qed.

Lemma rank_map_cases (r : Z) (a : ascii) :
  rank_map r = Ok a ->
  In (r, a) [(7, "1"); (6, "2"); (5, "3"); (4, "4");
             (3, "5"); (2, "6"); (1, "7"); (0, "8")]%char.
Proof.
  unfold rank_map. intros H.
  repeat match type of H with
         | match ?x with _ => _ end = _ => destruct x
         end; try discriminate H; inv_ok; simpl; tauto.
Qed.

Ltac map_cases H :=
  simpl in H;
  repeat (destruct H as [H | H]; [inversion H; subst; clear H|]);
  try contradiction.

Lemma file_map_inj (c c' : Z) (a : ascii) :
  file_map c = Ok a -> file_map c' = Ok a -> c = c'.
Proof.
  intros H H'. apply file_map_cases in H, H'.
  map_cases H; map_cases H'; try reflexivity; discriminate.
Qed.

Lemma rank_map_inj (r r' : Z) (a : ascii) :
  rank_map r = Ok a -> rank_map r' = Ok a -> r = r'.
Proof.
  intros H H'. apply rank_map_cases in H, H'.
  map_cases H; map_cases H'; try reflexivity; discriminate.
Qed.

Lemma file_map_range (c : Z) (a : ascii) : file_map c = Ok a -> in_range8 c = true.
Proof. intros H. apply file_map_cases in H. map_cases H; reflexivity. Qed.

Lemma rank_map_range (r : Z) (a : ascii) : rank_map r = Ok a -> in_range8 r = true.
Proof. intros H. apply rank_map_cases in H. map_cases H; reflexivity. Qed.

Lemma file_map_raises (c : Z) (e : exn) : file_map c = Raise e -> e = KeyError.
Proof.
  unfold file_map. intros H.
  repeat match type of H with
         | match ?x with _ => _ end = _ => destruct x
         end; try discriminate H; congruence.
Qed.

Lemma rank_map_raises (r : Z) (e : exn) : rank_map r = Raise e -> e = KeyError.
Proof.
  unfold rank_map. intros H.
  repeat match type of H with
         | match ?x with _ => _ end = _ => destruct x
         end; try discriminate H; congruence.
Qed.

Lemma kind_char_inj (k k' : kind) : kind_char k = kind_char k' -> k = k'.
Proof. destruct k, k'; simpl; intros H; try reflexivity; discriminate H. Qed.

(** The notation of a move names its squares. *)
Lemma uci_plain sr sc er ec u :
  coordinates_to_uci sr sc er ec None = Ok u ->
  exists f1 r1 f2 r2,
    file_map sc = Ok f1 /\ rank_map sr = Ok r1
    /\ file_map ec = Ok f2 /\ rank_map er = Ok r2
    /\ u = String f1 (String r1 (String f2 (String r2 ""))).
Proof.
  unfold coordinates_to_uci. intros H.
  inv_bind H. inv_bind H. inv_bind H. inv_bind H. inv_ok.
  eauto 10.
Qed.

Lemma uci_promotion sr sc er ec k u :
  coordinates_to_uci sr sc er ec (Some k) = Ok u ->
  exists f1 f2 r2,
    file_map sc = Ok f1 /\ file_map ec = Ok f2 /\ rank_map er = Ok r2
    /\ u = String f1 (String f2 (String r2 (String "=" (String (kind_char k) "")))).
Proof.
  unfold coordinates_to_uci. intros H.
  inv_bind H. inv_bind H. inv_bind H. inv_ok.
  eauto 10.
Qed.

(** X1. [Move.__eq__] compares the notations.  Two moves built without a
    promotion piece are equal exactly when they have the same start and end
    squares; two promotion moves are equal exactly when they agree on the
    start file, the end square and the piece chosen, the start rank not
    being part of their notation; a promotion move never equals a move
    without promotion.  The boards the moves were built on, the pieces moved
    and captured and the castling flag play no part. *)
Theorem Move_eq_compares_squares (g g' : grid) (sr sc er ec sr' sc' er' ec' : Z)
    (promoted promoted' : option kind) (castling castling' : bool) (m m' : Move)
    (Hm : Move_init g sr sc er ec promoted castling = Ok m)
    (Hm' : Move_init g' sr' sc' er' ec' promoted' castling' = Ok m') :
  Move_eq m m' = true <->
  match promoted, promoted' with
  | None, None => sr = sr' /\ sc = sc' /\ er = er' /\ ec = ec'
  | Some k, Some k' => sc = sc' /\ er = er' /\ ec = ec' /\ k = k'
  | _, _ => False
  end.
Proof.
  apply Move_init_fields in Hm as (_ & _ & _ & _ & _ & _ & _ & _ & Hu).
  apply Move_init_fields in Hm' as (_ & _ & _ & _ & _ & _ & _ & _ & Hu').
  unfold Move_eq. rewrite String.eqb_eq.
  destruct promoted as [k|], promoted' as [k'|].
  - apply uci_promotion in Hu as (f1 & f2 & r2 & H1 & H2 & H3 & ->).
    apply uci_promotion in Hu' as (f1' & f2' & r2' & H1' & H2' & H3' & ->).
    split.
    + intros H. injection H as -> -> -> Hk.
      repeat split; eauto using file_map_inj, rank_map_inj, kind_char_inj.
    + intros (-> & -> & -> & ->). congruence.
  - apply uci_promotion in Hu as (f1 & f2 & r2 & H1 & H2 & H3 & ->).
    apply uci_plain in Hu' as (f1' & r1' & f2' & r2' & H1' & H2' & H3' & H4' & ->).
    split; [|contradiction]. intros H. injection H as _ _ _ _ H. discriminate H.
  - apply uci_plain in Hu as (f1 & r1 & f2 & r2 & H1 & H2 & H3 & H4 & ->).
    apply uci_promotion in Hu' as (f1' & f2' & r2' & H1' & H2' & H3' & ->).
    split; [|contradiction]. intros H. injection H as _ _ _ _ H. discriminate H.
  - apply uci_plain in Hu as (f1 & r1 & f2 & r2 & H1 & H2 & H3 & H4 & ->).
    apply uci_plain in Hu' as (f1' & r1' & f2' & r2' & H1' & H2' & H3' & H4' & ->).
    split.
    + intros H. injection H as -> -> -> ->.
      repeat split; eauto using file_map_inj, rank_map_inj.
    + intros (-> & -> & -> & ->). congruence.
Qed.

(** The king's castling move built by the engine and the move the GUI builds
    from two clicks on e1 and g1: different flags, equal moves. *)
Lemma Move_eq_compares_squares_witness :
  (m <- Move_init (board_array initial_board) 7 4 7 6 None true ;;
   m' <- Move_init (board_array knight_on_b1) 7 4 7 6 None false ;;
   Ok (Move_eq m m', piece_captured m, piece_captured m', is_castling m, is_castling m'))
  = Ok (true, Piece White Knight, Empty, true, false).
Proof.
  destruct (Move_init (board_array initial_board) 7 4 7 6 None true) as [m|] eqn:Hm;
    [|discriminate Hm].
  destruct (Move_init (board_array knight_on_b1) 7 4 7 6 None false) as [m'|] eqn:Hm';
    [|discriminate Hm'].
  cbn [bind].
  rewrite (proj2 (Move_eq_compares_squares _ _ _ _ _ _ _ _ _ _ _ _ _ _ _ _ Hm Hm'))
    by (repeat split).
  vm_compute in Hm, Hm'. inv_ok. reflexivity.
Defined.

Lemma index_IndexError {A : Type} (l : list A) (i : Z) (e : exn) :
  Py.index l i = Raise e -> e = IndexError.
Proof.
  unfold Py.index. cbv zeta. destruct (_ <? 0); [intros [= <-]; reflexivity|].
  destruct (nth_error _ _); [discriminate|intros [= <-]; reflexivity].
Qed.

Lemma at_IndexError (g : grid) (r c : Z) (e : exn) :
  at_ g r c = Raise e -> e = IndexError.
Proof.
  unfold at_. intros H.
  apply bind_Raise in H as [H | (row & _ & H)]; eauto using index_IndexError.
Qed.

Lemma uci_KeyError sr sc er ec promoted (e : exn) :
  coordinates_to_uci sr sc er ec promoted = Raise e -> e = KeyError.
Proof.
  unfold coordinates_to_uci. destruct promoted; intros H;
    repeat (apply bind_Raise in H as [H | (? & _ & H)];
            [eauto using file_map_raises, rank_map_raises|]);
    discriminate H.
Qed.

(** A negative index that is at least minus the length counts from the end. *)
Lemma index_wrap {A : Type} (l : list A) (i : Z) :
  - Z.of_nat (List.length l) <= i < 0 ->
  Py.index l i = Py.index l (i + Z.of_nat (List.length l)).
Proof.
  intros H. unfold Py.index. cbv zeta.
  assert ((i <? 0) = true) as E by (apply Z.ltb_lt; lia).
  assert ((i + Z.of_nat (List.length l) <? 0) = false) as E' by (apply Z.ltb_ge; lia).
  rewrite E. cbv iota. rewrite !E'. reflexivity.
Qed.

Lemma at_wrap_total (g : grid) (r c : Z) :
  grid_8x8 g = true -> -8 <= r < 8 -> -8 <= c < 8 -> total (at_ g r c).
Proof.
  intros Hg Hr Hc. pose proof (grid_8x8_rows g Hg) as [Hl Hrows].
  assert (forall (A : Type) (l : list A) i,
             List.length l = 8%nat -> -8 <= i < 8 ->
             exists j, 0 <= j < 8 /\ Py.index l i = Py.index l j) as W.
  { intros A l i Hlen Hi. destruct (Z.ltb_spec i 0).
    - exists (i + 8). split; [lia|]. rewrite index_wrap by (rewrite Hlen; lia).
      now rewrite Hlen.
    - exists i. split; [lia|reflexivity]. }
  unfold at_. destruct (W _ g r Hl Hr) as (j & Hj & ->).
  destruct (index_total g j) as [row Hrow]; [lia|]. rewrite Hrow. cbn [bind].
  assert (List.length row = 8%nat) as Hlen.
  { rewrite Forall_forall in Hrows. apply Hrows.
    replace j with (Z.of_nat (Z.to_nat j)) in Hrow by lia.
    rewrite index_nat in Hrow.
    destruct (nth_error g (Z.to_nat j)) eqn:E; inv_ok. eauto using nth_error_In. }
  destruct (W _ row c Hlen Hc) as (k & Hk & ->).
  apply index_total. lia.
Qed.

(** X2. On an 8x8 board, building a move without promotion succeeds exactly
    when its four coordinates are on the board.  When it fails, the
    exception is an IndexError of the board lookup or a KeyError of the
    notation maps; a coordinate between -8 and -1 passes the board lookup,
    which counts it from the end, and fails with the KeyError. *)
Theorem Move_init_needs_board_squares (g : grid) (sr sc er ec : Z) (castling : bool)
    (Hg : grid_8x8 g = true) :
  (is_ok (Move_init g sr sc er ec None castling) = true
   <-> in_range8 sr && in_range8 sc && in_range8 er && in_range8 ec = true)
  /\ (forall e, Move_init g sr sc er ec None castling = Raise e ->
                e = IndexError \/ e = KeyError)
  /\ (-8 <= sr < 8 -> -8 <= sc < 8 -> -8 <= er < 8 -> -8 <= ec < 8 ->
      in_range8 sr && in_range8 sc && in_range8 er && in_range8 ec = false ->
      Move_init g sr sc er ec None castling = Raise KeyError).
Proof.
  assert (forall m, Move_init g sr sc er ec None castling = Ok m ->
                    in_range8 sr && in_range8 sc && in_range8 er && in_range8 ec = true) as Hok.
  { intros m H. apply Move_init_fields in H as (_ & _ & _ & _ & _ & _ & _ & _ & Hu).
    apply uci_plain in Hu as (f1 & r1 & f2 & r2 & H1 & H2 & H3 & H4 & _).
    rewrite (file_map_range _ _ H1), (rank_map_range _ _ H2),
            (file_map_range _ _ H3), (rank_map_range _ _ H4). reflexivity. }
  assert (forall e, Move_init g sr sc er ec None castling = Raise e ->
                    e = IndexError \/ e = KeyError) as Hexn.
  { intros e H. unfold Move_init in H.
    apply bind_Raise in H as [H | (pm & _ & H)]; [left; eauto using at_IndexError|].
    apply bind_Raise in H as [H | (pc & _ & H)]; [left; eauto using at_IndexError|].
    apply bind_Raise in H as [H | (u & _ & H)]; [right; eauto using uci_KeyError|].
    discriminate H. }
  split; [|split; [exact Hexn|]].
  - split.
    + destruct (Move_init g sr sc er ec None castling) as [m|e] eqn:E; [|discriminate].
      intros _. eauto.
    + intros H. do 3 (apply andb_true_iff in H as [H ?]).
      destruct (Move_init_total g sr sc er ec None castling) as [m ->]; auto.
  - intros Hsr Hsc Her Hec Hout.
    destruct (Move_init g sr sc er ec None castling) as [m|e] eqn:E.
    + rewrite (Hok m eq_refl) in Hout. discriminate Hout.
    + f_equal. unfold Move_init in E.
      destruct (at_wrap_total g sr sc Hg Hsr Hsc) as [pm Hpm].
      destruct (at_wrap_total g er ec Hg Her Hec) as [pc Hpc].
      rewrite Hpm, Hpc in E. cbn [bind] in E.
      apply bind_Raise in E as [E | (u & _ & E)]; [eauto using uci_KeyError|].
      discriminate E.
Qed.

Lemma Move_init_needs_board_squares_witness :
  is_ok (Move_init (board_array initial_board) 6 4 4 4 None false) = true
  /\ Move_init (board_array initial_board) 6 4 (-1) 4 None false = Raise KeyError
  /\ Move_init (board_array initial_board) 6 4 8 4 None false = Raise IndexError.
Proof.
  pose proof (Move_init_needs_board_squares (board_array initial_board) 6 4 4 4 false
                ltac:(vm_compute; reflexivity)) as (H1 & _ & _).
  pose proof (Move_init_needs_board_squares (board_array initial_board) 6 4 (-1) 4 false
                ltac:(vm_compute; reflexivity)) as (_ & _ & H3).
  split; [apply H1; reflexivity|].
  split; [apply H3; try lia; reflexivity|].
  reflexivity.
Defined.

(** ** The SAN text *)

(** X3. The SAN text of a move of a piece other than a pawn, built on a
    board and not castling: the kind letter, an 'x' when the end square was
    occupied, the name of the end square, and a '+' when the move is marked
    as a check.  The start square is not part of it: two pieces of the same
    kind that can go to the same square give the same text. *)
Theorem san_of_piece_move (g : grid) (sr sc er ec : Z) (m : Move) (chk : bool)
    (Hm : Move_init g sr sc er ec None false = Ok m)
    (Hp : is_pawn (piece_moved m) = false) :
  (exists dest,
     square_name er ec = Ok dest
     /\ get_san (set_is_check m chk)
        = Ok (String (second_char (piece_moved m))
                ((if is_empty (piece_captured m) then "" else "x")
                 ++ dest ++ (if chk then "+" else ""))%string))
  /\ (forall sr' sc' m',
        Move_init g sr' sc' er ec None false = Ok m' ->
        kind_of (piece_moved m') = kind_of (piece_moved m) ->
        get_san (set_is_check m' chk) = get_san (set_is_check m chk)).
Proof.
  assert (forall sr0 sc0 m0,
            Move_init g sr0 sc0 er ec None false = Ok m0 ->
            is_pawn (piece_moved m0) = false ->
            exists dest,
              square_name er ec = Ok dest
              /\ get_san (set_is_check m0 chk)
                 = Ok (String (second_char (piece_moved m0))
                         ((if is_empty (piece_captured m0) then "" else "x")
                          ++ dest ++ (if chk then "+" else ""))%string)) as K.
  { intros sr0 sc0 m0 H0 Hp0.
    apply Move_init_fields in H0 as (_ & _ & _ & _ & _ & _ & Hc & Hpr & Hu).
    apply uci_plain in Hu as (f1 & r1 & f2 & r2 & H1 & H2 & H3 & H4 & Hu).
    exists (String f2 (String r2 "")). unfold square_name. rewrite H3, H4.
    split; [reflexivity|].
    unfold get_san, set_is_check.
    cbn [piece_moved piece_captured is_castling is_check uci start_col end_col promoted_piece].
    rewrite Hp0, Hc, Hu. cbn [text_from].
    destruct (is_empty (piece_captured m0)), chk; reflexivity. }
  split; [eauto|].
  intros sr' sc' m' Hm' Hk.
  assert (is_pawn (piece_moved m') = false) as Hp'.
  { unfold is_pawn in *. now rewrite Hk. }
  destruct (K _ _ _ Hm Hp) as (dest & Hd & ->).
  destruct (K _ _ _ Hm' Hp') as (dest' & Hd' & ->).
  assert (piece_captured m' = piece_captured m) as ->.
  { apply Move_init_fields in Hm as (_ & _ & _ & _ & _ & Hc & _).
    apply Move_init_fields in Hm' as (_ & _ & _ & _ & _ & Hc' & _). congruence. }
  assert (second_char (piece_moved m') = second_char (piece_moved m)) as ->.
  { unfold kind_of, second_char in *.
    destruct (piece_moved m'), (piece_moved m); congruence. }
  congruence.
Qed.

Lemma san_of_piece_move_witness :
  (m <- Move_init (board_array two_knights) 7 1 6 3 None false ;;
   m' <- Move_init (board_array two_knights) 7 5 6 3 None false ;;
   s <- get_san (set_is_check m false) ;;
   s' <- get_san (set_is_check m' false) ;;
   Ok (uci m, uci m', s, s'))
  = Ok ("b1d2", "f1d2", "Nd2", "Nd2").
Proof.
  destruct (Move_init (board_array two_knights) 7 1 6 3 None false) as [m|] eqn:Hm;
    [|discriminate Hm].
  destruct (Move_init (board_array two_knights) 7 5 6 3 None false) as [m'|] eqn:Hm';
    [|discriminate Hm'].
  cbn [bind].
  assert (is_pawn (piece_moved m) = false) as Hp
      by (vm_compute in Hm; inv_ok; reflexivity).
  destruct (san_of_piece_move _ _ _ _ _ m false Hm Hp) as [(dest & Hd & Hs) Hsame].
  rewrite (Hsame 7 5 m' Hm') by (vm_compute in Hm, Hm'; inv_ok; reflexivity).
  rewrite Hs. vm_compute in Hd, Hm, Hm'. inv_ok. reflexivity.
Defined.

(** X4. The SAN text of a pawn move built on a board: the name of the end
    square, preceded by the start file and 'x' when the end square was
    occupied or the pawn changes file (an en-passant capture, whose end
    square is empty, is therefore written as a capture), followed by '='
    and the piece letter for a promotion, and by '+' when the move is marked
    as a check. *)
Theorem san_of_pawn_move (g : grid) (sr sc er ec : Z) (promoted : option kind)
    (m : Move) (chk : bool)
    (Hm : Move_init g sr sc er ec promoted false = Ok m)
    (Hp : is_pawn (piece_moved m) = true) :
  exists from dest,
    file_map sc = Ok from
    /\ square_name er ec = Ok dest
    /\ get_san (set_is_check m chk)
       = Ok ((if negb (is_empty (piece_captured m)) || negb (sc =? ec)%Z
              then String from "x" else "")
             ++ dest
             ++ match promoted with
                | Some k => String "=" (String (kind_char k) "")
                | None => ""
                end
             ++ (if chk then "+" else ""))%string.
Proof.
  apply Move_init_fields in Hm as (_ & Hsc & _ & Hec & _ & _ & Hc & Hpr & Hu).
  unfold get_san, set_is_check.
  cbn [piece_moved piece_captured is_castling is_check uci start_col end_col promoted_piece].
  rewrite Hp, Hpr, Hsc, Hec. unfold square_name.
  destruct promoted as [k|].
  - apply uci_promotion in Hu as (f1 & f2 & r2 & H1 & H2 & H3 & ->).
    exists f1, (String f2 (String r2 "")). rewrite H1, H2, H3.
    split; [reflexivity|]. split; [reflexivity|].
    destruct (negb (is_empty (piece_captured m)) || negb (sc =? ec)), chk; reflexivity.
  - apply uci_plain in Hu as (f1 & r1 & f2 & r2 & H1 & H2 & H3 & H4 & ->).
    exists f1, (String f2 (String r2 "")). rewrite H1, H3, H4.
    split; [reflexivity|]. split; [reflexivity|].
    destruct (negb (is_empty (piece_captured m)) || negb (sc =? ec)), chk; reflexivity.
Qed.

(** The en-passant capture exd6 of the pawn on e5. *)
Lemma san_of_pawn_move_witness :
  (m <- Move_init (board_array two_knights) 3 4 2 3 None false ;;
   s <- get_san (set_is_check m false) ;;
   Ok (piece_moved m, piece_captured m, s))
  = Ok (Piece White Pawn, Empty, "exd6").
Proof.
  destruct (Move_init (board_array two_knights) 3 4 2 3 None false) as [m|] eqn:Hm;
    [|discriminate Hm].
  cbn [bind].
  assert (is_pawn (piece_moved m) = true) as Hp
      by (vm_compute in Hm; inv_ok; reflexivity).
  destruct (san_of_pawn_move _ _ _ _ _ _ m false Hm Hp) as (from & dest & Hf & Hd & ->).
  vm_compute in Hf, Hd, Hm. inv_ok. reflexivity.
Defined.

(** ** Screen coordinates *)

Lemma clamp07_range (q : Z) : in_range8 (clamp07 q) = true.
Proof. unfold clamp07, in_range8. apply andb_true_iff. split; [apply Z.leb_le|apply Z.ltb_lt]; lia. Qed.

Lemma clamp07_id (q : Z) : in_range8 q = true -> clamp07 q = q.
Proof. intros H. b2p. unfold clamp07. lia. Qed.

(** X5. [coordinates_converter] returns a square exactly when it is given at
    least two coordinates and a square size other than 0, and the square it
    returns is always on the board, wherever the click was.  With a square
    size of 0 it raises ZeroDivisionError, unless the coordinates are empty;
    otherwise, with fewer than two coordinates, IndexError. *)
Theorem converter_stays_on_board (coordinates : list Z) (pov : bool)
    (SQUARE_SIZE PADDING : Z) :
  (forall s, coordinates_converter coordinates pov SQUARE_SIZE PADDING = Converted s ->
             on_board s = true)
  /\ ((exists s, coordinates_converter coordinates pov SQUARE_SIZE PADDING = Converted s)
      <-> (2 <= List.length coordinates)%nat /\ SQUARE_SIZE <> 0)
  /\ (coordinates_converter coordinates pov SQUARE_SIZE PADDING = ZeroDivisionError
      <-> coordinates <> [] /\ SQUARE_SIZE = 0)
  /\ (coordinates_converter coordinates pov SQUARE_SIZE PADDING = ConvIndexError
      <-> coordinates = [] \/ (List.length coordinates = 1%nat /\ SQUARE_SIZE <> 0)).
Proof.
  unfold coordinates_converter.
  destruct coordinates as [|c0 [|c1 rest]]; cbn [List.length];
    destruct (Z.eqb_spec SQUARE_SIZE 0) as [E | E];
    (split; [intros s H; try discriminate H|split; [|split]]).
  all: try (split; [intros H; try discriminate H | intros H]).
  all: try (injection H as <-; unfold on_board; cbn [fst snd];
            destruct pov; rewrite !clamp07_range; reflexivity).
  all: try match goal with
           | H : exists _, _ |- _ => destruct H as [? H]; discriminate H
           | H : _ /\ _ |- _ => destruct H; (lia || congruence)
           | H : _ \/ _ |- _ =>
               destruct H as [H | [? ?]]; (discriminate H || lia || congruence)
           end.
  all: try (split; (congruence || lia || discriminate)).
  all: try (left; reflexivity).
  all: try (right; split; [reflexivity|assumption]).
  all: try reflexivity.
  all: eauto.
Qed.

(** X6. A click anywhere inside the square that the GUI draws for the board
    square (row, col) is converted back to (row, col), from White's point
    of view and from Black's, for every positive square size and every
    padding. *)
Theorem click_inside_square (pov : bool) (row col SQUARE_SIZE PADDING dx dy : Z)
    (rest : list Z)
    (Hs : 0 < SQUARE_SIZE)
    (Hr : in_range8 row = true) (Hc : in_range8 col = true)
    (Hx : 0 <= dx < SQUARE_SIZE) (Hy : 0 <= dy < SQUARE_SIZE) :
  coordinates_converter
    (fst (square_rect_origin pov row col SQUARE_SIZE PADDING) + dx
     :: snd (square_rect_origin pov row col SQUARE_SIZE PADDING) + dy :: rest)
    pov SQUARE_SIZE PADDING
  = Converted (row, col).
Proof.
  assert (forall k d, 0 <= d < SQUARE_SIZE ->
            (k * SQUARE_SIZE + PADDING + d - PADDING) / SQUARE_SIZE = k) as D.
  { intros k d Hd.
    replace (k * SQUARE_SIZE + PADDING + d - PADDING) with (k * SQUARE_SIZE + d) by lia.
    rewrite Z.div_add_l by lia. rewrite Z.div_small by lia. lia. }
  unfold coordinates_converter, square_rect_origin. cbn [fst snd].
  assert ((SQUARE_SIZE =? 0) = false) as -> by (apply Z.eqb_neq; lia).
  rewrite !D by assumption.
  destruct pov.
  - now rewrite !clamp07_id.
  - replace (7 - (7 - col)) with col by lia.
    replace (7 - (7 - row)) with row by lia.
    now rewrite !clamp07_id.
Qed.

Lemma click_inside_square_witness :
  coordinates_converter [3 * 75 + 20 + 74; 6 * 75 + 20 + 0] false 75 20 = Converted (1, 4).
Proof.
  exact (click_inside_square false 1 4 75 20 74 0 []
           ltac:(lia) ltac:(reflexivity) ltac:(reflexivity) ltac:(lia) ltac:(lia)).
Defined.

(** ** King locations *)

Section KingScan.

(** [Q s p]: the piece [p] stands on the square [s]. *)
Variable Q : square -> piece -> Prop.

Definition known (k : option square) (p : piece) : Prop :=
  forall s, k = Some s -> Q s p.

Lemma king_scan_row_sound (row : list piece) (r : Z) :
  forall c wk bk,
    (forall i p, nth_error row i = Some p -> Q (r, c + Z.of_nat i) p) ->
    known wk (Piece White King) -> known bk (Piece Black King) ->
    match king_scan_row row r c wk bk with
    | inr (w, b) => Q w (Piece White King) /\ Q b (Piece Black King)
    | inl (wk', bk') => known wk' (Piece White King) /\ known bk' (Piece Black King)
    end.
Proof.
  induction row as [|p t IH]; intros c wk bk Hrow Hw Hb; cbn [king_scan_row].
  - auto.
  - assert (Q (r, c) p) as Hp.
    { replace c with (c + Z.of_nat 0) by (simpl; lia). apply Hrow. reflexivity. }
    assert (forall i q, nth_error t i = Some q -> Q (r, c + 1 + Z.of_nat i) q) as Ht.
    { intros i q Hi. replace (c + 1 + Z.of_nat i) with (c + Z.of_nat (S i)) by lia.
      apply Hrow. exact Hi. }
    assert (forall q, Q (r, c) q -> known (Some (r, c)) q) as Hk.
    { intros q Hq s [= <-]. exact Hq. }
    destruct p as [|[] []]; try (apply IH; assumption).
    + destruct bk as [k|]; [split; [exact Hp|apply Hb; reflexivity]|].
      apply IH; auto.
    + destruct wk as [k|]; [split; [apply Hw; reflexivity|exact Hp]|].
      apply IH; auto.
Qed.

Lemma king_scan_sound (g : grid) :
  forall r wk bk w b,
    (forall j row i p, nth_error g j = Some row -> nth_error row i = Some p ->
                       Q (r + Z.of_nat j, Z.of_nat i) p) ->
    known wk (Piece White King) -> known bk (Piece Black King) ->
    king_scan g r wk bk = Ok (w, b) ->
    Q w (Piece White King) /\ Q b (Piece Black King).
Proof.
  induction g as [|row t IH]; intros r wk bk w b Hg Hw Hb H; cbn [king_scan] in H.
  - discriminate H.
  - pose proof (king_scan_row_sound row r 0 wk bk) as Hrow.
    destruct (king_scan_row row r 0 wk bk) as [[wk' bk'] | [w' b']].
    + destruct Hrow as [Hw' Hb']; auto.
      { intros i p Hi. replace r with (r + Z.of_nat 0) by (simpl; lia).
        apply (Hg 0%nat row); [reflexivity|exact Hi]. }
      apply (IH (r + 1) wk' bk'); auto.
      intros j row' i p Hj Hi.
      replace (r + 1 + Z.of_nat j) with (r + Z.of_nat (S j)) by lia.
      apply (Hg (S j) row'); assumption.
    + inv_ok. apply Hrow; auto.
      intros i p Hi. replace r with (r + Z.of_nat 0) by (simpl; lia).
      apply (Hg 0%nat row); [reflexivity|exact Hi].
Qed.

End KingScan.

(** Whether the scan of a row finds what is missing. *)
Lemma king_scan_row_finds (row : list piece) (r : Z) :
  forall c wk bk,
    is_some wk && is_some bk = false ->
    match king_scan_row row r c wk bk with
    | inr _ =>
        (is_some wk || existsb (piece_eqb (Piece White King)) row)
        && (is_some bk || existsb (piece_eqb (Piece Black King)) row) = true
    | inl (wk', bk') =>
        is_some wk' = is_some wk || existsb (piece_eqb (Piece White King)) row
        /\ is_some bk' = is_some bk || existsb (piece_eqb (Piece Black King)) row
        /\ is_some wk' && is_some bk' = false
    end.
Proof.
  induction row as [|p t IH]; intros c wk bk Hacc; cbn [king_scan_row existsb].
  - rewrite !orb_false_r. auto.
  - destruct p as [|[] []]; cbn [piece_eqb color_eqb kind_eqb andb orb];
      try (apply IH; exact Hacc).
    + destruct bk as [k|].
      * rewrite orb_true_r. reflexivity.
      * specialize (IH (c + 1) (Some (r, c)) None eq_refl).
        destruct (king_scan_row t r (c + 1) (Some (r, c)) None) as [[wk' bk']|];
          cbn [is_some orb] in *; rewrite ?orb_true_r; auto.
    + destruct wk as [k|].
      * rewrite orb_true_r. reflexivity.
      * specialize (IH (c + 1) None (Some (r, c)) eq_refl).
        destruct (king_scan_row t r (c + 1) None (Some (r, c))) as [[wk' bk']|];
          cbn [is_some orb] in *; rewrite ?orb_true_r; auto.
Qed.

Lemma king_scan_finds (g : grid) :
  forall r wk bk,
    is_some wk && is_some bk = false ->
    is_ok (king_scan g r wk bk)
    = (is_some wk || has_piece (Piece White King) g)
      && (is_some bk || has_piece (Piece Black King) g).
Proof.
  unfold has_piece.
  induction g as [|row t IH]; intros r wk bk Hacc; cbn [king_scan existsb].
  - rewrite !orb_false_r. simpl. symmetry. exact Hacc.
  - pose proof (king_scan_row_finds row r 0 wk bk Hacc) as Hrow.
    destruct (king_scan_row row r 0 wk bk) as [[wk' bk'] | found].
    + destruct Hrow as (Hw & Hb & Hacc').
      rewrite (IH (r + 1) wk' bk' Hacc'), Hw, Hb, !orb_assoc. reflexivity.
    + cbn [is_ok]. symmetry.
      apply andb_true_iff in Hrow as [Hw Hb].
      apply orb_true_iff in Hw, Hb. apply andb_true_iff.
      split; rewrite orb_assoc; apply orb_true_iff; left; apply orb_true_iff; assumption.
Qed.

Lemma king_scan_exits (g : grid) :
  forall r wk bk e, king_scan g r wk bk = Raise e -> e = SystemExit.
Proof.
  induction g as [|row t IH]; intros r wk bk e H; cbn [king_scan] in H.
  - congruence.
  - destruct (king_scan_row row r 0 wk bk) as [[wk' bk'] | found]; [eauto|discriminate H].
Qed.

Lemma at_nat (g : grid) (j i : nat) (row : list piece) (p : piece) :
  nth_error g j = Some row -> nth_error row i = Some p ->
  at_ g (Z.of_nat j) (Z.of_nat i) = Ok p.
Proof.
  intros Hj Hi. unfold at_. rewrite index_nat, Hj. cbn [bind].
  rewrite index_nat, Hi. reflexivity.
Qed.

(** X7. [get_king_locations] returns exactly when the board holds a white
    king and a black king, whatever the shape of the board; the squares it
    returns then hold a white king and a black king.  Otherwise it ends the
    program ([sys.exit()]); it raises nothing else. *)
Theorem get_king_locations_finds_kings (g : grid) :
  is_ok (get_king_locations g)
  = has_piece (Piece White King) g && has_piece (Piece Black King) g
  /\ (forall w b, get_king_locations g = Ok (w, b) ->
        at_ g (fst w) (snd w) = Ok (Piece White King)
        /\ at_ g (fst b) (snd b) = Ok (Piece Black King))
  /\ (forall e, get_king_locations g = Raise e -> e = SystemExit).
Proof.
  unfold get_king_locations. split; [|split].
  - rewrite king_scan_finds by reflexivity. reflexivity.
  - intros w b H.
    apply (king_scan_sound (fun s p => at_ g (fst s) (snd s) = Ok p) g 0 None None w b);
      try exact H; try (intros s Hs; discriminate Hs).
    intros j row i p Hj Hi. cbn [fst snd]. rewrite Z.add_0_l.
    eauto using at_nat.
  - apply king_scan_exits.
Qed.

(** ** What the generators build *)

Lemma Move_init_built g sr sc er ec promoted m :
  Move_init g sr sc er ec promoted false = Ok m ->
  built g sr sc er ec promoted m.
Proof.
  unfold Move_init, built. intros H. inv_bind H. inv_bind H. inv_bind H. inv_ok.
  cbn. repeat split; try assumption.
  - destruct promoted.
    + apply uci_promotion in E1 as (? & ? & ? & _ & _ & H3 & _).
      eauto using rank_map_range.
    + apply uci_plain in E1 as (? & ? & ? & ? & _ & _ & _ & H4 & _).
      eauto using rank_map_range.
  - destruct promoted.
    + apply uci_promotion in E1 as (? & ? & ? & _ & H2 & _ & _).
      eauto using file_map_range.
    + apply uci_plain in E1 as (? & ? & ? & ? & _ & _ & H3 & _ & _).
      eauto using file_map_range.
Qed.

Lemma built_ends g sr sc er ec promoted m :
  built g sr sc er ec promoted m ->
  built g sr sc (end_row m) (end_col m) promoted m.
Proof. intros H. pose proof H as (_ & _ & -> & -> & _). exact H. Qed.

Lemma has_color_opposite (p : piece) (c : color) :
  has_color p (opposite c) = true -> has_color p c = false.
Proof. destruct p as [|[] k], c; cbv; congruence. Qed.

Lemma not_same_color (p : piece) (c : color) (k : kind) :
  same_color_char p (Piece c k) = false -> has_color p c = false.
Proof. destruct p as [|[] k'], c; cbv; congruence. Qed.

Lemma ep_is_true (ep : option square) (r c : Z) :
  ep_is ep r c = true -> ep = Some (r, c).
Proof.
  unfold ep_is, square_eqb. destruct ep as [[er ec]|]; [|discriminate].
  cbn [fst snd]. intros H. b2p. subst. reflexivity.
Qed.

Section Shapes.

Variable g : grid.
Variable ep : option square.

(** The four moves of a promotion. *)
Lemma promotions_built sr sc er ec ms :
  promotions g sr sc er ec = Ok ms ->
  Forall (fun m => exists k, In k [Queen; Knight; Rook; Bishop]
                             /\ built g sr sc er ec (Some k) m) ms.
Proof.
  unfold promotions. intros H.
  inv_bind H. inv_bind H. inv_bind H. inv_bind H. inv_ok.
  repeat constructor; eexists; (split; [|eapply Move_init_built; eassumption]);
    simpl; tauto.
Qed.

(** *** Sliding pieces *)

Lemma slide_along fuel row col dr dc c k :
  at_ g row col = Ok (Piece c k) ->
  forall j r c' ms,
    1 <= j -> r = row + j * dr -> c' = col + j * dc ->
    (forall i, 1 <= i < j -> at_ g (row + i * dr) (col + i * dc) = Ok Empty) ->
    slide g fuel row col dr dc r c' = Ok ms ->
    Forall (fun m => built g row col (end_row m) (end_col m) None m
                     /\ along g dr dc m
                     /\ has_color (piece_captured m) c = false) ms.
Proof.
  intros Hown. induction fuel as [|fuel IH]; intros j r c' ms Hj Hr Hc Hfree H;
    cbn [slide] in H.
  - destruct (in_range8 r && in_range8 c'); inv_ok. constructor.
  - destruct (in_range8 r && in_range8 c'); [|inv_ok; constructor].
    bind_as H target E.
    assert (forall m, new_move g row col r c' = Ok m ->
              has_color target c = false ->
              built g row col (end_row m) (end_col m) None m
              /\ along g dr dc m
              /\ has_color (piece_captured m) c = false) as K.
    { intros m Hm Hcol. unfold new_move in Hm. apply Move_init_built in Hm.
      pose proof Hm as (Hsr & Hsc & Her & Hec & _ & Hpc & _).
      split; [eapply built_ends in Hm; exact Hm|]. split.
      - exists j. rewrite Hsr, Hsc, Her, Hec. auto.
      - rewrite E in Hpc. inv_ok. exact Hcol. }
    destruct (is_empty target) eqn:Hemp.
    + destruct target; [|discriminate Hemp].
      bind_as H m Hm. bind_as H rest Hrest. inv_ok. constructor.
      * apply K; [assumption|reflexivity].
      * eapply (IH (j + 1)); try eassumption; try lia.
        intros i Hi. destruct (Z.eq_dec i j) as [-> | Hne].
        -- exact E.
        -- apply Hfree. lia.
    + rewrite Hown in H. cbn [bind] in H.
      destruct (negb (same_color_char target (Piece c k))) eqn:Hcol;
        [|inv_ok; constructor].
      bind_as H m Hm. inv_ok. constructor; [|constructor].
      apply K; [assumption|]. apply negb_true_iff in Hcol.
      eauto using not_same_color.
Qed.

Lemma slides_along directions row col c k :
  at_ g row col = Ok (Piece c k) ->
  forall ms,
    slides g directions row col = Ok ms ->
    Forall (fun m => built g row col (end_row m) (end_col m) None m
                     /\ (exists d, In d directions /\ along g (fst d) (snd d) m)
                     /\ has_color (piece_captured m) c = false) ms.
Proof.
  intros Hown. induction directions as [|[dr dc] t IH]; intros ms H; cbn [slides] in H.
  - inv_ok. constructor.
  - bind_as H here E. bind_as H rest E0. inv_ok. apply Forall_app_intro.
    + eapply slide_along with (j := 1) in E; try eassumption; try lia.
      eapply Forall_impl; [|exact E]. cbv beta.
      intros m (Hb & Ha & Hc). split; [exact Hb|]. split; [|exact Hc].
      exists (dr, dc). split; [now left|exact Ha].
    + eapply Forall_impl; [|apply IH; exact E0]. cbv beta.
      intros m (Hb & (d & Hd & Ha) & Hc). split; [exact Hb|]. split; [|exact Hc].
      exists d. split; [now right|exact Ha].
Qed.

(** *** Knight and king *)

Lemma steps_steps_by offsets row col c k :
  at_ g row col = Ok (Piece c k) ->
  forall ms,
    steps g offsets row col = Ok ms ->
    Forall (fun m => built g row col (end_row m) (end_col m) None m
                     /\ steps_by offsets m
                     /\ has_color (piece_captured m) c = false) ms.
Proof.
  intros Hown. induction offsets as [|[dr dc] t IH]; intros ms H; cbn [steps] in H.
  - inv_ok. constructor.
  - bind_as H here E. bind_as H rest E0. inv_ok. apply Forall_app_intro.
    + assert (forall m, new_move g row col (row + dr) (col + dc) = Ok m ->
                has_color (piece_captured m) c = false ->
                built g row col (end_row m) (end_col m) None m
                /\ steps_by ((dr, dc) :: t) m
                /\ has_color (piece_captured m) c = false) as K.
      { intros m Hm Hcol. unfold new_move in Hm. apply Move_init_built in Hm.
        pose proof Hm as (Hsr & Hsc & Her & Hec & _).
        split; [eapply built_ends in Hm; exact Hm|]. split; [|exact Hcol].
        exists (dr, dc). rewrite Hsr, Hsc, Her, Hec. cbn. auto. }
      destruct (in_range8 (row + dr) && in_range8 (col + dc)); [|inv_ok; constructor].
      bind_as E target Ht.
      destruct (is_empty target) eqn:Hemp.
      * destruct target; [|discriminate Hemp].
        bind_as E m Hm. inv_ok. constructor; [|constructor].
        apply K; [assumption|].
        apply Move_init_built in Hm as (_ & _ & _ & _ & _ & Hpc & _).
        rewrite Ht in Hpc. inv_ok. rewrite <- Hpc. reflexivity.
      * rewrite Hown in E. cbn [bind] in E.
        destruct (negb (same_color_char target (Piece c k))) eqn:Hcol;
          [|inv_ok; constructor].
        bind_as E m Hm. inv_ok. constructor; [|constructor].
        apply K; [assumption|].
        apply Move_init_built in Hm as (_ & _ & _ & _ & _ & Hpc & _).
        rewrite Ht in Hpc. inv_ok. apply negb_true_iff in Hcol.
        eauto using not_same_color.
    + eapply Forall_impl; [|apply IH; exact E0]. cbv beta.
      intros m (Hb & (d & Hd & Ha) & Hc). split; [exact Hb|]. split; [|exact Hc].
      exists d. split; [now right|exact Ha].
Qed.

(** *** Pawns *)

Lemma built_self sr sc er ec promoted m :
  built g sr sc er ec promoted m ->
  built g sr sc (end_row m) (end_col m) (promoted_piece m) m.
Proof. intros H. pose proof H as (_ & _ & -> & -> & _ & _ & _ & _ & -> & _). exact H. Qed.

Lemma promotions_shape row col er ec ms (shape : Move -> Prop) :
  promotions g row col er ec = Ok ms ->
  (forall m k, In k [Queen; Knight; Rook; Bishop] ->
               built g row col er ec (Some k) m -> shape m) ->
  Forall (fun m => built g row col (end_row m) (end_col m) (promoted_piece m) m
                   /\ (shape m
                       /\ forall k, promoted_piece m = Some k ->
                                    In k [Queen; Knight; Rook; Bishop])) ms.
Proof.
  intros H Hs. apply promotions_built in H.
  eapply Forall_impl; [|exact H]. cbv beta. intros m (k & Hk & Hb).
  split; [eauto using built_self|]. split; [eauto|].
  destruct Hb as (_ & _ & _ & _ & _ & _ & _ & _ & -> & _).
  intros k' [= <-]. exact Hk.
Qed.

Lemma new_move_shape row col er ec m (shape : Move -> Prop) :
  new_move g row col er ec = Ok m ->
  (built g row col er ec None m -> shape m) ->
  Forall (fun m => built g row col (end_row m) (end_col m) (promoted_piece m) m
                   /\ (shape m
                       /\ forall k, promoted_piece m = Some k ->
                                    In k [Queen; Knight; Rook; Bishop])) [m].
Proof.
  intros H Hs. apply Move_init_built in H. constructor; [|constructor].
  split; [eauto using built_self|]. split; [eauto|].
  destruct H as (_ & _ & _ & _ & _ & _ & _ & _ & -> & _). discriminate.
Qed.

Ltac built_facts H :=
  let Hsr := fresh "Hsr" in let Hsc := fresh "Hsc" in
  let Her := fresh "Her" in let Hec := fresh "Hec" in
  let Hpc := fresh "Hpc" in let Hpr := fresh "Hpr" in
  destruct H as (Hsr & Hsc & Her & Hec & _ & Hpc & _ & _ & Hpr & _);
  rewrite ?Hsr, ?Hsc, ?Her, ?Hec, ?Hpr.

Lemma pawn_capture_shape row col c d_col ms :
  d_col = -1 \/ d_col = 1 ->
  pawn_capture g ep row col (forward c) (color_eqb c White) (color_eqb c Black) d_col
  = Ok ms ->
  Forall (fun m => built g row col (end_row m) (end_col m) (promoted_piece m) m
                   /\ ((pawn_takes c m \/ pawn_takes_en_passant ep c m)
                       /\ forall k, promoted_piece m = Some k ->
                                    In k [Queen; Knight; Rook; Bishop])) ms.
Proof.
  intros Hd H. unfold pawn_capture in H.
  destruct (in_range8 (col + d_col) && in_range8 (row + forward c)); [|inv_ok; constructor].
  bind_as H target Ht.
  destruct (has_color target (if color_eqb c White then Black else White)) eqn:Hcol.
  - assert (forall m promoted,
              built g row col (row + forward c) (col + d_col) promoted m ->
              (promoted <> None <-> row + forward c = last_row c) ->
              pawn_takes c m) as K.
    { intros m promoted Hb Hp. unfold pawn_takes.
      pose proof Hb as (_ & _ & _ & _ & _ & Hpc' & _).
      rewrite Ht in Hpc'. inv_ok.
      built_facts Hb. repeat split; try lia; try tauto.
      destruct c; exact Hcol. }
    destruct ((color_eqb c White && (row - 1 =? 0)) || (color_eqb c Black && (row + 1 =? 7)))
      eqn:Hlast.
    + eapply promotions_shape in H; [exact H|].
      intros m k _ Hb. left. apply (K m (Some k) Hb).
      split; [intros _|discriminate]. destruct c; cbn in Hlast |- *; b2p; lia.
    + bind_as H m Hm. inv_ok. eapply new_move_shape in Hm; [exact Hm|].
      intros Hb. left. apply (K m None Hb).
      split; [congruence|intros Hl; exfalso].
      destruct c; cbn in Hlast, Hl; rewrite ?orb_false_r in Hlast; b2p; lia.
  - destruct (ep_is ep (row + forward c) (col + d_col)) eqn:Hep; [|inv_ok; constructor].
    bind_as H m Hm. inv_ok. eapply new_move_shape in Hm; [exact Hm|].
    intros Hb. right. unfold pawn_takes_en_passant.
    pose proof Hb as (_ & _ & _ & _ & _ & Hpc' & _).
    rewrite Ht in Hpc'. inv_ok.
    built_facts Hb. apply ep_is_true in Hep.
    repeat split; try lia; try assumption.
    destruct c; exact Hcol.
Qed.

Lemma pawn_moves_shape row col c ms :
  at_ g row col = Ok (Piece c Pawn) ->
  pawn_moves g ep row col = Ok ms ->
  Forall (fun m => built g row col (end_row m) (end_col m) (promoted_piece m) m
                   /\ pawn_shape g ep c m) ms.
Proof.
  intros Hown H. unfold pawn_moves in H. rewrite Hown in H. cbn [bind] in H.
  change (has_color (Piece c Pawn) White) with (color_eqb c White) in H.
  change (has_color (Piece c Pawn) Black) with (color_eqb c Black) in H.
  replace (if color_eqb c White then -1 else 1) with (forward c) in H
    by (destruct c; reflexivity).
  bind_as H fwd Hf. bind_as H lft Hl. bind_as H rgt Hr. inv_ok.
  apply pawn_capture_shape in Hl; [|now left].
  apply pawn_capture_shape in Hr; [|now right].
  assert (forall l,
            Forall (fun m => built g row col (end_row m) (end_col m) (promoted_piece m) m
                             /\ ((pawn_takes c m \/ pawn_takes_en_passant ep c m)
                                 /\ forall k, promoted_piece m = Some k ->
                                              In k [Queen; Knight; Rook; Bishop])) l ->
            Forall (fun m => built g row col (end_row m) (end_col m) (promoted_piece m) m
                             /\ pawn_shape g ep c m) l) as Hcap.
  { intros l Hx. eapply Forall_impl; [|exact Hx]. cbv beta.
    intros m (Hb & Hs & Hk). split; [exact Hb|]. split; [tauto|exact Hk]. }
  repeat apply Forall_app_intro; auto. clear Hl Hr Hcap lft rgt.
  destruct ((1 <=? row + forward c) && (row + forward c <? 8)) eqn:Hin;
    [|inv_ok; constructor].
  bind_as Hf ahead Ha.
  destruct (is_empty ahead) eqn:Hemp; [|inv_ok; constructor].
  destruct ahead; [|discriminate Hemp].
  bind_as Hf one H1. bind_as Hf two H2. inv_ok.
  apply Forall_app_intro.
  - assert (forall m promoted,
              built g row col (row + forward c) col promoted m ->
              (promoted <> None <-> row + forward c = last_row c) ->
              pawn_push c m) as K.
    { intros m promoted Hb Hp. unfold pawn_push.
      pose proof Hb as (_ & _ & _ & _ & _ & Hpc' & _).
      rewrite Ha in Hpc'. inv_ok.
      built_facts Hb. b2p. repeat split; try lia; try tauto. congruence. }
    assert (forall l,
              Forall (fun m => built g row col (end_row m) (end_col m) (promoted_piece m) m
                               /\ (pawn_push c m
                                   /\ forall k, promoted_piece m = Some k ->
                                                In k [Queen; Knight; Rook; Bishop])) l ->
              Forall (fun m => built g row col (end_row m) (end_col m) (promoted_piece m) m
                               /\ pawn_shape g ep c m) l) as Hpush.
    { intros l Hx. eapply Forall_impl; [|exact Hx]. cbv beta.
      intros m (Hb & Hs & Hk). split; [exact Hb|]. split; [tauto|exact Hk]. }
    apply Hpush.
    destruct ((color_eqb c White && (row - 1 =? 0)) || (color_eqb c Black && (row + 1 =? 7)))
      eqn:Hlast.
    + eapply promotions_shape in H1; [exact H1|].
      intros m k _ Hb. apply (K m (Some k) Hb).
      split; [intros _|discriminate]. destruct c; cbn in Hlast |- *; b2p; lia.
    + bind_as H1 m Hm. inv_ok. eapply new_move_shape in Hm; [exact Hm|].
      intros Hb. apply (K m None Hb).
      split; [congruence|intros Hl; exfalso].
      destruct c; cbn in Hlast, Hl; rewrite ?orb_false_r in Hlast; b2p; lia.
  - destruct (((row =? 6) && color_eqb c White) || ((row =? 1) && color_eqb c Black))
      eqn:Hhome; [|inv_ok; constructor].
    bind_as H2 ahead2 Ha2.
    destruct (is_empty ahead2) eqn:Hemp2; [|inv_ok; constructor].
    destruct ahead2; [|discriminate Hemp2].
    bind_as H2 m Hm. inv_ok.
    assert (Forall (fun m => built g row col (end_row m) (end_col m) (promoted_piece m) m
                             /\ (pawn_double_push g c m
                                 /\ forall k, promoted_piece m = Some k ->
                                              In k [Queen; Knight; Rook; Bishop])) [m]) as Hx.
    { eapply new_move_shape in Hm; [exact Hm|].
      intros Hb. unfold pawn_double_push.
      pose proof Hb as (_ & _ & _ & _ & _ & Hpc' & _).
      rewrite Ha2 in Hpc'. inv_ok.
      built_facts Hb. repeat split; try lia; try assumption; try congruence.
      destruct c; cbn in Hhome |- *; rewrite ?andb_false_r, ?orb_false_r in Hhome;
        b2p; lia. }
    eapply Forall_impl; [|exact Hx]. cbv beta.
    intros m' (Hb & Hs & Hk). split; [exact Hb|]. split; [tauto|exact Hk].
Qed.

End Shapes.

Lemma built_moved g sr sc er ec promoted m p :
  built g sr sc er ec promoted m -> at_ g sr sc = Ok p -> piece_moved m = p.
Proof. intros (_ & _ & _ & _ & H & _) Hp. congruence. Qed.

Lemma built_plain g sr sc er ec m :
  built g sr sc er ec None m ->
  built g sr sc er ec (promoted_piece m) m /\ promoted_piece m = None.
Proof. intros H. pose proof H as (_ & _ & _ & _ & _ & _ & _ & _ & -> & _). auto. Qed.

Lemma moveFunctions_shaped g ep k row col c ms :
  at_ g row col = Ok (Piece c k) ->
  moveFunctions g ep k row col = Ok ms ->
  Forall (fun m => built g row col (end_row m) (end_col m) (promoted_piece m) m
                   /\ shaped g ep m) ms.
Proof.
  intros Hown H.
  assert (forall (R : Move -> Prop) l,
            Forall (fun m => built g row col (end_row m) (end_col m) None m
                             /\ R m /\ has_color (piece_captured m) c = false) l ->
            (forall m, piece_moved m = Piece c k -> promoted_piece m = None ->
                       R m -> has_color (piece_captured m) c = false -> shaped g ep m) ->
            Forall (fun m => built g row col (end_row m) (end_col m) (promoted_piece m) m
                             /\ shaped g ep m) l) as K.
  { intros R l Hl HR. eapply Forall_impl; [|exact Hl]. cbv beta.
    intros m (Hb & Hr & Hc). pose proof (built_moved _ _ _ _ _ _ _ _ Hb Hown) as Hp.
    apply built_plain in Hb as [Hb Hn]. eauto. }
  destruct k; cbn [moveFunctions] in H.
  - eapply Forall_impl; [|eapply pawn_moves_shape; eassumption]. cbv beta.
    intros m (Hb & Hs). split; [exact Hb|].
    unfold shaped. rewrite (built_moved _ _ _ _ _ _ _ _ Hb Hown). exact Hs.
  - eapply K; [eapply slides_along; eassumption|].
    intros m Hp Hn Hr Hc. unfold shaped. rewrite Hp. auto.
  - eapply K; [eapply steps_steps_by; eassumption|].
    intros m Hp Hn Hr Hc. unfold shaped. rewrite Hp. auto.
  - eapply K; [eapply slides_along; eassumption|].
    intros m Hp Hn Hr Hc. unfold shaped. rewrite Hp. auto.
  - unfold queen_moves in H. bind_as H a Ha. bind_as H b Hb. inv_ok.
    apply Forall_app_intro.
    + eapply K; [eapply slides_along; eassumption|].
      intros m Hp Hn (d & Hd & Hal) Hc. unfold shaped. rewrite Hp.
      split; [exact Hn|]. split; [|exact Hc].
      exists d. split; [apply in_or_app; now left|exact Hal].
    + eapply K; [eapply slides_along; eassumption|].
      intros m Hp Hn (d & Hd & Hal) Hc. unfold shaped. rewrite Hp.
      split; [exact Hn|]. split; [|exact Hc].
      exists d. split; [apply in_or_app; now right|exact Hal].
  - eapply K; [eapply steps_steps_by; eassumption|].
    intros m Hp Hn Hr Hc. unfold shaped. rewrite Hp. auto.
Qed.

Lemma moves_from_generated g ep wtm row col ms :
  moves_from g ep wtm row col = Ok ms ->
  Forall (fun m => built g row col (end_row m) (end_col m) (promoted_piece m) m
                   /\ has_color (piece_moved m) (side wtm) = true
                   /\ shaped g ep m) ms.
Proof.
  unfold moves_from. intros H. bind_as H p Hp.
  destruct p as [|c k]; [inv_ok; constructor|].
  destruct ((color_eqb c White && wtm) || (color_eqb c Black && negb wtm)) eqn:Hc;
    [|inv_ok; constructor].
  eapply Forall_impl; [|eapply moveFunctions_shaped; eassumption]. cbv beta.
  intros m (Hb & Hs). split; [exact Hb|]. split; [|exact Hs].
  rewrite (built_moved _ _ _ _ _ _ _ _ Hb Hp).
  destruct c, wtm; cbn in Hc |- *; congruence.
Qed.

Lemma scan_cols_generated g ep wtm row cols :
  forall ms,
    scan_cols g ep wtm row cols = Ok ms ->
    Forall (fun m => start_row m = row /\ In (start_col m) cols
                     /\ built g (start_row m) (start_col m) (end_row m) (end_col m)
                              (promoted_piece m) m
                     /\ has_color (piece_moved m) (side wtm) = true
                     /\ shaped g ep m) ms.
Proof.
  induction cols as [|col t IH]; intros ms H; cbn [scan_cols] in H.
  - inv_ok. constructor.
  - bind_as H here Hh. bind_as H rest Hr. inv_ok. apply Forall_app_intro.
    + eapply Forall_impl; [|eapply moves_from_generated; eassumption]. cbv beta.
      intros m (Hb & Hc & Hs). pose proof Hb as (Hsr & Hsc & _).
      rewrite Hsr, Hsc.
      split; [reflexivity|]. split; [now left|]. split; [exact Hb|]. split; assumption.
    + eapply Forall_impl; [|apply IH; eassumption]. cbv beta.
      intros m (Hsr & Hin & Hrest).
      split; [exact Hsr|]. split; [now right|exact Hrest].
Qed.

Lemma scan_rows_generated g ep wtm rows :
  forall ms,
    scan_rows g ep wtm rows = Ok ms ->
    Forall (fun m => In (start_row m) rows /\ In (start_col m) range8
                     /\ built g (start_row m) (start_col m) (end_row m) (end_col m)
                              (promoted_piece m) m
                     /\ has_color (piece_moved m) (side wtm) = true
                     /\ shaped g ep m) ms.
Proof.
  induction rows as [|row t IH]; intros ms H; cbn [scan_rows] in H.
  - inv_ok. constructor.
  - bind_as H here Hh. bind_as H rest Hr. inv_ok. apply Forall_app_intro.
    + eapply Forall_impl; [|eapply scan_cols_generated; eassumption]. cbv beta.
      intros m (Hsr & Hrest). split; [left; congruence|exact Hrest].
    + eapply Forall_impl; [|apply IH; eassumption]. cbv beta.
      intros m (Hin & Hrest). split; [now right|exact Hrest].
Qed.

(** Every move of [get_psuedo_legal_moves] starts on a square of the board
    that holds a piece of the side to move, and has the shape of a move of
    that piece. *)
Lemma pseudo_legal_generated (b : Board) (ms : list Move) :
  get_psuedo_legal_moves b = Ok ms ->
  Forall (generated (board_array b) (en_passant_square b) (white_to_move b)) ms.
Proof. unfold get_psuedo_legal_moves, generated. apply scan_rows_generated. Qed.

Lemma range8_in (x : Z) : In x range8 -> in_range8 x = true.
Proof. intros H. simpl in H. repeat (destruct H as [<- | H]; [reflexivity|]). contradiction. Qed.

Lemma generated_moved g ep wtm m :
  generated g ep wtm m ->
  exists k, piece_moved m = Piece (side wtm) k.
Proof.
  intros (_ & _ & _ & Hc & Hs). unfold shaped in Hs.
  destruct (piece_moved m) as [|c k]; [contradiction|].
  exists k. destruct c, wtm; cbn in Hc |- *; congruence.
Qed.

Lemma in_lines (k : kind) (d : Z * Z) :
  In d (lines_of k) ->
  -1 <= fst d <= 1 /\ -1 <= snd d <= 1 /\ (fst d <> 0 \/ snd d <> 0)
  /\ (k = Rook -> fst d = 0 \/ snd d = 0)
  /\ (k = Bishop -> fst d <> 0 /\ snd d <> 0).
Proof.
  destruct k; cbn; intros H;
    repeat (destruct H as [<- | H]; [cbn; repeat split; try lia; try discriminate|]);
    try contradiction.
Qed.

(** X8. Every move of [get_psuedo_legal_moves] goes from a square of the
    board to another square of the board, moves the piece that stands on its
    start square, which belongs to the side to move, and records as captured
    what stands on its end square, which is never a piece of the side to
    move, provided the en-passant target, if any, is an empty square.  None
    of these moves carries the castling or the check flag. *)
Theorem pseudo_legal_moves_spare_own_pieces (b : Board) (ms : list Move)
    (Hep : forall s, en_passant_square b = Some s ->
                     at_ (board_array b) (fst s) (snd s) = Ok Empty)
    (H : get_psuedo_legal_moves b = Ok ms) :
  Forall (fun m =>
            on_board (start_row m, start_col m) = true
            /\ on_board (end_row m, end_col m) = true
            /\ (start_row m, start_col m) <> (end_row m, end_col m)
            /\ at_ (board_array b) (start_row m) (start_col m) = Ok (piece_moved m)
            /\ at_ (board_array b) (end_row m) (end_col m) = Ok (piece_captured m)
            /\ has_color (piece_moved m) (side (white_to_move b)) = true
            /\ has_color (piece_captured m) (side (white_to_move b)) = false
            /\ is_castling m = false /\ is_check m = false) ms.
Proof.
  apply pseudo_legal_generated in H.
  eapply Forall_impl; [|exact H]. cbv beta. intros m Hm.
  destruct (generated_moved _ _ _ _ Hm) as (k & Hk).
  destruct Hm as (Hr & Hc & Hb & Hcol & Hs).
  pose proof Hb as (_ & _ & _ & _ & Hpm & Hpc & Hcas & Hchk & _ & Her & Hec).
  unfold shaped in Hs. rewrite Hk in Hs.
  assert ((start_row m, start_col m) <> (end_row m, end_col m)
          /\ has_color (piece_captured m) (side (white_to_move b)) = false) as [Hne Hown].
  { assert (forall offsets,
              steps_by offsets m -> Forall (fun d => fst d <> 0 \/ snd d <> 0) offsets ->
              (start_row m, start_col m) <> (end_row m, end_col m)) as Hstep.
    { intros offsets (d & Hd & H1 & H2) Hall. rewrite Forall_forall in Hall.
      specialize (Hall d Hd). intros [= E1 E2]. lia. }
    assert (forall kd,
              (exists d, In d (lines_of kd) /\ along (board_array b) (fst d) (snd d) m) ->
              (start_row m, start_col m) <> (end_row m, end_col m)) as Hline.
    { intros kd (d & Hd & j & Hj & H1 & H2 & _).
      apply in_lines in Hd as (Hd1 & Hd2 & Hd3 & _). intros [= E1 E2]. nia. }
    destruct k.
    - destruct Hs as [[Hp | [Hp | [Hp | Hp]]] _].
      + destruct Hp as (H1 & H2 & H3 & _). split.
        * intros [= E1 E2]. destruct (side (white_to_move b)); cbn in H2; lia.
        * rewrite H3. reflexivity.
      + destruct Hp as (H1 & H2 & _ & H3 & _). split.
        * intros [= E1 E2]. destruct (side (white_to_move b)); cbn in H2; lia.
        * rewrite H3. reflexivity.
      + destruct Hp as (H1 & H2 & H3 & _). split.
        * intros [= E1 E2]. lia.
        * now apply has_color_opposite.
      + destruct Hp as (H1 & H2 & _ & H3 & _). split.
        * intros [= E1 E2]. lia.
        * specialize (Hep _ H3). cbn [fst snd] in Hep.
          rewrite Hep in Hpc. inv_ok. rewrite <- Hpc. reflexivity.
    - destruct Hs as (_ & Hl & Hc'). split; [eapply Hline; eassumption|exact Hc'].
    - destruct Hs as (_ & Hl & Hc'). split; [|exact Hc'].
      apply (Hstep _ Hl). repeat constructor; cbn; lia.
    - destruct Hs as (_ & Hl & Hc'). split; [eapply Hline; eassumption|exact Hc'].
    - destruct Hs as (_ & Hl & Hc'). split; [eapply Hline; eassumption|exact Hc'].
    - destruct Hs as (_ & Hl & Hc'). split; [|exact Hc'].
      apply (Hstep _ Hl). repeat constructor; cbn; lia. }
  unfold on_board. cbn [fst snd].
  rewrite (range8_in _ Hr), (range8_in _ Hc), Her, Hec.
  repeat split; assumption.
Qed.

Lemma pseudo_legal_moves_spare_own_pieces_witness :
  exists ms,
    get_psuedo_legal_moves knight_on_b1 = Ok ms
    /\ ms <> []
    /\ Forall (fun m => has_color (piece_captured m) White = false
                        /\ on_board (end_row m, end_col m) = true) ms.
Proof.
  destruct (get_psuedo_legal_moves knight_on_b1) as [ms|] eqn:E; [|discriminate E].
  exists ms. split; [reflexivity|]. split; [vm_compute in E; inv_ok; discriminate|].
  assert (forall s, en_passant_square knight_on_b1 = Some s ->
                    at_ (board_array knight_on_b1) (fst s) (snd s) = Ok Empty) as Hep
      by (intros s Hs; discriminate Hs).
  pose proof (pseudo_legal_moves_spare_own_pieces knight_on_b1 ms Hep E) as H.
  eapply Forall_impl; [|exact H]. cbv beta. intros m Hm.
  split; [apply Hm|apply Hm].
Defined.

(** X9. A rook, bishop or queen move of [get_psuedo_legal_moves] ends some
    steps away from its start along one direction: the steps of a rook are
    along its row or its column, those of a bishop along a diagonal, those
    of a queen along either; and every square strictly between the start
    and the end is empty: a sliding piece never jumps. *)
Theorem sliding_pieces_do_not_jump (b : Board) (ms : list Move)
    (H : get_psuedo_legal_moves b = Ok ms) :
  Forall (fun m =>
            forall c k, piece_moved m = Piece c k -> In k [Rook; Bishop; Queen] ->
              exists dr dc j,
                -1 <= dr <= 1 /\ -1 <= dc <= 1 /\ (dr <> 0 \/ dc <> 0)
                /\ (k = Rook -> dr = 0 \/ dc = 0)
                /\ (k = Bishop -> dr <> 0 /\ dc <> 0)
                /\ 1 <= j
                /\ end_row m = start_row m + j * dr
                /\ end_col m = start_col m + j * dc
                /\ (forall i, 1 <= i < j ->
                      at_ (board_array b) (start_row m + i * dr) (start_col m + i * dc)
                      = Ok Empty)
                /\ promoted_piece m = None) ms.
Proof.
  apply pseudo_legal_generated in H.
  eapply Forall_impl; [|exact H]. cbv beta.
  intros m (_ & _ & _ & _ & Hs) c k Hp Hk. unfold shaped in Hs. rewrite Hp in Hs.
  assert (promoted_piece m = None
          /\ (exists d, In d (lines_of k) /\ along (board_array b) (fst d) (snd d) m)) as [Hn Hl].
  { cbn in Hk. destruct Hk as [<- | [<- | [<- | []]]]; tauto. }
  destruct Hl as ([dr dc] & Hd & j & Hj & H1 & H2 & Hfree).
  apply in_lines in Hd as (Hd1 & Hd2 & Hd3 & Hd4 & Hd5). cbn [fst snd] in *.
  exists dr, dc, j. repeat split; auto; try lia; try (now apply Hd5).
Qed.

Lemma sliding_pieces_do_not_jump_witness :
  exists ms,
    get_psuedo_legal_moves knight_on_b1 = Ok ms
    /\ existsb (fun m => piece_eqb (piece_moved m) (Piece White Rook)) ms = true
    /\ Forall (fun m => piece_moved m = Piece White Rook ->
                        end_row m = start_row m \/ end_col m = start_col m) ms.
Proof.
  destruct (get_psuedo_legal_moves knight_on_b1) as [ms|] eqn:E; [|discriminate E].
  exists ms. split; [reflexivity|]. split; [vm_compute in E; inv_ok; reflexivity|].
  pose proof (sliding_pieces_do_not_jump knight_on_b1 ms E) as H.
  eapply Forall_impl; [|exact H]. cbv beta. intros m Hm Hp.
  destruct (Hm White Rook Hp (or_introl eq_refl))
    as (dr & dc & j & _ & _ & _ & Hrook & _ & _ & Hr & Hc & _).
  destruct (Hrook eq_refl) as [-> | ->]; [left|right]; lia.
Defined.

(** X10. A knight move of [get_psuedo_legal_moves] ends one row and two
    columns, or two rows and one column, away from its start; a king move
    ends on one of the eight neighbouring squares, so no move of the list
    takes the king two squares; neither carries a promotion piece. *)
Theorem knight_and_king_steps (b : Board) (ms : list Move)
    (H : get_psuedo_legal_moves b = Ok ms) :
  Forall (fun m =>
            let dr := Z.abs (end_row m - start_row m) in
            let dc := Z.abs (end_col m - start_col m) in
            (forall c, piece_moved m = Piece c Knight ->
                       ((dr = 1 /\ dc = 2) \/ (dr = 2 /\ dc = 1))
                       /\ promoted_piece m = None)
            /\ (forall c, piece_moved m = Piece c King ->
                          dr <= 1 /\ dc <= 1 /\ (dr = 1 \/ dc = 1)
                          /\ promoted_piece m = None)) ms.
Proof.
  apply pseudo_legal_generated in H.
  eapply Forall_impl; [|exact H]. cbv beta zeta.
  intros m (_ & _ & _ & _ & Hs). unfold shaped in Hs.
  split; intros c Hp; rewrite Hp in Hs;
    destruct Hs as (Hn & (d & Hd & H1 & H2) & _);
    (split; [|try split; try split; try exact Hn]);
    cbn in Hd;
    repeat (destruct Hd as [<- | Hd]; [cbn [fst snd] in *; lia|]);
    contradiction.
Qed.

Lemma knight_and_king_steps_witness :
  exists ms,
    get_psuedo_legal_moves knight_on_b1 = Ok ms
    /\ existsb (fun m => piece_eqb (piece_moved m) (Piece White King)) ms = true
    /\ Forall (fun m => piece_moved m = Piece White King ->
                        Z.abs (end_col m - start_col m) <= 1) ms.
Proof.
  destruct (get_psuedo_legal_moves knight_on_b1) as [ms|] eqn:E; [|discriminate E].
  exists ms. split; [reflexivity|]. split; [vm_compute in E; inv_ok; reflexivity|].
  pose proof (knight_and_king_steps knight_on_b1 ms E) as H.
  eapply Forall_impl; [|exact H]. cbv beta zeta. intros m [_ Hm] Hp.
  apply (Hm White Hp).
Defined.

(** X11. A pawn move of [get_psuedo_legal_moves] is one of four: one square
    straight ahead onto an empty square; two squares straight ahead from the
    pawn's home row over an empty square onto an empty square; one square
    diagonally ahead onto a piece of the other colour; one square diagonally
    ahead onto the en-passant target, when no piece of the other colour
    stands there.  White pawns go up the board (towards row 0), black pawns
    down. *)
Theorem pawn_moves_have_four_shapes (b : Board) (ms : list Move)
    (H : get_psuedo_legal_moves b = Ok ms) :
  Forall (fun m =>
            forall c, piece_moved m = Piece c Pawn ->
              pawn_push c m
              \/ pawn_double_push (board_array b) c m
              \/ pawn_takes c m
              \/ pawn_takes_en_passant (en_passant_square b) c m) ms.
Proof.
  apply pseudo_legal_generated in H.
  eapply Forall_impl; [|exact H]. cbv beta.
  intros m (_ & _ & _ & _ & Hs) c Hp. unfold shaped in Hs. rewrite Hp in Hs.
  apply Hs.
Qed.

Lemma pawn_moves_have_four_shapes_witness :
  exists ms,
    get_psuedo_legal_moves en_passant_ready = Ok ms
    /\ existsb (fun m => String.eqb (uci m) "e5d6") ms = true
    /\ Forall (fun m => piece_moved m = Piece White Pawn ->
                        end_row m < start_row m) ms.
Proof.
  destruct (get_psuedo_legal_moves en_passant_ready) as [ms|] eqn:E; [|discriminate E].
  exists ms. split; [reflexivity|]. split; [vm_compute in E; inv_ok; reflexivity|].
  pose proof (pawn_moves_have_four_shapes en_passant_ready ms E) as H.
  eapply Forall_impl; [|exact H]. cbv beta. intros m Hm Hp.
  destruct (Hm White Hp) as [Hs | [Hs | [Hs | Hs]]];
    destruct Hs as (_ & -> & _); cbn; lia.
Defined.

(** X12. Among the moves of [get_psuedo_legal_moves], a promotion piece is
    carried only by pawn moves that end on the last rank of the pawn's
    colour, and it is a queen, knight, rook or bishop; conversely every pawn
    move that ends on that rank carries one, unless it ends on the
    en-passant target.  A white pawn is never moved straight ahead onto row
    0: the advance is guarded by [1 <= row + direction], so that White
    promotes by capturing only. *)
Theorem promotions_on_the_last_rank (b : Board) (ms : list Move)
    (H : get_psuedo_legal_moves b = Ok ms) :
  Forall (fun m =>
            (forall k, promoted_piece m = Some k ->
               In k [Queen; Knight; Rook; Bishop]
               /\ exists c, piece_moved m = Piece c Pawn /\ end_row m = last_row c)
            /\ (forall c, piece_moved m = Piece c Pawn ->
                  end_row m = last_row c ->
                  en_passant_square b <> Some (end_row m, end_col m) ->
                  promoted_piece m <> None)
            /\ (piece_moved m = Piece White Pawn ->
                end_col m = start_col m -> 1 <= end_row m)) ms.
Proof.
  apply pseudo_legal_generated in H.
  eapply Forall_impl; [|exact H]. cbv beta.
  intros m Hm. destruct (generated_moved _ _ _ _ Hm) as (kd & Hkd).
  destruct Hm as (_ & _ & _ & _ & Hs). unfold shaped in Hs. rewrite Hkd in Hs.
  assert (forall c, piece_moved m = Piece c Pawn ->
            pawn_shape (board_array b) (en_passant_square b) c m) as Hpawn.
  { intros c Hp. rewrite Hkd in Hp. injection Hp as <- ->. exact Hs. }
  split; [|split].
  - intros k Hk. destruct kd;
      try (destruct Hs as (Hn & _); congruence).
    destruct Hs as [Hcases Hin]. split; [auto|].
    exists (side (white_to_move b)). split; [exact Hkd|].
    destruct Hcases as [Hp | [Hp | [Hp | Hp]]].
    + destruct Hp as (_ & _ & _ & _ & Hiff). apply Hiff. congruence.
    + destruct Hp as (_ & _ & _ & _ & _ & Hn). congruence.
    + destruct Hp as (_ & _ & _ & Hiff). apply Hiff. congruence.
    + destruct Hp as (_ & _ & _ & _ & Hn). congruence.
  - intros c Hp Hlast Hep. destruct (Hpawn c Hp) as [[Hc | [Hc | [Hc | Hc]]] _].
    + destruct Hc as (_ & _ & _ & _ & Hiff). now apply Hiff.
    + destruct Hc as (_ & H2 & H3 & _). exfalso. destruct c; cbn in *; lia.
    + destruct Hc as (_ & _ & _ & Hiff). now apply Hiff.
    + destruct Hc as (_ & _ & _ & H4 & _). contradiction.
  - intros Hp Hcol. destruct (Hpawn White Hp) as [[Hc | [Hc | [Hc | Hc]]] _].
    + destruct Hc as (_ & _ & _ & H4 & _). exact H4.
    + destruct Hc as (_ & H2 & H3 & _). cbn in *. lia.
    + destruct Hc as ([H1 | H1] & _); lia.
    + destruct Hc as ([H1 | H1] & _); lia.
Qed.

(** The white pawn on a7 has no move although a8 is empty. *)
Lemma promotions_on_the_last_rank_witness :
  exists ms,
    get_psuedo_legal_moves pawns_on_seventh = Ok ms
    /\ at_ (board_array pawns_on_seventh) 1 0 = Ok (Piece White Pawn)
    /\ at_ (board_array pawns_on_seventh) 0 0 = Ok Empty
    /\ Forall (fun m => piece_moved m = Piece White Pawn ->
                        end_col m = start_col m -> 1 <= end_row m) ms
    /\ existsb (fun m => piece_eqb (piece_moved m) (Piece White Pawn)) ms = false.
Proof.
  destruct (get_psuedo_legal_moves pawns_on_seventh) as [ms|] eqn:E; [|discriminate E].
  exists ms. split; [reflexivity|]. split; [reflexivity|]. split; [reflexivity|].
  split; [|vm_compute in E; inv_ok; reflexivity].
  pose proof (promotions_on_the_last_rank pawns_on_seventh ms E) as H.
  eapply Forall_impl; [|exact H]. cbv beta. intros m Hm. apply Hm.
Defined.

(** ** What making and taking back moves does to the other fields *)

(** The en-passant target and the two end-of-game flags. *)
Definition aux (b : Board) := (en_passant_square b, is_checkmate b, is_draw b).

Lemma assign_aux r c p b b' : assign r c p b = Ok b' -> aux b' = aux b.
Proof. unfold assign. intros H. inv_bind H. inv_ok. reflexivity. Qed.

Lemma copy_square_aux r c r' c' b b' :
  copy_square r c r' c' b = Ok b' -> aux b' = aux b.
Proof. unfold copy_square. intros H. inv_bind H. eauto using assign_aux. Qed.

Lemma update_king_pos_aux b b' : update_king_pos b = Ok b' -> aux b' = aux b.
Proof.
  unfold update_king_pos. intros H. inv_bind H. destruct x. inv_ok. reflexivity.
Qed.

Lemma make_aux (b b' : Board) (m : Move) :
  _make_psuedo_legal_move b m = Ok b' -> aux b' = aux b.
Proof.
  unfold _make_psuedo_legal_move.
  apply (try_block_inv (fun x => aux x = aux b)); [|reflexivity].
  repeat constructor; intros x y Hx Hy; rewrite <- Hx;
    repeat match type of Hy with
           | (if ?c then _ else _) = _ => destruct c
           | match ?c with _ => _ end = _ => destruct c
           end;
    inv_ok; eauto using assign_aux, copy_square_aux, update_king_pos_aux.
Qed.

Lemma undo_body_aux (in_engine : bool) (b b' : Board) (m : Move) (l : list Move) :
  undo_move_body in_engine b m l = Ok b' ->
  aux b' = (en_passant_after_undo m, false, false).
Proof.
  unfold undo_move_body. intros H.
  inv_bind H. apply assign_aux in E.
  inv_bind H. apply assign_aux in E0.
  inv_bind H. apply update_king_pos_aux in E1.
  inv_bind H.
  assert (aux x2 = (en_passant_after_undo m, false, false)) as E2'.
  { unfold en_passant_after_undo. revert E2.
    destruct (is_pawn (piece_moved m) && (Z.abs (start_row m - end_row m) =? 2)).
    - destruct (negb (start_col m =? end_col m) && is_empty (piece_captured m));
        intros E2; [apply assign_aux in E2; rewrite E2|inv_ok];
        unfold aux in *; cbn in *; congruence.
    - intros E2. inv_ok. unfold aux in *. cbn in *. congruence. }
  rewrite <- E2'. revert H.
  repeat match goal with
         | |- (if ?c then _ else _) = _ -> _ => destruct c
         end; intros H; inv_ok; try reflexivity;
    inv_bind H; apply copy_square_aux in E3; apply assign_aux in H; congruence.
Qed.

Lemma make_undo_aux (b b1 b2 : Board) (m : Move) :
  _make_psuedo_legal_move b m = Ok b1 ->
  undo_move_in_engine b1 = Ok b2 ->
  aux b2 = (en_passant_after_undo m, false, false).
Proof.
  intros Hm Hu. apply make_frame in Hm.
  unfold undo_move_in_engine in Hu.
  assert (move_log b1 = (move_log b ++ [m])%list) as Hl
      by (unfold frame in Hm; congruence).
  rewrite Hl, rev_app_distr in Hu. simpl in Hu.
  eauto using undo_body_aux.
Qed.

(** The loop of [get_legal_moves] leaves the values of the candidate it tried
    last, which is the first of the list. *)
Lemma legality_filter_aux (moves : list Move) :
  forall b b' kept,
    legality_filter moves b = Ok (b', kept) ->
    aux b' = match moves with
             | [] => aux b
             | m :: _ => (en_passant_after_undo m, false, false)
             end.
Proof.
  destruct moves as [|m rest]; intros b b' kept H; simpl in H.
  - inv_ok. reflexivity.
  - inv_bind H. destruct x as [b0 kept0].
    inv_bind H. inv_bind H. rewrite flip_flip in H. inv_bind H. inv_ok.
    eauto using make_undo_aux.
Qed.

Lemma legality_filter_incl (moves : list Move) :
  forall b b' kept,
    legality_filter moves b = Ok (b', kept) -> incl kept moves.
Proof.
  induction moves as [|m rest IH]; intros b b' kept H; simpl in H.
  - inv_ok. apply incl_refl.
  - bind_as H r E. destruct r as [b0 kept0].
    bind_as H b1 E1. bind_as H chk E2. bind_as H b2 E3. inv_ok.
    apply IH in E. destruct chk.
    + now apply incl_tl.
    + apply incl_cons; [now left|now apply incl_tl].
Qed.

(** [update_is_check] returns the moves it was given, each with its check
    flag set, and leaves the values of the move it tried last. *)
Lemma update_is_check_moves (moves : list Move) :
  forall b b' out,
    update_is_check moves b = Ok (b', out) ->
    Forall2 (fun m m' => m' = set_is_check m (is_check m')) moves out.
Proof.
  induction moves as [|m rest IH]; intros b b' out H; simpl in H.
  - inv_ok. constructor.
  - inv_bind H. inv_bind H. inv_bind H. inv_bind H. destruct x2 as [b3 out3].
    inv_ok. constructor; [reflexivity|eauto].
Qed.

Lemma update_is_check_aux (moves : list Move) :
  forall b b' out,
    update_is_check moves b = Ok (b', out) ->
    aux b' = match rev moves with
             | [] => aux b
             | m :: _ => (en_passant_after_undo m, false, false)
             end.
Proof.
  induction moves as [|m rest IH]; intros b b' out H; simpl in H.
  - inv_ok. reflexivity.
  - inv_bind H. inv_bind H. inv_bind H. inv_bind H. destruct x2 as [b3 out3].
    inv_ok. apply IH in E2. rewrite E2. cbn [rev].
    destruct (rev rest) as [|m' t] eqn:Er; cbn [app].
    + eauto using make_undo_aux.
    + reflexivity.
Qed.

Lemma en_passant_after_undo_flag (m : Move) (v : bool) :
  en_passant_after_undo (set_is_check m v) = en_passant_after_undo m.
Proof. reflexivity. Qed.

Lemma update_is_check_last (moves : list Move) b b' out l m :
  update_is_check moves b = Ok (b', out) ->
  out = (l ++ [m])%list ->
  aux b' = (en_passant_after_undo m, false, false).
Proof.
  intros H Hout. pose proof (update_is_check_moves _ _ _ _ H) as HF.
  apply update_is_check_aux in H. rewrite Hout in HF.
  apply Forall2_app_inv_r in HF as (l1 & l2 & _ & H2 & ->).
  inversion H2 as [|x y l2' t' Hxy Ht]; subst. inversion Ht; subst.
  rewrite rev_app_distr in H. cbn in H. rewrite H, Hxy. reflexivity.
Qed.

Lemma get_legal_moves_aux (b b' : Board) (ms : list Move) :
  get_legal_moves b = Ok (b', ms) ->
  (forall l m, ms = (l ++ [m])%list ->
               aux b' = (en_passant_after_undo m, false, false))
  /\ (is_checkmate b = false -> is_draw b = false ->
      is_checkmate b' = false /\ is_draw b' = false).
Proof.
  unfold get_legal_moves. intros H.
  bind_as H pseudo Hp. bind_as H cands Hc. bind_as H r Hf. destruct r as [b1 kept].
  split.
  - intros l m Hl. eauto using update_is_check_last.
  - intros H1 H2. apply legality_filter_aux in Hf. apply update_is_check_aux in H.
    assert (is_checkmate b1 = false /\ is_draw b1 = false) as [K1 K2].
    { destruct cands; unfold aux in Hf; split; congruence. }
    destruct (rev kept); unfold aux in H; split; congruence.
Qed.

(** The steps of an accepted [make_legal_move]. *)
Lemma make_legal_move_steps (b b' : Board) (move : Move) :
  accepted b move = true ->
  make_legal_move b move = Ok b' ->
  exists mv b1 fen b3 b5 moves,
    find_move move (legal_moves b) = Some mv
    /\ _make_psuedo_legal_move b mv = Ok b1
    /\ board_to_fen b1 = Ok fen
    /\ update_en_passant_square
         (set_fen_log b1 (fen_log b1 ++ [remove_extra_details fen])%list) mv = Ok b3
    /\ get_legal_moves (set_halfmove_clock b3 (next_halfmove_clock (halfmove_clock b3) mv))
       = Ok (b5, moves)
    /\ ((moves = []
         /\ exists chk, in_check (set_legal_moves b5 moves) = Ok chk
                        /\ b' = if chk
                                then set_is_checkmate (set_legal_moves b5 moves) true
                                else set_is_draw (set_legal_moves b5 moves) true)
        \/ (moves <> []
            /\ b' = if Num.eq_int (halfmove_clock b5) 50 || repeated_thrice (fen_log b5)
                    then set_is_draw (set_legal_moves b5 moves) true
                    else set_legal_moves b5 moves)).
Proof.
  intros Ha Hm. unfold make_legal_move in Hm.
  fold (accepted b move) in Hm. rewrite Ha in Hm.
  destruct (find_move move (legal_moves b)) as [mv|]; [|discriminate].
  bind_as Hm b1 E1. bind_as Hm fen E2. bind_as Hm b3 E3. bind_as Hm r E4.
  destruct r as [b5 moves].
  exists mv, b1, fen, b3, b5, moves. repeat (split; [assumption || reflexivity|]).
  destruct moves as [|m0 rest].
  - left. split; [reflexivity|]. bind_as Hm chk E5. exists chk.
    split; [exact E5|]. destruct chk; inv_ok; reflexivity.
  - right. split; [discriminate|].
    cbn [halfmove_clock fen_log set_legal_moves] in Hm.
    destruct (Num.eq_int (halfmove_clock b5) 50 || repeated_thrice (fen_log b5));
      inv_ok; reflexivity.
Qed.

Lemma find_move_some (move mv : Move) (l : list Move) :
  find_move move l = Some mv -> In mv l /\ uci mv = uci move.
Proof.
  unfold find_move. intros H. apply find_some in H as [Hin He].
  split; [exact Hin|]. unfold Move_eq in He. now apply String.eqb_eq.
Qed.

Lemma frame_fields x ml w fm hc fl lm :
  frame x = (ml, w, fm, hc, fl, lm) ->
  move_log x = ml /\ white_to_move x = w /\ fullmove_number x = fm
  /\ halfmove_clock x = hc /\ fen_log x = fl /\ legal_moves x = lm.
Proof. unfold frame. intros H. injection H as <- <- <- <- <- <-. repeat split. Qed.

Lemma frame_eq_fields x y :
  frame x = frame y ->
  move_log x = move_log y /\ white_to_move x = white_to_move y
  /\ fullmove_number x = fullmove_number y /\ halfmove_clock x = halfmove_clock y
  /\ fen_log x = fen_log y /\ legal_moves x = legal_moves y.
Proof. apply frame_fields. Qed.

(** What an accepted move does to the logs, the turn and the move number. *)
Lemma accepted_move_steps (b b' : Board) (move : Move) :
  accepted b move = true ->
  make_legal_move b move = Ok b' ->
  exists mv entry,
    move_log b' = (move_log b ++ [mv])%list
    /\ white_to_move b' = negb (white_to_move b)
    /\ fullmove_number b' = fullmove_number b + (if white_to_move b then 0 else 1)
    /\ fen_log b' = (fen_log b ++ [entry])%list
    /\ find_move move (legal_moves b) = Some mv.
Proof.
  intros Ha Hm.
  destruct (make_legal_move_steps b b' move Ha Hm)
    as (mv & b1 & fen & b3 & b5 & moves & Hf & H1 & H2 & H3 & H5 & Hend).
  exists mv, (remove_extra_details fen).
  apply make_frame in H1. apply update_en_passant_square_frame in H3.
  apply get_legal_moves_frame in H5.
  assert (frame b' = (move_log b5, white_to_move b5, fullmove_number b5,
                      halfmove_clock b5, fen_log b5, legal_moves b')) as Hb'.
  { destruct Hend as [(_ & chk & _ & ->) | (_ & ->)];
      [destruct chk|destruct (_ || _)]; reflexivity. }
  apply frame_fields in Hb' as (A1 & A2 & A3 & _ & A5 & _).
  apply frame_eq_fields in H5 as (B1 & B2 & B3 & _ & B5 & _).
  apply frame_eq_fields in H3 as (C1 & C2 & C3 & _ & C5 & _).
  apply frame_fields in H1 as (D1 & D2 & D3 & _ & D5 & _).
  cbn in *. repeat split; try congruence.
  rewrite A3, B3, C3, D3. destruct (white_to_move b); reflexivity.
Qed.

(** X13. An accepted move is entered in the move log as the legal move with
    the same notation (with the castling and check flags of that legal
    move, not as the object submitted); the turn passes to the other side;
    the fullmove number grows by one after a move of Black and not after a
    move of White; one position is appended to [fen_log]. *)
Theorem accepted_move_advances_the_game (b b' : Board) (move : Move)
    (Ha : accepted b move = true)
    (Hm : make_legal_move b move = Ok b') :
  exists mv entry,
    find_move move (legal_moves b) = Some mv
    /\ In mv (legal_moves b) /\ uci mv = uci move
    /\ move_log b' = (move_log b ++ [mv])%list
    /\ white_to_move b' = negb (white_to_move b)
    /\ fullmove_number b' = fullmove_number b + (if white_to_move b then 0 else 1)
    /\ fen_log b' = (fen_log b ++ [entry])%list.
Proof.
  destruct (accepted_move_steps b b' move Ha Hm) as (mv & entry & H1 & H2 & H3 & H4 & Hf).
  exists mv, entry. destruct (find_move_some _ _ _ Hf) as [Hin Hu].
  repeat split; assumption.
Qed.

Lemma accepted_move_advances_the_game_witness :
  make_legal_move after_Nf3 g8f6 = Ok after_Nf3_Nf6
  /\ white_to_move after_Nf3 = false
  /\ white_to_move after_Nf3_Nf6 = true
  /\ fullmove_number after_Nf3 = 1
  /\ fullmove_number after_Nf3_Nf6 = 2.
Proof.
  assert (make_legal_move after_Nf3 g8f6 = Ok after_Nf3_Nf6) as E
      by (vm_compute; reflexivity).
  destruct (accepted_move_advances_the_game after_Nf3 after_Nf3_Nf6 g8f6
              ltac:(vm_compute; reflexivity) E)
    as (mv & entry & _ & _ & _ & _ & Hw & Hf & _).
  split; [exact E|]. split; [reflexivity|]. split; [rewrite Hw; reflexivity|].
  split; [reflexivity|]. rewrite Hf. reflexivity.
Defined.

Lemma update_en_passant_square_flags b move b' :
  update_en_passant_square b move = Ok b' ->
  is_checkmate b' = is_checkmate b /\ is_draw b' = is_draw b.
Proof.
  unfold update_en_passant_square.
  repeat match goal with
         | |- (if ?c then _ else _) = _ -> _ => destruct c
         | |- bind _ _ = _ -> _ => let H := fresh in intros H; inv_bind H; revert H
         end; intros HH; inv_ok; split; reflexivity.
Qed.

Lemma Board_init_steps (fen : string) (b : Board) :
  Board_init fen = Ok b ->
  exists g wtm cr ep halfmove fullmove f wk bk b' moves,
    fen_to_board fen = Ok (g, wtm, cr, ep, halfmove, fullmove)
    /\ fen_of g wtm cr ep halfmove fullmove = Ok f
    /\ get_king_locations g = Ok (wk, bk)
    /\ get_legal_moves
         (mkBoard g wtm cr ep halfmove fullmove [] [initial_fen_log_entry f]
                  wk bk false false [])
       = Ok (b', moves)
    /\ b = set_legal_moves b' moves.
Proof.
  unfold Board_init. intros H.
  bind_as H r E1. destruct r as [[[[[g wtm] cr] ep] halfmove] fullmove].
  bind_as H f E2. bind_as H k E3. destruct k as [wk bk].
  bind_as H r E4. destruct r as [b' moves]. inv_ok.
  exists g, wtm, cr, ep, halfmove, fullmove, f, wk, bk, b', moves. auto.
Qed.

(** X14. Validating moves overwrites the en-passant target.  When
    [get_legal_moves] returns a list that is not empty, [en_passant_square]
    holds what the undo of the last move of the list wrote: the end square
    of that move if it moves a pawn by two rows, [None] otherwise.  So it is
    on every board constructed from a FEN and after every accepted move,
    whatever target the FEN named or the move created; the legal moves
    themselves were generated before the overwriting. *)
Theorem validation_overwrites_en_passant :
  (forall b b' ms l m,
      get_legal_moves b = Ok (b', ms) -> ms = (l ++ [m])%list ->
      en_passant_square b' = en_passant_after_undo m)
  /\ (forall fen b l m,
        Board_init fen = Ok b -> legal_moves b = (l ++ [m])%list ->
        en_passant_square b = en_passant_after_undo m)
  /\ (forall b b' move l m,
        accepted b move = true -> make_legal_move b move = Ok b' ->
        legal_moves b' = (l ++ [m])%list ->
        en_passant_square b' = en_passant_after_undo m).
Proof.
  assert (forall b b' ms l m,
            get_legal_moves b = Ok (b', ms) -> ms = (l ++ [m])%list ->
            en_passant_square b' = en_passant_after_undo m) as K.
  { intros b b' ms l m H Hl. apply get_legal_moves_aux in H as [H _].
    specialize (H l m Hl). unfold aux in H. congruence. }
  split; [exact K|]. split.
  - intros fen b l m H Hl.
    apply Board_init_steps in H
      as (g & wtm & cr & ep & hm & fm & f & wk & bk & b' & moves & _ & _ & _ & H & ->).
    cbn in Hl |- *. eauto.
  - intros b b' move l m Ha Hm Hl.
    destruct (make_legal_move_steps b b' move Ha Hm)
      as (mv & b1 & fen & b3 & b5 & moves & _ & _ & _ & _ & H5 & Hend).
    assert (en_passant_square b' = en_passant_square b5 /\ legal_moves b' = moves) as [-> E].
    { destruct Hend as [(_ & chk & _ & ->) | (_ & ->)];
        [destruct chk|destruct (_ || _)]; split; reflexivity. }
    rewrite E in Hl. eauto.
Qed.

(** The FEN names d6, the board constructed from it holds no target; the
    board of the position after 1. Nf3 holds h5, the end square of the last
    legal move h7h5. *)
Lemma validation_overwrites_en_passant_witness :
  (r <- fen_to_board two_knights_fen ;;
   let '(_, _, _, ep, _, _) := r in Ok ep) = Ok (Some (2, 3))
  /\ Board_init two_knights_fen = Ok two_knights
  /\ en_passant_square two_knights = None
  /\ en_passant_square after_Nf3 = Some (3, 7).
Proof.
  split; [reflexivity|].
  assert (Board_init two_knights_fen = Ok two_knights) as E1 by (vm_compute; reflexivity).
  assert (Board_init after_Nf3_fen = Ok after_Nf3) as E2 by (vm_compute; reflexivity).
  destruct validation_overwrites_en_passant as (_ & H & _).
  split; [exact E1|]. split.
  - rewrite (H two_knights_fen two_knights
               (removelast (legal_moves two_knights))
               (List.last (legal_moves two_knights) e2e5) E1 ltac:(reflexivity)).
    reflexivity.
  - rewrite (H after_Nf3_fen after_Nf3
               (removelast (legal_moves after_Nf3))
               (List.last (legal_moves after_Nf3) e2e5) E2 ltac:(reflexivity)).
    reflexivity.
Defined.

(** X15. How an accepted move ends the game.  When the board reached has no
    legal move, it is flagged as checkmate if the side to move is in check
    and as a draw if not, never both.  When it has a legal move, it is not
    flagged as checkmate, and it is flagged as a draw exactly when some
    position occurs three times in [fen_log]: the halfmove clock is 0 after
    every accepted move and its test against 50 never succeeds. *)
Theorem end_of_game_flags (b b' : Board) (move : Move)
    (Ha : accepted b move = true)
    (Hm : make_legal_move b move = Ok b') :
  (legal_moves b' = [] ->
   exists chk, in_check b' = Ok chk
               /\ is_checkmate b' = chk /\ is_draw b' = negb chk)
  /\ (legal_moves b' <> [] ->
      is_checkmate b' = false
      /\ is_draw b' = repeated_thrice (fen_log b')
      /\ Num.eq_int (halfmove_clock b') 50 = false).
Proof.
  destruct (make_legal_move_steps b b' move Ha Hm)
    as (mv & b1 & fen & b3 & b5 & moves & _ & H1 & _ & H3 & H5 & Hend).
  assert (is_checkmate b5 = false /\ is_draw b5 = false) as [F1 F2].
  { unfold accepted in Ha. apply andb_true_iff in Ha as [Ha Hd].
    apply andb_true_iff in Ha as [_ Hc]. apply negb_true_iff in Hc, Hd.
    apply make_aux in H1. apply update_en_passant_square_flags in H3 as [G1 G2].
    apply get_legal_moves_aux in H5 as [_ H5]. unfold aux in H1. cbn in *.
    apply H5; congruence. }
  assert (halfmove_clock b5 = Int 0) as Hc.
  { apply get_legal_moves_frame in H5.
    apply frame_eq_fields in H5 as (_ & _ & _ & -> & _).
    apply next_halfmove_clock_zero. }
  destruct Hend as [(-> & chk & Hchk & ->) | (Hne & ->)].
  - split.
    + intros _. exists chk. destruct chk; cbn; auto.
    + intros Hx. exfalso. destruct chk; cbn in Hx; congruence.
  - split.
    + intros Hx. exfalso. destruct (_ || _); cbn in Hx; congruence.
    + intros _. rewrite Hc. change (Num.eq_int (Int 0) 50) with false. cbn [orb].
      destruct (repeated_thrice (fen_log b5)) eqn:Hr;
        cbn [is_checkmate is_draw fen_log halfmove_clock set_is_draw set_legal_moves];
        rewrite Hr, Hc; repeat split; assumption.
Qed.

Lemma end_of_game_flags_witness :
  make_legal_move after_Nf3 g8f6 = Ok after_Nf3_Nf6
  /\ is_checkmate after_Nf3_Nf6 = false
  /\ is_draw after_Nf3_Nf6 = false.
Proof.
  assert (make_legal_move after_Nf3 g8f6 = Ok after_Nf3_Nf6) as E
      by (vm_compute; reflexivity).
  destruct (end_of_game_flags after_Nf3 after_Nf3_Nf6 g8f6
              ltac:(vm_compute; reflexivity) E) as [_ H].
  destruct H as (H1 & H2 & _); [vm_compute; discriminate|].
  split; [exact E|]. split; [exact H1|]. rewrite H2. vm_compute. reflexivity.
Defined.

Lemma undo_body_fields (in_engine : bool) (b b' : Board) (m : Move) (l : list Move) :
  undo_move_body in_engine b m l = Ok b' ->
  move_log b' = l
  /\ white_to_move b' = negb (white_to_move b)
  /\ fullmove_number b' = fullmove_number b - (if white_to_move b then 1 else 0)
  /\ fen_log b' = fen_log b
  /\ legal_moves b' = legal_moves b.
Proof.
  unfold undo_move_body. intros H.
  bind_as H x E. apply assign_frame in E.
  bind_as H x0 E0. apply assign_frame in E0.
  bind_as H x1 E1. apply update_king_pos_frame in E1.
  bind_as H x2 E2.
  assert (frame x2 = frame x1) as E2'.
  { revert E2.
    repeat match goal with
           | |- (if ?c then _ else _) = _ -> _ => destruct c
           end; intros E2; inv_ok; try reflexivity.
    apply assign_frame in E2. rewrite E2. reflexivity. }
  assert (frame b' = frame x2) as E3.
  { revert H.
    repeat match goal with
           | |- (if ?c then _ else _) = _ -> _ => destruct c
           end; intros H; inv_ok; try reflexivity;
      inv_bind H; apply copy_square_frame in E3; apply assign_frame in H; congruence. }
  rewrite E2', E1 in E3.
  apply frame_eq_fields in E3 as (A1 & A2 & A3 & _ & A5 & A6).
  apply frame_eq_fields in E0 as (B1 & B2 & B3 & _ & B5 & B6).
  apply frame_eq_fields in E as (C1 & C2 & C3 & _ & C5 & C6).
  cbn in *. repeat split; congruence.
Qed.

Lemma pop_snoc {A : Type} (l : list A) (x : A) : Py.pop (l ++ [x]) = Ok (l, x).
Proof. unfold Py.pop. rewrite rev_app_distr. cbn. now rewrite rev_involutive. Qed.

(** X16. Taking back an accepted move with [undo_move()] gives back the move
    log, the side to move, the fullmove number and the position log of the
    board the move was made on, and a board that is flagged neither as
    checkmate nor as a draw. *)
Theorem undo_takes_back_the_logs (b b1 b2 : Board) (move : Move)
    (Ha : accepted b move = true)
    (Hm : make_legal_move b move = Ok b1)
    (Hu : undo_move false b1 = Ok b2) :
  move_log b2 = move_log b
  /\ white_to_move b2 = white_to_move b
  /\ fullmove_number b2 = fullmove_number b
  /\ fen_log b2 = fen_log b
  /\ is_checkmate b2 = false /\ is_draw b2 = false.
Proof.
  destruct (accepted_move_steps b b1 move Ha Hm)
    as (mv & entry & Hlog & Hw & Hf & Hfen & _).
  unfold undo_move in Hu. rewrite Hlog, rev_app_distr in Hu. cbn [rev app] in Hu.
  rewrite rev_involutive in Hu.
  bind_as Hu b3 E1. cbn iota in Hu.
  bind_as Hu p E2. destruct p as [fens last_fen].
  bind_as Hu r E3. destruct r as [b4 moves]. inv_ok.
  pose proof (undo_body_aux _ _ _ _ _ E1) as Haux.
  apply undo_body_fields in E1 as (A1 & A2 & A3 & A4 & _).
  rewrite A4, Hfen, pop_snoc in E2. inv_ok.
  pose proof (get_legal_moves_frame _ _ _ E3) as Hfr.
  apply frame_eq_fields in Hfr as (B1 & B2 & B3 & _ & B5 & _).
  apply get_legal_moves_aux in E3 as [_ Hflags].
  unfold aux in Haux. cbn in *.
  destruct Hflags as [F1 F2]; try congruence.
  repeat split; try congruence.
  - rewrite B2, A2, Hw. apply negb_involutive.
  - rewrite B3, A3, Hw, Hf. destruct (white_to_move b); cbn; lia.
Qed.

(** The move log and the move number are back; the halfmove clock, 1 before
    the move, is not. *)
Lemma undo_takes_back_the_logs_witness :
  make_legal_move after_Nf3 g8f6 = Ok after_Nf3_Nf6
  /\ undo_move false after_Nf3_Nf6 = Ok after_Nf3_undone
  /\ move_log after_Nf3_undone = move_log after_Nf3
  /\ fen_log after_Nf3_undone = fen_log after_Nf3
  /\ fullmove_number after_Nf3_undone = 1
  /\ halfmove_clock after_Nf3 = Int 1
  /\ halfmove_clock after_Nf3_undone = Int 0.
Proof.
  assert (make_legal_move after_Nf3 g8f6 = Ok after_Nf3_Nf6) as E
      by (vm_compute; reflexivity).
  assert (undo_move false after_Nf3_Nf6 = Ok after_Nf3_undone) as E'
      by (vm_compute; reflexivity).
  destruct (undo_takes_back_the_logs after_Nf3 after_Nf3_Nf6 after_Nf3_undone g8f6
              ltac:(vm_compute; reflexivity) E E')
    as (H1 & _ & H3 & H4 & _).
  split; [exact E|]. split; [exact E'|]. split; [exact H1|]. split; [exact H4|].
  split; [rewrite H3; reflexivity|]. split; reflexivity.
Defined.

(** X17. A board constructed from a FEN has an empty move log and one
    entry in its position log, and it is flagged neither as checkmate nor as
    a draw, whatever the position: the constructor computes the legal moves
    and never looks at the end of the game.  [undo_move] leaves such a board
    as it is, and a board without legal moves rejects every move. *)
Theorem constructed_board_is_fresh (fen : string) (b : Board)
    (H : Board_init fen = Ok b) :
  move_log b = []
  /\ (exists entry, fen_log b = [entry])
  /\ is_checkmate b = false /\ is_draw b = false
  /\ (forall in_engine, undo_move in_engine b = Ok b)
  /\ (legal_moves b = [] -> forall move, make_legal_move b move = Ok b).
Proof.
  apply Board_init_steps in H
    as (g & wtm & cr & ep & hm & fm & f & wk & bk & b' & moves & _ & _ & _ & H & ->).
  pose proof (get_legal_moves_frame _ _ _ H) as Hfr.
  apply frame_eq_fields in Hfr as (A1 & _ & _ & _ & A5 & _).
  apply get_legal_moves_aux in H as [_ Hflags].
  destruct (Hflags eq_refl eq_refl) as [F1 F2].
  cbn in *.
  split; [exact A1|]. split; [eauto|]. split; [exact F1|]. split; [exact F2|].
  split.
  - intros in_engine. unfold undo_move. cbn [move_log set_legal_moves].
    rewrite A1. reflexivity.
  - intros -> move. unfold make_legal_move. reflexivity.
Qed.

(** Black is mated on the board constructed from [mated_fen], and the board
    is not flagged. *)
Lemma constructed_board_is_fresh_witness :
  Board_init mated_fen = Ok mated
  /\ legal_moves mated = []
  /\ in_check mated = Ok true
  /\ is_checkmate mated = false
  /\ make_legal_move mated e2e5 = Ok mated.
Proof.
  assert (Board_init mated_fen = Ok mated) as E by (vm_compute; reflexivity).
  destruct (constructed_board_is_fresh mated_fen mated E) as (_ & _ & H3 & _ & _ & H6).
  split; [exact E|]. split; [reflexivity|]. split; [vm_compute; reflexivity|].
  split; [exact H3|]. apply H6. reflexivity.
Defined.

(** ** Where the legal moves come from *)

Lemma Forall2_flagged_in (cands out : list Move) :
  Forall2 (fun m m' => m' = set_is_check m (is_check m')) cands out ->
  Forall (fun m' => exists c, In c cands /\ m' = set_is_check c (is_check m')) out.
Proof.
  induction 1 as [|c m cands out Hc _ IH]; constructor.
  - exists c. split; [now left|exact Hc].
  - eapply Forall_impl; [|exact IH].
    intros m' (c' & Hin & E). exists c'. split; [now right|exact E].
Qed.

(** X18. [get_legal_moves] only removes candidates.  Every move it returns
    is a move of [get_psuedo_legal_moves] or one of the castling moves that
    [get_castling_moves] appended for the king of the side to move, with
    nothing changed but its check flag; the moves with the castling flag
    are the appended ones, and there are no more legal moves than
    candidates. *)
Theorem legal_moves_are_candidates (b b' : Board) (ms : list Move)
    (H : get_legal_moves b = Ok (b', ms)) :
  exists pseudo castlings,
    get_psuedo_legal_moves b = Ok pseudo
    /\ (let k := if white_to_move b then white_king_pos b else black_king_pos b in
        get_castling_moves b (fst k) (snd k) pseudo = Ok (pseudo ++ castlings)%list)
    /\ Forall (fun m =>
                 exists c, m = set_is_check c (is_check m)
                           /\ (if is_castling m then In c castlings else In c pseudo)) ms
    /\ (List.length ms <= List.length pseudo + List.length castlings)%nat.
Proof.
  unfold get_legal_moves in H.
  bind_as H pseudo Hp. bind_as H cands Hc. bind_as H r Hf. destruct r as [b1 kept].
  pose proof (get_castling_moves_appends _ _ _ _ _ Hc) as (castlings & -> & Hflag).
  exists pseudo, castlings. split; [exact Hp|]. split; [exact Hc|].
  pose proof (legality_filter_incl _ _ _ _ Hf) as Hincl.
  pose proof (update_is_check_moves _ _ _ _ H) as HF.
  pose proof (pseudo_legal_not_castling _ _ Hp) as Hplain.
  split.
  - apply Forall2_flagged_in in HF.
    eapply Forall_impl; [|exact HF].
    intros m (c & Hin & E). exists c. split; [exact E|].
    apply Hincl, in_app_or in Hin.
    assert (is_castling m = is_castling c) as -> by (rewrite E; reflexivity).
    rewrite Forall_forall in Hplain, Hflag.
    destruct Hin as [Hin | Hin].
    + rewrite (Hplain _ Hin). exact Hin.
    + rewrite (Hflag _ Hin). exact Hin.
  - apply Forall2_length in HF. rewrite <- HF, <- length_app.
    clear - Hf. revert b b1 kept Hf.
    generalize (pseudo ++ castlings)%list as moves.
    induction moves as [|m rest IH]; intros b b1 kept H; simpl in H.
    + inv_ok. simpl. lia.
    + bind_as H r E. destruct r as [b0 kept0].
      bind_as H b2 E1. bind_as H chk E2. bind_as H b3 E3. inv_ok.
      apply IH in E. destruct chk; simpl; lia.
Qed.

Lemma legal_moves_are_candidates_witness :
  exists pseudo castlings,
    get_psuedo_legal_moves knight_on_b1 = Ok pseudo
    /\ get_castling_moves knight_on_b1 7 4 pseudo = Ok (pseudo ++ castlings)%list
    /\ Forall (fun m =>
                 exists c, m = set_is_check c (is_check m)
                           /\ (if is_castling m then In c castlings else In c pseudo))
              (legal_moves knight_on_b1).
Proof.
  destruct (get_legal_moves knight_on_b1) as [[b' ms]|] eqn:E.
  - destruct (legal_moves_are_candidates knight_on_b1 b' ms E)
      as (pseudo & castlings & Hp & Hc & HF & _).
    exists pseudo, castlings. split; [exact Hp|]. split; [exact Hc|].
    replace (legal_moves knight_on_b1) with ms; [exact HF|].
    revert E. vm_compute. intros E. injection E as _ <-. reflexivity.
  - exfalso. revert E. vm_compute. discriminate.
Defined.

(** ** Squares of an 8x8 grid *)

Lemma set_nth_some {A : Type} (l : list A) (n : nat) (x : A) :
  (n < List.length l)%nat -> exists l', Py.set_nth l n x = Some l'.
Proof.
  revert n. induction l as [|h t IH]; intros n H; simpl in H; [lia|].
  destruct n as [|n]; simpl.
  - eauto.
  - destruct (IH n) as [l' ->]; [lia|]. simpl. eauto.
Qed.

Lemma set_nth_nth {A : Type} (l l' : list A) (n : nat) (x : A) :
  Py.set_nth l n x = Some l' ->
  List.length l' = List.length l
  /\ forall m, nth_error l' m = if (m =? n)%nat then Some x else nth_error l m.
Proof.
  revert n l'. induction l as [|h t IH]; intros n l' H; simpl in H; [discriminate|].
  destruct n as [|n].
  - injection H as <-. split; [reflexivity|]. intros [|m]; reflexivity.
  - destruct (Py.set_nth t n x) as [t'|] eqn:E; [|discriminate].
    simpl in H. injection H as <-. destruct (IH _ _ E) as [Hl Hn].
    split; [simpl; congruence|]. intros [|m]; [reflexivity|]. simpl. apply Hn.
Qed.

Lemma store_nat {A : Type} (l : list A) (i : nat) (x : A) :
  Py.store l (Z.of_nat i) x
  = match Py.set_nth l i x with Some l' => Ok l' | None => Raise IndexError end.
Proof.
  assert ((Z.of_nat i <? 0) = false) as E0 by (apply Z.ltb_ge; lia).
  unfold Py.store. cbv zeta. rewrite !E0. now rewrite Nat2Z.id.
Qed.

(** A square of the board as two indices below 8. *)
Lemma in_range8_nat (x : Z) :
  in_range8 x = true -> exists i, x = Z.of_nat i /\ (i < 8)%nat.
Proof. intros H. b2p. exists (Z.to_nat x). lia. Qed.

Lemma grid_8x8_row (g : grid) (i : nat) :
  grid_8x8 g = true -> (i < 8)%nat ->
  exists row, nth_error g i = Some row /\ List.length row = 8%nat.
Proof.
  intros Hg Hi. apply grid_8x8_rows in Hg as [Hl Hrows].
  destruct (nth_error g i) as [row|] eqn:E.
  - exists row. split; [reflexivity|].
    rewrite Forall_forall in Hrows. eauto using nth_error_In.
  - apply nth_error_None in E. lia.
Qed.

Lemma grid_8x8_intro (g : grid) :
  List.length g = 8%nat ->
  (forall i row, nth_error g i = Some row -> List.length row = 8%nat) ->
  grid_8x8 g = true.
Proof.
  intros Hl Hrows. unfold grid_8x8. apply andb_true_iff. split; [now apply Nat.eqb_eq|].
  apply forallb_forall. intros row Hin. apply Nat.eqb_eq.
  apply In_nth_error in Hin as [i Hi]. eauto.
Qed.

(** What [put] does on an 8x8 grid, in terms of indices. *)
Lemma put_nat (g : grid) (i j : nat) (p : piece) :
  grid_8x8 g = true -> (i < 8)%nat -> (j < 8)%nat ->
  exists row row' g',
    nth_error g i = Some row
    /\ Py.set_nth row j p = Some row'
    /\ Py.set_nth g i row' = Some g'
    /\ put g (Z.of_nat i) (Z.of_nat j) p = Ok g'.
Proof.
  intros Hg Hi Hj.
  destruct (grid_8x8_row g i Hg Hi) as (row & Hrow & Hlen).
  destruct (set_nth_some row j p) as [row' Hrow']; [lia|].
  destruct (set_nth_some g i row') as [g' Hg'].
  { apply grid_8x8_rows in Hg. lia. }
  exists row, row', g'. repeat split; try assumption.
  unfold put. rewrite index_nat, Hrow. cbn [bind].
  rewrite store_nat, Hrow'. cbn [bind]. rewrite store_nat, Hg'. reflexivity.
Qed.

Section Squares.

Variable g : grid.
Hypothesis Hg : grid_8x8 g = true.

Lemma at_sq (r c : Z) :
  in_range8 r = true -> in_range8 c = true -> at_ g r c = Ok (sq g r c).
Proof.
  intros Hr Hc. unfold sq.
  destruct (at_total g r c Hg Hr Hc) as [p ->]. reflexivity.
Qed.

Lemma put_set (r c : Z) (p : piece) :
  in_range8 r = true -> in_range8 c = true -> put g r c p = Ok (set_sq g r c p).
Proof.
  intros Hr Hc. unfold set_sq.
  apply in_range8_nat in Hr as (i & -> & Hi). apply in_range8_nat in Hc as (j & -> & Hj).
  destruct (put_nat g i j p Hg Hi Hj) as (row & row' & g' & _ & _ & _ & ->). reflexivity.
Qed.

Lemma set_sq_8x8 (r c : Z) (p : piece) :
  in_range8 r = true -> in_range8 c = true -> grid_8x8 (set_sq g r c p) = true.
Proof.
  intros Hr Hc. unfold set_sq.
  apply in_range8_nat in Hr as (i & -> & Hi). apply in_range8_nat in Hc as (j & -> & Hj).
  destruct (put_nat g i j p Hg Hi Hj) as (row & row' & g' & Hrow & Hrow' & Hg' & ->).
  apply set_nth_nth in Hrow' as [Hl' _]. apply set_nth_nth in Hg' as [Hl Hn].
  destruct (grid_8x8_row g i Hg Hi) as (row0 & Hrow0 & Hlen0).
  assert (row0 = row) by congruence. subst row0.
  apply grid_8x8_intro.
  - apply grid_8x8_rows in Hg. lia.
  - intros k rw Hk. rewrite Hn in Hk. destruct (k =? i)%nat.
    + injection Hk as <-. lia.
    + apply nth_error_In in Hk. apply grid_8x8_rows in Hg as [_ Hrows].
      rewrite Forall_forall in Hrows. auto.
Qed.

Lemma sq_set_sq (r c r' c' : Z) (p : piece) :
  in_range8 r = true -> in_range8 c = true ->
  in_range8 r' = true -> in_range8 c' = true ->
  sq (set_sq g r c p) r' c' = if square_eqb (r', c') (r, c) then p else sq g r' c'.
Proof.
  intros Hr Hc Hr' Hc'. unfold set_sq, sq.
  apply in_range8_nat in Hr as (i & -> & Hi). apply in_range8_nat in Hc as (j & -> & Hj).
  apply in_range8_nat in Hr' as (i' & -> & Hi'). apply in_range8_nat in Hc' as (j' & -> & Hj').
  destruct (put_nat g i j p Hg Hi Hj) as (row & row' & g' & Hrow & Hrow' & Hg' & ->).
  apply set_nth_nth in Hrow' as [Hl' Hn']. apply set_nth_nth in Hg' as [Hl Hn].
  unfold at_. rewrite !index_nat, Hn.
  unfold square_eqb. cbn [fst snd].
  destruct (Nat.eqb_spec i' i) as [-> | Hne].
  - rewrite Z.eqb_refl, Hrow. cbn [bind andb]. rewrite !index_nat, Hn'.
    destruct (Nat.eqb_spec j' j) as [-> | Hne'].
    + now rewrite Z.eqb_refl.
    + replace (Z.of_nat j' =? Z.of_nat j) with false by (symmetry; apply Z.eqb_neq; lia).
      reflexivity.
  - replace (Z.of_nat i' =? Z.of_nat i) with false by (symmetry; apply Z.eqb_neq; lia).
    reflexivity.
Qed.

End Squares.

(** Two 8x8 grids with the same piece on every square are equal. *)
Lemma grid_ext (g g' : grid) :
  grid_8x8 g = true -> grid_8x8 g' = true ->
  (forall r c, in_range8 r = true -> in_range8 c = true -> sq g r c = sq g' r c) ->
  g = g'.
Proof.
  intros Hg Hg' H. apply nth_error_ext. intros i.
  destruct (Nat.lt_ge_cases i 8) as [Hi | Hi].
  - destruct (grid_8x8_row g i Hg Hi) as (row & Hrow & Hlen).
    destruct (grid_8x8_row g' i Hg' Hi) as (row' & Hrow' & Hlen').
    rewrite Hrow, Hrow'. f_equal. apply nth_error_ext. intros j.
    destruct (Nat.lt_ge_cases j 8) as [Hj | Hj].
    + assert (in_range8 (Z.of_nat i) = true /\ in_range8 (Z.of_nat j) = true) as [Ri Rj].
      { unfold in_range8. split; apply andb_true_iff; split;
          (apply Z.leb_le || apply Z.ltb_lt); lia. }
      specialize (H _ _ Ri Rj). unfold sq, at_ in H.
      rewrite !index_nat, Hrow, Hrow' in H. cbn [bind] in H. rewrite !index_nat in H.
      destruct (nth_error row j) eqn:E1, (nth_error row' j) eqn:E2;
        try congruence;
        match goal with
        | E : nth_error _ _ = None |- _ => apply nth_error_None in E; lia
        end.
    + transitivity (@None piece); [|symmetry]; apply nth_error_None; lia.
  - apply grid_8x8_rows in Hg as [Hl _]. apply grid_8x8_rows in Hg' as [Hl' _].
    transitivity (@None (list piece)); [|symmetry]; apply nth_error_None; lia.
Qed.

(** ** Making a move and taking it back, square by square *)

(** The grid when [_make_psuedo_legal_move] looks for the kings, and the grid
    it leaves. *)
Definition grid_mid (g : grid) (m : Move) : grid :=
  let g := if ep_shape m then set_sq g (end_row m + behind m) (end_col m) Empty else g in
  let g := set_sq g (start_row m) (start_col m) Empty in
  set_sq g (end_row m) (end_col m) (piece_moved m).

Definition grid_made (g : grid) (m : Move) : grid :=
  let g := grid_mid g m in
  let g := match promoted_piece m with
           | Some k => set_sq g (end_row m) (end_col m) (promoted_code m k)
           | None => g
           end in
  if is_castling m then
    if start_col m <? end_col m then
      set_sq (set_sq g (end_row m) (end_col m - 1) (sq g (end_row m) (end_col m + 1)))
             (end_row m) (end_col m + 1) Empty
    else if end_col m <? start_col m then
      set_sq (set_sq g (end_row m) (end_col m + 1) (sq g (end_row m) (end_col m - 2)))
             (end_row m) (end_col m - 2) Empty
    else g
  else g.

(** The board that [_make_psuedo_legal_move] leaves, the kings found on
    [wk] and [bk]. *)
Definition made (b : Board) (m : Move) (wk bk : square) : Board :=
  mkBoard (grid_made (board_array b) m) (negb (white_to_move b))
    (CR.update (castling_rights b) m) (en_passant_square b) (halfmove_clock b)
    (fullmove_number b + (if negb (white_to_move b) then 1 else 0))
    (move_log b ++ [m])%list (fen_log b) wk bk
    (is_checkmate b) (is_draw b) (legal_moves b).

(** The same for the in-engine undo of [m]. *)
Definition grid_back (g : grid) (m : Move) : grid :=
  set_sq (set_sq g (start_row m) (start_col m) (piece_moved m))
         (end_row m) (end_col m) (piece_captured m).

Definition grid_unmade (g : grid) (m : Move) : grid :=
  let g := grid_back g m in
  let g := if is_pawn (piece_moved m) && (Z.abs (start_row m - end_row m) =? 2)
              && (negb (start_col m =? end_col m) && is_empty (piece_captured m))
           then set_sq g (end_row m + behind m) (end_col m)
                  (Piece (if has_color (piece_moved m) Black then White else Black) Pawn)
           else g in
  if is_castling m then
    if start_col m <? end_col m then
      set_sq (set_sq g (end_row m) (end_col m + 1) (sq g (end_row m) (end_col m - 1)))
             (end_row m) (end_col m - 1) Empty
    else if end_col m <? start_col m then
      set_sq (set_sq g (end_row m) (end_col m - 2) (sq g (end_row m) (end_col m + 1)))
             (end_row m) (end_col m + 1) Empty
    else g
  else g.

Definition unmade (in_engine : bool) (b : Board) (m : Move) (log : list Move)
    (wk bk : square) : Board :=
  mkBoard (grid_unmade (board_array b) m) (negb (white_to_move b))
    (CR.undo_castling_rights (castling_rights b)) (en_passant_after_undo m)
    (if negb (Num.eq_int (halfmove_clock b) 0) && negb in_engine
     then Num.sub_half (halfmove_clock b)
     else Num.sub_zero (halfmove_clock b))
    (fullmove_number b - (if white_to_move b then 1 else 0))
    log (fen_log b) wk bk false false (legal_moves b).

Lemma assign_set (r c : Z) (p : piece) (b : Board) :
  grid_8x8 (board_array b) = true -> in_range8 r = true -> in_range8 c = true ->
  assign r c p b = Ok (set_board_array b (set_sq (board_array b) r c p)).
Proof. intros Hg Hr Hc. unfold assign. now rewrite put_set. Qed.

Lemma copy_square_set (r c r' c' : Z) (b : Board) :
  grid_8x8 (board_array b) = true ->
  in_range8 r = true -> in_range8 c = true ->
  in_range8 r' = true -> in_range8 c' = true ->
  copy_square r c r' c' b
  = Ok (set_board_array b (set_sq (board_array b) r c (sq (board_array b) r' c'))).
Proof.
  intros Hg Hr Hc Hr' Hc'. unfold copy_square. rewrite at_sq by assumption.
  cbn [bind]. now apply assign_set.
Qed.

Lemma get_king_locations_raises (g : grid) (e : exn) :
  get_king_locations g = Raise e -> e = SystemExit.
Proof. apply king_scan_exits. Qed.

Ltac board_fields :=
  cbn [board_array white_to_move castling_rights en_passant_square halfmove_clock
       fullmove_number move_log fen_log white_king_pos black_king_pos is_checkmate
       is_draw legal_moves set_board_array set_white_to_move set_castling_rights
       set_en_passant_square set_halfmove_clock set_fullmove_number set_move_log
       set_fen_log set_king_pos set_is_checkmate set_is_draw set_legal_moves].

Ltac grid_ok :=
  board_fields;
  repeat match goal with
         | |- grid_8x8 (set_sq _ _ _ _) = true => apply set_sq_8x8
         end; assumption.

Ltac assign_step :=
  first [ rewrite assign_set by grid_ok | rewrite copy_square_set by grid_ok ];
  board_fields; cbv iota.

(** [_make_psuedo_legal_move] on an 8x8 grid, for a move whose squares are on
    the board: no statement of the [try] block raises but the search for the
    kings, which ends the program. *)
Lemma make_eq (b : Board) (m : Move) :
  grid_8x8 (board_array b) = true -> move_on_board m = true ->
  _make_psuedo_legal_move b m
  = match get_king_locations (grid_mid (board_array b) m) with
    | Ok (wk, bk) => Ok (made b m wk bk)
    | Raise _ => Raise SystemExit
    end.
Proof.
  intros Hg Hm. unfold move_on_board in Hm.
  do 5 (apply andb_true_iff in Hm; destruct Hm as [Hm ?]).
  unfold _make_psuedo_legal_move, made, grid_made, grid_mid, update_king_pos.
  unfold ep_shape in *.
  cbn [try_block]. board_fields.
  destruct (is_pawn (piece_moved m) && negb (start_col m =? end_col m)
            && is_empty (piece_captured m)).
  - assign_step. assign_step. assign_step.
    destruct (get_king_locations _) as [[wk bk]|e] eqn:Ek; cbn [bind].
    2: { apply get_king_locations_raises in Ek. subst. reflexivity. }
    board_fields.
    destruct (promoted_piece m); [assign_step|];
      (destruct (is_castling m);
       [destruct (start_col m <? end_col m);
        [|destruct (end_col m <? start_col m)]|]);
      repeat match goal with
             | H : _ && _ = true |- _ => apply andb_true_iff in H; destruct H
             end;
      repeat assign_step; reflexivity.
  - assign_step. assign_step.
    destruct (get_king_locations _) as [[wk bk]|e] eqn:Ek; cbn [bind].
    2: { apply get_king_locations_raises in Ek. subst. reflexivity. }
    board_fields.
    destruct (promoted_piece m); [assign_step|];
      (destruct (is_castling m);
       [destruct (start_col m <? end_col m);
        [|destruct (end_col m <? start_col m)]|]);
      repeat match goal with
             | H : _ && _ = true |- _ => apply andb_true_iff in H; destruct H
             end;
      repeat assign_step; reflexivity.
Qed.

(** The body of [undo_move], likewise. *)
Lemma undo_body_eq (in_engine : bool) (b : Board) (m : Move) (log : list Move) :
  grid_8x8 (board_array b) = true -> move_on_board m = true ->
  undo_move_body in_engine b m log
  = ('(wk, bk) <- get_king_locations (grid_back (board_array b) m) ;;
     Ok (unmade in_engine b m log wk bk)).
Proof.
  intros Hg Hm. unfold move_on_board in Hm.
  do 5 (apply andb_true_iff in Hm; destruct Hm as [Hm ?]).
  unfold undo_move_body, unmade, grid_unmade, grid_back, update_king_pos,
    en_passant_after_undo.
  unfold ep_shape in *. board_fields.
  assign_step. cbn [bind]. assign_step. cbn [bind]. board_fields.
  destruct (get_king_locations _) as [[wk bk]|e] eqn:Ek; cbn [bind]; [|reflexivity].
  board_fields.
  destruct (is_pawn (piece_moved m)); cbn [andb] in *;
    destruct (Z.abs (start_row m - end_row m) =? 2); cbn [andb] in *;
    try (destruct (negb (start_col m =? end_col m) && is_empty (piece_captured m));
         [assign_step|]);
    cbn [bind]; board_fields;
    (destruct (is_castling m);
     [destruct (start_col m <? end_col m);
      [|destruct (end_col m <? start_col m)]|]);
    repeat match goal with
           | H : _ && _ = true |- _ => apply andb_true_iff in H; destruct H
           end;
    repeat (assign_step; cbn [bind]); reflexivity.
Qed.

Lemma undo_in_engine_made (b : Board) (m : Move) (wk bk : square) :
  grid_8x8 (grid_made (board_array b) m) = true -> move_on_board m = true ->
  undo_move_in_engine (made b m wk bk)
  = ('(wk', bk') <- get_king_locations (grid_back (grid_made (board_array b) m) m) ;;
     Ok (unmade true (made b m wk bk) m (move_log b) wk' bk')).
Proof.
  intros Hg Hm. unfold undo_move_in_engine.
  cbn [made move_log]. rewrite rev_app_distr. cbn [rev app].
  rewrite rev_involutive. now apply undo_body_eq.
Qed.

(** ** The grid after a move is made and taken back *)

Lemma grid_made_8x8 (g : grid) (m : Move) :
  grid_8x8 g = true -> move_on_board m = true -> grid_8x8 (grid_made g m) = true.
Proof.
  intros Hg Hm. unfold move_on_board in Hm.
  do 5 (apply andb_true_iff in Hm; destruct Hm as [Hm ?]).
  unfold grid_made, grid_mid.
  destruct (ep_shape m), (promoted_piece m), (is_castling m),
    (start_col m <? end_col m), (end_col m <? start_col m);
    repeat match goal with
           | H : _ && _ = true |- _ => apply andb_true_iff in H; destruct H
           end;
    repeat (apply set_sq_8x8; try assumption).
Qed.

Lemma grid_mid_8x8 (g : grid) (m : Move) :
  grid_8x8 g = true -> move_on_board m = true -> grid_8x8 (grid_mid g m) = true.
Proof.
  intros Hg Hm. unfold move_on_board in Hm.
  do 5 (apply andb_true_iff in Hm; destruct Hm as [Hm ?]).
  unfold grid_mid.
  destruct (ep_shape m); repeat (apply set_sq_8x8; try assumption).
Qed.

Ltac on_grid :=
  match goal with
  | |- grid_8x8 _ = true => assumption
  | |- in_range8 _ = true => first [assumption | reflexivity]
  end.

Ltac squares :=
  repeat (rewrite sq_set_sq
            by (repeat (apply set_sq_8x8; try on_grid); on_grid));
  unfold square_eqb; cbn [fst snd];
  repeat match goal with
         | |- context [?a =? ?b] =>
             destruct (Z.eqb_spec a b); try lia; cbn [andb]; subst
         end;
  try congruence.

(** A move that is neither a castling move nor an en-passant capture, made on
    the grid it was built on and taken back, leaves that grid. *)
Lemma plain_round_trip (g : grid) (m : Move) :
  grid_8x8 g = true -> move_on_board m = true ->
  sq g (start_row m) (start_col m) = piece_moved m ->
  sq g (end_row m) (end_col m) = piece_captured m ->
  ep_shape m = false -> is_castling m = false ->
  grid_unmade (grid_made g m) m = g.
Proof.
  intros Hg Hm Hs He Hep Hc.
  pose proof (grid_made_8x8 g m Hg Hm) as Hg1.
  revert Hg1. unfold grid_unmade, grid_back, grid_made, grid_mid.
  unfold move_on_board in Hm.
  do 5 (apply andb_true_iff in Hm; destruct Hm as [Hm ?]).
  rewrite Hc, Hep.
  assert (is_pawn (piece_moved m) && (Z.abs (start_row m - end_row m) =? 2)
          && (negb (start_col m =? end_col m) && is_empty (piece_captured m)) = false) as ->.
  { unfold ep_shape in Hep.
    destruct (is_pawn (piece_moved m)), (Z.abs (start_row m - end_row m) =? 2),
      (negb (start_col m =? end_col m)), (is_empty (piece_captured m));
      try reflexivity; discriminate Hep. }
  cbv zeta. intros Hg1.
  apply grid_ext; [|assumption|].
  - repeat (apply set_sq_8x8; try assumption).
  - intros r c Hr Hc'. destruct (promoted_piece m); squares.
Qed.

(** A castling move: the king goes two columns along its row over an empty
    square onto an empty square, and the piece in the corner beyond goes to
    the square the king passed. *)
Lemma castling_round_trip (g : grid) (m : Move) :
  grid_8x8 g = true -> move_on_board m = true ->
  sq g (start_row m) (start_col m) = piece_moved m ->
  sq g (end_row m) (end_col m) = Empty ->
  piece_captured m = Empty ->
  is_pawn (piece_moved m) = false -> promoted_piece m = None ->
  start_row m = end_row m ->
  (end_col m = start_col m + 2 \/ end_col m = start_col m - 2) ->
  sq g (end_row m) ((start_col m + end_col m) / 2) = Empty ->
  grid_unmade (grid_made g m) m = g.
Proof.
  intros Hg Hm Hs He Hcap Hp Hpr Hrow Hcol Hmid.
  pose proof (grid_made_8x8 g m Hg Hm) as Hg1.
  revert Hg1. unfold grid_unmade, grid_back, grid_made, grid_mid.
  unfold move_on_board in Hm.
  do 5 (apply andb_true_iff in Hm; destruct Hm as [Hm ?]).
  unfold ep_shape in *. rewrite Hp, Hpr, Hcap in *. cbn [andb] in *. cbv zeta.
  destruct (is_castling m).
  2: { intros Hg1. apply grid_ext; [|assumption|].
       - repeat (apply set_sq_8x8; try assumption).
       - intros r c Hr Hc'. squares. }
  destruct Hcol as [Hcol | Hcol].
  - assert ((start_col m <? end_col m) = true) as E by (apply Z.ltb_lt; lia).
    rewrite E in *. apply andb_true_iff in H as [Ha Hb].
    replace ((start_col m + end_col m) / 2) with (end_col m - 1) in Hmid
      by (rewrite Hcol; replace (start_col m + (start_col m + 2)) with ((start_col m + 1) * 2) by lia;
          rewrite Z.div_mul by lia; lia).
    intros Hg1. apply grid_ext; [|assumption|].
    + repeat (apply set_sq_8x8; try assumption).
    + intros r c Hr Hc'. squares.
  - assert ((start_col m <? end_col m) = false) as E by (apply Z.ltb_ge; lia).
    assert ((end_col m <? start_col m) = true) as E' by (apply Z.ltb_lt; lia).
    rewrite E, E' in *. apply andb_true_iff in H as [Ha Hb].
    replace ((start_col m + end_col m) / 2) with (end_col m + 1) in Hmid
      by (rewrite Hcol; replace (start_col m + (start_col m - 2)) with ((start_col m - 1) * 2) by lia;
          rewrite Z.div_mul by lia; lia).
    intros Hg1. apply grid_ext; [|assumption|].
    + repeat (apply set_sq_8x8; try assumption).
    + intros r c Hr Hc'. squares.
Qed.

(** ** The attack query does not depend on the en-passant target *)

(** Whether one of the moves generated ends on (r, c). *)
Definition hit (r c : Z) (ms : res (list Move)) : res bool :=
  l <- ms ;; Ok (existsb (ends_at r c) l).

Lemma hit_app (r c : Z) (x y : res (list Move)) :
  hit r c (a <- x ;; b <- y ;; Ok (a ++ b)%list)
  = (ha <- hit r c x ;; hb <- hit r c y ;; Ok (ha || hb)).
Proof.
  unfold hit. destruct x as [a|e]; cbn [bind]; [|reflexivity].
  destruct y as [b|e]; cbn [bind]; [|reflexivity].
  now rewrite existsb_app.
Qed.

Section EnPassantIrrelevant.

Variable g : grid.
Hypothesis Hg : grid_8x8 g = true.

(** The square asked about, which holds a piece of the colour [defender]. *)
Variables (kr kc : Z) (defender : color).
Hypothesis Hk : has_color (sq g kr kc) defender = true.

Variables ep1 ep2 : option square.

Lemma pawn_capture_hit row col direction (is_w is_b : bool) d_col :
  in_range8 row = true -> in_range8 col = true ->
  (if is_w then Black else White) = defender ->
  hit kr kc (pawn_capture g ep1 row col direction is_w is_b d_col)
  = hit kr kc (pawn_capture g ep2 row col direction is_w is_b d_col).
Proof.
  intros Hr Hc Hd. unfold pawn_capture.
  destruct (in_range8 (col + d_col) && in_range8 (row + direction)) eqn:Hin;
    [|reflexivity].
  apply andb_true_iff in Hin as [Hc' Hr'].
  rewrite (at_sq g Hg _ _ Hr' Hc'). cbn [bind]. rewrite Hd.
  destruct (has_color (sq g (row + direction) (col + d_col)) defender) eqn:Ht;
    [reflexivity|].
  assert (hit kr kc (m <- new_move g row col (row + direction) (col + d_col) ;; Ok [m])
          = hit kr kc (Ok [])) as Hnew.
  { unfold new_move.
    destruct (Move_init_total g row col (row + direction) (col + d_col) None false
                Hg Hr Hc Hr' Hc') as [m Hm].
    rewrite Hm. cbn [bind hit existsb]. rewrite orb_false_r.
    apply Move_init_fields in Hm as (_ & _ & Her & Hec & _).
    unfold ends_at. rewrite Her, Hec.
    destruct (Z.eqb_spec (row + direction) kr) as [E1|]; [|reflexivity].
    destruct (Z.eqb_spec (col + d_col) kc) as [E2|]; [|reflexivity].
    rewrite E1, E2 in Ht. congruence. }
  destruct (ep_is ep1 (row + direction) (col + d_col)),
           (ep_is ep2 (row + direction) (col + d_col));
    rewrite ?Hnew; reflexivity.
Qed.

Lemma hit_bind3 (x : res (list Move)) (y1 y2 z1 z2 : res (list Move)) :
  hit kr kc y1 = hit kr kc y2 -> hit kr kc z1 = hit kr kc z2 ->
  hit kr kc (f <- x ;; l <- y1 ;; r <- z1 ;; Ok (f ++ l ++ r)%list)
  = hit kr kc (f <- x ;; l <- y2 ;; r <- z2 ;; Ok (f ++ l ++ r)%list).
Proof.
  intros Hy Hz. destruct x as [f|e]; cbn [bind]; [|reflexivity].
  unfold hit in *.
  destruct y1 as [l1|e1], y2 as [l2|e2]; cbn [bind] in *; try congruence.
  destruct z1 as [r1|e1], z2 as [r2|e2]; cbn [bind] in *; try congruence.
  rewrite !existsb_app. congruence.
Qed.

Lemma pawn_moves_hit row col c :
  in_range8 row = true -> in_range8 col = true ->
  sq g row col = Piece c Pawn -> opposite c = defender ->
  hit kr kc (pawn_moves g ep1 row col) = hit kr kc (pawn_moves g ep2 row col).
Proof.
  intros Hr Hc Hp Hd. unfold pawn_moves.
  rewrite (at_sq g Hg _ _ Hr Hc), Hp. cbn [bind].
  apply hit_bind3; apply pawn_capture_hit; try assumption;
    destruct c; cbn in *; assumption.
Qed.

Variable wtm : bool.
Hypothesis Hside : side (negb wtm) = defender.

Lemma moves_from_hit row col :
  in_range8 row = true -> in_range8 col = true ->
  hit kr kc (moves_from g ep1 wtm row col) = hit kr kc (moves_from g ep2 wtm row col).
Proof.
  intros Hr Hc. unfold moves_from.
  rewrite (at_sq g Hg _ _ Hr Hc). cbn [bind].
  destruct (sq g row col) as [|c k] eqn:Hp; [reflexivity|].
  destruct ((color_eqb c White && wtm) || (color_eqb c Black && negb wtm)) eqn:Hturn;
    [|reflexivity].
  destruct k; try reflexivity.
  apply (pawn_moves_hit row col c); try assumption.
  rewrite <- Hside. destruct c, wtm; cbn in *; congruence.
Qed.

Lemma scan_cols_hit row cols :
  in_range8 row = true -> Forall (fun col => in_range8 col = true) cols ->
  hit kr kc (scan_cols g ep1 wtm row cols) = hit kr kc (scan_cols g ep2 wtm row cols).
Proof.
  intros Hr. induction 1 as [|col cols Hc _ IH]; cbn [scan_cols]; [reflexivity|].
  rewrite !hit_app, IH, (moves_from_hit row col Hr Hc). reflexivity.
Qed.

Lemma scan_rows_hit rows :
  Forall (fun row => in_range8 row = true) rows ->
  hit kr kc (scan_rows g ep1 wtm rows) = hit kr kc (scan_rows g ep2 wtm rows).
Proof.
  induction 1 as [|row rows Hr _ IH]; cbn [scan_rows]; [reflexivity|].
  rewrite !hit_app, IH, (scan_cols_hit row range8 Hr); [reflexivity|].
  repeat constructor.
Qed.

End EnPassantIrrelevant.

Lemma range8_range : Forall (fun x => in_range8 x = true) range8.
Proof. repeat constructor. Qed.

(** Two boards with the same grid, side to move and king squares give the
    same answer to [in_check], whatever their en-passant targets, when the
    king square of the side to move holds a piece of that side. *)
Lemma in_check_same (x y : Board) :
  grid_8x8 (board_array x) = true ->
  board_array y = board_array x ->
  white_to_move y = white_to_move x ->
  white_king_pos y = white_king_pos x ->
  black_king_pos y = black_king_pos x ->
  (let k := if white_to_move x then white_king_pos x else black_king_pos x in
   has_color (sq (board_array x) (fst k) (snd k)) (side (white_to_move x)) = true) ->
  in_check y = in_check x.
Proof.
  intros Hg Eg Ew Ewk Ebk Hk. unfold in_check, square_under_attack, get_psuedo_legal_moves.
  rewrite Ew, Ewk, Ebk. board_fields. rewrite ?Eg, ?Ew.
  fold (hit (fst (white_king_pos x)) (snd (white_king_pos x))
          (scan_rows (board_array x) (en_passant_square y) (negb (white_to_move x)) range8)).
  fold (hit (fst (black_king_pos x)) (snd (black_king_pos x))
          (scan_rows (board_array x) (en_passant_square y) (negb (white_to_move x)) range8)).
  fold (hit (fst (white_king_pos x)) (snd (white_king_pos x))
          (scan_rows (board_array x) (en_passant_square x) (negb (white_to_move x)) range8)).
  fold (hit (fst (black_king_pos x)) (snd (black_king_pos x))
          (scan_rows (board_array x) (en_passant_square x) (negb (white_to_move x)) range8)).
  destruct (white_to_move x) eqn:Hw; cbv zeta in Hk;
    eapply scan_rows_hit; eauto using range8_range;
    rewrite negb_involutive; reflexivity.
Qed.

(** ** Trying a candidate on the board *)

Lemma king_locations_on_board (g : grid) (w b : square) :
  grid_8x8 g = true -> get_king_locations g = Ok (w, b) ->
  (on_board w = true /\ sq g (fst w) (snd w) = Piece White King)
  /\ (on_board b = true /\ sq g (fst b) (snd b) = Piece Black King).
Proof.
  intros Hg H. unfold get_king_locations in H.
  apply (king_scan_sound
           (fun s p => on_board s = true /\ sq g (fst s) (snd s) = p) g 0 None None w b);
    try exact H; try (intros s Hs; discriminate Hs).
  intros j row i p Hj Hi. cbn [fst snd]. rewrite Z.add_0_l.
  assert (j < 8 /\ i < 8)%nat as [Hj8 Hi8].
  { pose proof (grid_8x8_rows g Hg) as [Hl Hrows]. rewrite Forall_forall in Hrows.
    pose proof (Hrows _ (nth_error_In _ _ Hj)) as Hlen.
    assert (nth_error g j <> None) as Hj' by congruence.
    assert (nth_error row i <> None) as Hi' by congruence.
    apply nth_error_Some in Hj', Hi'. lia. }
  split.
  - unfold on_board, in_range8. cbn [fst snd].
    repeat (apply andb_true_iff; split); (apply Z.leb_le || apply Z.ltb_lt); lia.
  - unfold sq. now rewrite (at_nat g j i row p Hj Hi).
Qed.

(** A candidate is sound on a grid when its squares are on the board, making
    it and taking it back gives the grid again, and making it moves no king
    after the kings were looked for. *)
Definition kings_kept (g : grid) (c : Move) : Prop :=
  forall r col,
    in_range8 r = true -> in_range8 col = true ->
    kind_of (sq (grid_mid g c) r col) = Some King ->
    sq (grid_made g c) r col = sq (grid_mid g c) r col.

Definition sound_candidate (g : grid) (c : Move) : Prop :=
  move_on_board c = true /\ grid_unmade (grid_made g c) c = g /\ kings_kept g c.

Lemma flip_made (b : Board) (c : Move) (wk bk : square) :
  white_to_move (flip_turn (made b c wk bk)) = white_to_move b
  /\ board_array (flip_turn (made b c wk bk)) = grid_made (board_array b) c
  /\ white_king_pos (flip_turn (made b c wk bk)) = wk
  /\ black_king_pos (flip_turn (made b c wk bk)) = bk.
Proof. unfold flip_turn, made. board_fields. now rewrite negb_involutive. Qed.

(** The trial of a sound candidate gives the same answers on two boards with
    the same grid and the same side to move. *)
Lemma trial_same (b x : Board) (c : Move) :
  grid_8x8 (board_array b) = true ->
  board_array x = board_array b -> white_to_move x = white_to_move b ->
  sound_candidate (board_array b) c ->
  leaves_king_safe x c = leaves_king_safe b c
  /\ gives_check x c = gives_check b c.
Proof.
  intros Hg Eg Ew (Hon & _ & Hkings).
  unfold leaves_king_safe, gives_check.
  rewrite !make_eq by (rewrite ?Eg; assumption). rewrite Eg.
  destruct (get_king_locations (grid_mid (board_array b) c)) as [[wk bk]|e] eqn:Ek;
    [|split; reflexivity].
  cbn [bind].
  destruct (king_locations_on_board _ _ _ (grid_mid_8x8 _ _ Hg Hon) Ek)
    as [[Hwb Hw] [Hbb Hb]].
  unfold on_board in Hwb, Hbb.
  apply andb_true_iff in Hwb as [Hw1 Hw2]. apply andb_true_iff in Hbb as [Hb1 Hb2].
  pose proof (grid_made_8x8 _ _ Hg Hon) as Hg1.
  assert (sq (grid_made (board_array b) c) (fst wk) (snd wk) = Piece White King) as Hw'.
  { rewrite Hkings; try assumption. now rewrite Hw. }
  assert (sq (grid_made (board_array b) c) (fst bk) (snd bk) = Piece Black King) as Hb'.
  { rewrite Hkings; try assumption. now rewrite Hb. }
  split.
  - rewrite (in_check_same (flip_turn (made b c wk bk)) (flip_turn (made x c wk bk)));
      [reflexivity|..];
      unfold flip_turn, made; board_fields; rewrite ?Eg, ?Ew; try reflexivity;
      try assumption.
    rewrite negb_involutive. destruct (white_to_move b); cbv zeta; rewrite ?Hw', ?Hb';
      reflexivity.
  - rewrite (in_check_same (made b c wk bk) (made x c wk bk));
      [reflexivity|..];
      unfold made; board_fields; rewrite ?Eg, ?Ew; try reflexivity; try assumption.
    destruct (white_to_move b); cbv zeta; cbn [negb]; rewrite ?Hw', ?Hb'; reflexivity.
Qed.

Lemma is_true_Ok (r : res bool) (v : bool) : r = Ok v -> is_true r = v.
Proof. intros ->. destruct v; reflexivity. Qed.

(** The loop of [get_legal_moves] over sound candidates: the board keeps its
    grid and its side to move, and the candidates kept are those whose trial
    on the first board leaves the king safe. *)
Lemma legality_filter_spec (b : Board) (cands : list Move) :
  grid_8x8 (board_array b) = true ->
  Forall (sound_candidate (board_array b)) cands ->
  forall x x' kept,
    board_array x = board_array b -> white_to_move x = white_to_move b ->
    legality_filter cands x = Ok (x', kept) ->
    board_array x' = board_array b /\ white_to_move x' = white_to_move b
    /\ kept = filter (fun c => is_true (leaves_king_safe b c)) cands
    /\ Forall (fun c => is_ok (leaves_king_safe b c) = true) cands
    /\ (log_ok (castling_rights x) -> castling_rights x' = castling_rights x).
Proof.
  intros Hg. induction 1 as [|c cands Hc Hcs IH]; intros x x' kept Eg Ew H;
    cbn [legality_filter] in H.
  - inv_ok. repeat split; auto.
  - bind_as H r E. destruct r as [x0 kept0].
    destruct (IH _ _ _ Eg Ew E) as (Eg0 & Ew0 & -> & Hok & Hcr).
    bind_as H x1 E1. bind_as H chk E2. rewrite flip_flip in H. bind_as H x2 E3. inv_ok.
    destruct (trial_same b x0 c Hg Eg0 Ew0 Hc) as [Hsafe _].
    assert (leaves_king_safe x0 c = Ok (negb chk)) as Hres.
    { unfold leaves_king_safe. rewrite E1. cbn [bind]. rewrite E2. reflexivity. }
    rewrite Hsafe in Hres.
    destruct Hc as (Hon & Htrip & _).
    rewrite make_eq in E1 by (rewrite ?Eg0; assumption).
    destruct (get_king_locations (grid_mid (board_array x0) c)) as [[wk bk]|];
      [|discriminate E1].
    inv_ok.
    rewrite undo_in_engine_made in E3
      by (rewrite ?Eg0; auto using grid_made_8x8).
    bind_as E3 k Ek. destruct k as [wk' bk']. inv_ok.
    unfold unmade, made. board_fields. rewrite Eg0, Ew0, Htrip, negb_involutive.
    split; [reflexivity|]. split; [reflexivity|]. split; [|split].
    + cbn [filter]. rewrite (is_true_Ok _ _ Hres). destruct chk; reflexivity.
    + constructor; [now rewrite Hres|exact Hok].
    + intros Hlog. pose proof (Hcr Hlog) as Ecr.
      rewrite undo_update by (rewrite Ecr; exact Hlog). exact Ecr.
Qed.

Lemma update_is_check_spec (b : Board) (cands : list Move) :
  grid_8x8 (board_array b) = true ->
  Forall (sound_candidate (board_array b)) cands ->
  forall x x' out,
    board_array x = board_array b -> white_to_move x = white_to_move b ->
    update_is_check cands x = Ok (x', out) ->
    board_array x' = board_array b /\ white_to_move x' = white_to_move b
    /\ out = map (fun c => set_is_check c (is_true (gives_check b c))) cands
    /\ Forall (fun c => is_ok (gives_check b c) = true) cands
    /\ (log_ok (castling_rights x) -> castling_rights x' = castling_rights x).
Proof.
  intros Hg. induction 1 as [|c cands Hc Hcs IH]; intros x x' out Eg Ew H;
    cbn [update_is_check] in H.
  - inv_ok. repeat split; auto.
  - bind_as H x1 E1. bind_as H chk E2. bind_as H x2 E3.
    bind_as H r E. destruct r as [x3 out3]. inv_ok.
    destruct (trial_same b x c Hg Eg Ew Hc) as [_ Hcheck].
    assert (gives_check x c = Ok chk) as Hres.
    { unfold gives_check. rewrite E1. cbn [bind]. exact E2. }
    rewrite Hcheck in Hres.
    destruct Hc as (Hon & Htrip & _).
    rewrite make_eq in E1 by (rewrite ?Eg; assumption).
    destruct (get_king_locations (grid_mid (board_array x) c)) as [[wk bk]|];
      [|discriminate E1].
    inv_ok.
    rewrite undo_in_engine_made in E3
      by (rewrite ?Eg; auto using grid_made_8x8).
    bind_as E3 k Ek. destruct k as [wk' bk']. inv_ok.
    assert (board_array (unmade true (made x c wk bk) c (move_log x) wk' bk')
            = board_array b) as Eg2.
    { unfold unmade, made. board_fields. now rewrite Eg, Htrip. }
    assert (white_to_move (unmade true (made x c wk bk) c (move_log x) wk' bk')
            = white_to_move b) as Ew2.
    { unfold unmade, made. board_fields. now rewrite Ew, negb_involutive. }
    destruct (IH _ _ _ Eg2 Ew2 E) as (Eg3 & Ew3 & -> & Hok & Hcr).
    split; [exact Eg3|]. split; [exact Ew3|]. split; [|split].
    + cbn [map]. now rewrite (is_true_Ok _ _ Hres).
    + constructor; [now rewrite Hres|exact Hok].
    + intros Hlog. rewrite Hcr; unfold unmade, made; board_fields;
        rewrite undo_update by exact Hlog; [reflexivity|exact Hlog].
Qed.

(** ** The candidates are sound *)

Lemma at_is_sq (g : grid) (r c : Z) (p : piece) : at_ g r c = Ok p -> sq g r c = p.
Proof. unfold sq. now intros ->. Qed.

Lemma piece_eqb_eq (p q : piece) : piece_eqb p q = true -> p = q.
Proof. destruct p as [|[] []], q as [|[] []]; simpl; intros H; congruence. Qed.

(** Without an en-passant target, no generated move has the shape of an
    en-passant capture. *)
Lemma generated_no_ep_shape (g : grid) (wtm : bool) (m : Move) :
  generated g None wtm m -> ep_shape m = false.
Proof.
  intros (_ & _ & _ & _ & Hs). unfold ep_shape, shaped in *.
  destruct (piece_moved m) as [|c k]; [contradiction|].
  destruct k; try reflexivity. cbn [is_pawn andb].
  destruct Hs as [[Hp | [Hp | [Hp | Hp]]] _].
  - destruct Hp as (-> & _). now rewrite Z.eqb_refl.
  - destruct Hp as (-> & _). now rewrite Z.eqb_refl.
  - destruct Hp as (_ & _ & Hc & _).
    destruct (piece_captured m); [discriminate Hc|]. apply andb_false_r.
  - destruct Hp as (_ & _ & _ & Hep & _). discriminate Hep.
Qed.

Lemma generated_promotes_pawns (g : grid) (ep : option square) (wtm : bool) (m : Move) :
  generated g ep wtm m -> promoted_piece m <> None -> is_pawn (piece_moved m) = true.
Proof.
  intros (_ & _ & _ & _ & Hs) Hp. unfold shaped in Hs.
  destruct (piece_moved m) as [|c k]; [contradiction|].
  destruct k; try reflexivity; destruct Hs as (Hn & _); congruence.
Qed.

Lemma generated_sound (g : grid) (wtm : bool) (m : Move) :
  grid_8x8 g = true -> generated g None wtm m -> sound_candidate g m.
Proof.
  intros Hg H.
  pose proof (generated_no_ep_shape _ _ _ H) as Hep.
  pose proof (generated_promotes_pawns _ _ _ _ H) as Hpawn.
  destruct H as (Hsr & Hsc & Hb & _ & _).
  destruct Hb as (_ & _ & _ & _ & Hpm & Hpc & Hcastle & _ & _ & Her & Hec).
  apply range8_in in Hsr, Hsc. apply at_is_sq in Hpm, Hpc.
  assert (move_on_board m = true) as Hon.
  { unfold move_on_board. now rewrite Hsr, Hsc, Her, Hec, Hep, Hcastle. }
  split; [exact Hon|]. split.
  - now apply plain_round_trip.
  - intros r col Hr Hc Hk. unfold grid_made. rewrite Hcastle. cbv zeta.
    destruct (promoted_piece m) as [k|] eqn:Hpr; [|reflexivity].
    assert (is_pawn (piece_moved m) = true) as Hp by (apply Hpawn; congruence).
    revert Hk. unfold grid_mid. rewrite Hep.
    destruct (piece_moved m) as [|c []]; try discriminate Hp.
    squares. discriminate.
Qed.

(** A castling move of [get_castling_moves]. *)
Lemma castling_side_built b row col w_side b_side d ms m :
  castling_side b row col w_side b_side d = Ok ms -> In m ms ->
  CR.has_rights (castling_rights b) (if white_to_move b then w_side else b_side) = true
  /\ at_ (board_array b) row (col + d) = Ok Empty
  /\ at_ (board_array b) row (col + 2 * d) = Ok Empty
  /\ Move_init (board_array b) row col row (col + 2 * d) None true = Ok m.
Proof.
  unfold castling_side. intros H Hin.
  destruct (_ || _) eqn:Hr; [|inv_ok; contradiction].
  bind_as H s1 E1. bind_as H s2 E2.
  destruct (piece_eqb s1 s2 && is_empty s2) eqn:He; [|inv_ok; contradiction].
  apply piece_eqb_empty in He as [-> ->].
  bind_as H a1 E3. destruct a1; cbn [negb] in H; [inv_ok; contradiction|].
  bind_as H a2 E4. destruct a2; cbn [negb] in H; [inv_ok; contradiction|].
  bind_as H m' E5. inv_ok. destruct Hin as [<- | []].
  repeat split; auto.
  destruct (white_to_move b); simpl in Hr.
  - now rewrite orb_false_r in Hr.
  - exact Hr.
Qed.

Lemma castling_side_sound (b : Board) (d : Z) (w_side b_side : ascii) (corner : Z)
    (ms : list Move) (m : Move) :
  grid_8x8 (board_array b) = true ->
  (d = 1 /\ corner = 7) \/ (d = -1 /\ corner = 0) ->
  let row := if white_to_move b then 7 else 0 in
  (CR.has_rights (castling_rights b) (if white_to_move b then w_side else b_side) = true ->
   sq (board_array b) row 4 = Piece (side (white_to_move b)) King
   /\ sq (board_array b) row corner = Piece (side (white_to_move b)) Rook) ->
  castling_side b row 4 w_side b_side d = Ok ms -> In m ms ->
  sound_candidate (board_array b) m.
Proof.
  intros Hg Hd row Hsound H Hin.
  destruct (castling_side_built _ _ _ _ _ _ _ _ H Hin) as (Hr & Hmid & Hend & Hm).
  destruct (Hsound Hr) as [Hking Hrook].
  apply Move_init_fields in Hm
    as (Hsr & Hsc & Her & Hec & Hpm & Hpc & Hcastle & Hpr & _).
  apply at_is_sq in Hmid, Hend, Hpm, Hpc.
  assert (in_range8 row = true) as Hrow by (subst row; destruct (white_to_move b); reflexivity).
  rewrite Hking in Hpm. rewrite Hend in Hpc.
  assert (ep_shape m = false) as Hep by (unfold ep_shape; now rewrite <- Hpm).
  assert (move_on_board m = true) as Hon.
  { unfold move_on_board. rewrite Hsr, Hsc, Her, Hec, Hep, Hcastle, Hrow.
    destruct Hd as [[-> ->] | [-> ->]]; reflexivity. }
  split; [exact Hon|]. split.
  - apply castling_round_trip; rewrite ?Hsr, ?Hsc, ?Her, ?Hec; try assumption;
      try congruence.
    + now rewrite <- Hpm.
    + destruct Hd as [[-> _] | [-> _]]; lia.
    + destruct Hd as [[-> _] | [-> _]]; exact Hmid.
  - intros r col Hr' Hc' Hk. revert Hk. unfold grid_made, grid_mid.
    rewrite Hep, Hpr, Hcastle, Hsr, Hsc, Her, Hec. cbv zeta.
    destruct Hd as [[-> ->] | [-> ->]].
    + change (4 + 2 * 1) with 6 in *. change (4 + 1) with 5 in *.
      change (4 <? 6) with true. change (6 - 1) with 5. change (6 + 1) with 7.
      cbv iota. squares; rewrite ?Hmid, ?Hrook; try discriminate; congruence.
    + change (4 + 2 * -1) with 2 in *. change (4 + -1) with 3 in *.
      change (4 <? 2) with false. change (2 <? 4) with true.
      change (2 + 1) with 3. change (2 - 2) with 0.
      cbv iota. squares; rewrite ?Hmid, ?Hrook; try discriminate; congruence.
Qed.

(** ** The legal moves *)

Lemma castling_rights_sound_side (b : Board) (letter_w letter_b : ascii) (corner : Z) :
  castling_rights_sound b = true ->
  (letter_w = "K"%char /\ letter_b = "k"%char /\ corner = 7)
  \/ (letter_w = "Q"%char /\ letter_b = "q"%char /\ corner = 0) ->
  CR.has_rights (castling_rights b) (if white_to_move b then letter_w else letter_b) = true ->
  let row := if white_to_move b then 7 else 0 in
  (fst (if white_to_move b then white_king_pos b else black_king_pos b) = row
   /\ snd (if white_to_move b then white_king_pos b else black_king_pos b) = 4)
  /\ sq (board_array b) row 4 = Piece (side (white_to_move b)) King
  /\ sq (board_array b) row corner = Piece (side (white_to_move b)) Rook.
Proof.
  unfold castling_rights_sound. intros H Hl Hr.
  apply andb_true_iff in H as [HK HQ].
  assert (forall k row p q r,
            square_eqb k (row, 4) && piece_eqb p q && piece_eqb r (Piece (side (white_to_move b)) Rook)
            = true ->
            (fst k = row /\ snd k = 4)
            /\ p = q /\ r = Piece (side (white_to_move b)) Rook) as K.
  { intros k row p q r E.
    apply andb_true_iff in E as [E E3]. apply andb_true_iff in E as [E1 E2].
    apply piece_eqb_eq in E2, E3. unfold square_eqb in E1.
    apply andb_true_iff in E1 as [Ea Eb]. apply Z.eqb_eq in Ea, Eb.
    destruct k. cbn [fst snd] in *. subst. auto. }
  destruct Hl as [(-> & -> & ->) | (-> & -> & ->)].
  - destruct (white_to_move b); rewrite Hr in HK; cbn [negb orb] in HK; apply K in HK;
      exact HK.
  - destruct (white_to_move b); rewrite Hr in HQ; cbn [negb orb] in HQ; apply K in HQ;
      exact HQ.
Qed.

Lemma candidates_sound (b : Board) (pseudo cands : list Move) :
  grid_8x8 (board_array b) = true ->
  en_passant_square b = None ->
  castling_rights_sound b = true ->
  get_psuedo_legal_moves b = Ok pseudo ->
  (let k := if white_to_move b then white_king_pos b else black_king_pos b in
   get_castling_moves b (fst k) (snd k) pseudo = Ok cands) ->
  Forall (sound_candidate (board_array b)) cands.
Proof.
  intros Hg Hep Hcr Hp Hc. cbv zeta in Hc.
  assert (Forall (sound_candidate (board_array b)) pseudo) as Hps.
  { apply pseudo_legal_generated in Hp. rewrite Hep in Hp.
    eapply Forall_impl; [|exact Hp]. intros m Hm. eapply generated_sound; eauto. }
  apply get_castling_moves_conditions in Hc as [-> | (_ & ks & qs & Hk & Hq & ->)];
    [exact Hps|].
  assert (forall d w_side b_side corner ms,
            (d = 1 /\ w_side = "K"%char /\ b_side = "k"%char /\ corner = 7)
            \/ (d = -1 /\ w_side = "Q"%char /\ b_side = "q"%char /\ corner = 0) ->
            castling_side b
              (fst (if white_to_move b then white_king_pos b else black_king_pos b))
              (snd (if white_to_move b then white_king_pos b else black_king_pos b))
              w_side b_side d = Ok ms ->
            Forall (sound_candidate (board_array b)) ms) as K.
  { intros d w_side b_side corner ms Hd Hs. apply Forall_forall. intros m Hin.
    destruct (castling_side_built _ _ _ _ _ _ _ _ Hs Hin) as (Hr & _).
    assert ((w_side = "K"%char /\ b_side = "k"%char /\ corner = 7)
            \/ (w_side = "Q"%char /\ b_side = "q"%char /\ corner = 0)) as Hl
        by (destruct Hd as [(_ & -> & -> & ->) | (_ & -> & -> & ->)]; auto).
    destruct (castling_rights_sound_side b w_side b_side corner Hcr Hl Hr)
      as ((Ek1 & Ek2) & Hking & Hrook).
    rewrite Ek1, Ek2 in Hs.
    eapply (castling_side_sound b d w_side b_side corner ms m Hg); eauto.
    destruct Hd as [(-> & _ & _ & ->) | (-> & _ & _ & ->)]; auto. }
  repeat apply Forall_app_intro; [exact Hps| |].
  - eapply (K 1 "K"%char "k"%char 7); [left; auto|exact Hk].
  - eapply (K (-1) "Q"%char "q"%char 0); [right; auto|exact Hq].
Qed.

Lemma filter_Forall {A : Type} (P : A -> Prop) (f : A -> bool) (l : list A) :
  Forall P l -> Forall P (filter f l).
Proof.
  intros H. apply Forall_forall. intros x Hx. apply filter_In in Hx as [Hx _].
  rewrite Forall_forall in H. auto.
Qed.

(** What [get_legal_moves] computes and what it leaves, on an 8x8 board
    without en-passant target whose castling rights are sound. *)
Lemma get_legal_moves_spec (b b' : Board) (ms : list Move) :
  grid_8x8 (board_array b) = true ->
  en_passant_square b = None ->
  castling_rights_sound b = true ->
  get_legal_moves b = Ok (b', ms) ->
  exists pseudo castlings,
    get_psuedo_legal_moves b = Ok pseudo
    /\ (let k := if white_to_move b then white_king_pos b else black_king_pos b in
        get_castling_moves b (fst k) (snd k) pseudo = Ok (pseudo ++ castlings)%list)
    /\ Forall (fun c => is_ok (leaves_king_safe b c) = true) (pseudo ++ castlings)
    /\ ms = map (fun c => set_is_check c (is_true (gives_check b c)))
              (filter (fun c => is_true (leaves_king_safe b c)) (pseudo ++ castlings))
    /\ board_array b' = board_array b
    /\ (log_ok (castling_rights b) -> castling_rights b' = castling_rights b).
Proof.
  intros Hg Hep Hcr H. pose proof H as H0. unfold get_legal_moves in H.
  bind_as H pseudo Hp. bind_as H cands Hc. bind_as H r Hf. destruct r as [b1 kept].
  pose proof (get_castling_moves_appends _ _ _ _ _ Hc) as (castlings & -> & _).
  pose proof (candidates_sound b pseudo _ Hg Hep Hcr Hp Hc) as Hsound.
  destruct (legality_filter_spec b _ Hg Hsound b b1 kept eq_refl eq_refl Hf)
    as (Eg1 & Ew1 & -> & Hok & Hcr1).
  destruct (update_is_check_spec b _ Hg (filter_Forall _ _ _ Hsound) b1 b' ms Eg1 Ew1 H)
    as (Eg2 & _ & -> & _ & Hcr2).
  exists pseudo, castlings. repeat split; try assumption.
  intros Hlog. pose proof (Hcr1 Hlog) as E1. rewrite <- E1 in Hlog.
  rewrite (Hcr2 Hlog). exact E1.
Qed.

(** X19. On an 8x8 board that names no en-passant target and whose castling
    rights are sound, the legal moves are exactly the candidates (the
    pseudo-legal moves, then the castling moves) that leave the king of the
    side to move out of check when they are made on that board, in the order
    of generation; every trial returns; and the check flag of a legal move
    says whether making it on that board puts the other king in check. *)
Theorem legal_moves_keep_the_king_safe (b b' : Board) (ms : list Move)
    (Hg : grid_8x8 (board_array b) = true)
    (Hep : en_passant_square b = None)
    (Hcr : castling_rights_sound b = true)
    (H : get_legal_moves b = Ok (b', ms)) :
  exists pseudo castlings,
    get_psuedo_legal_moves b = Ok pseudo
    /\ (let k := if white_to_move b then white_king_pos b else black_king_pos b in
        get_castling_moves b (fst k) (snd k) pseudo = Ok (pseudo ++ castlings)%list)
    /\ Forall (fun c => is_ok (leaves_king_safe b c) = true) (pseudo ++ castlings)
    /\ ms = map (fun c => set_is_check c (is_true (gives_check b c)))
              (filter (fun c => is_true (leaves_king_safe b c)) (pseudo ++ castlings)).
Proof.
  destruct (get_legal_moves_spec b b' ms Hg Hep Hcr H)
    as (pseudo & castlings & H1 & H2 & H3 & H4 & _).
  exists pseudo, castlings. auto.
Qed.

Lemma legal_moves_keep_the_king_safe_witness :
  exists pseudo castlings,
    get_psuedo_legal_moves knight_on_b1 = Ok pseudo
    /\ get_castling_moves knight_on_b1 7 4 pseudo = Ok (pseudo ++ castlings)%list
    /\ legal_moves knight_on_b1
       = map (fun c => set_is_check c (is_true (gives_check knight_on_b1 c)))
           (filter (fun c => is_true (leaves_king_safe knight_on_b1 c))
                   (pseudo ++ castlings)).
Proof.
  destruct (get_legal_moves knight_on_b1) as [[b' ms]|] eqn:E.
  - destruct (legal_moves_keep_the_king_safe knight_on_b1 b' ms
                ltac:(reflexivity) ltac:(reflexivity) ltac:(reflexivity) E)
      as (pseudo & castlings & Hp & Hc & _ & Hms).
    exists pseudo, castlings. split; [exact Hp|]. split; [exact Hc|].
    rewrite <- Hms. revert E. vm_compute. intros E. injection E as _ <-. reflexivity.
  - exfalso. revert E. vm_compute. discriminate.
Defined.

(** X20. Under the same conditions [get_legal_moves] gives the board back as
    it was but for the en-passant target, the end-of-game flags and the king
    squares, which it writes: the grid, the side to move, the clocks, the two
    logs and the cached legal moves are those of the board it was called on,
    and so are the castling rights and their history when that history ends
    with the rights in force. *)
Theorem validation_restores_the_board (b b' : Board) (ms : list Move)
    (Hg : grid_8x8 (board_array b) = true)
    (Hep : en_passant_square b = None)
    (Hcr : castling_rights_sound b = true)
    (H : get_legal_moves b = Ok (b', ms)) :
  board_array b' = board_array b
  /\ white_to_move b' = white_to_move b
  /\ halfmove_clock b' = halfmove_clock b
  /\ fullmove_number b' = fullmove_number b
  /\ move_log b' = move_log b
  /\ fen_log b' = fen_log b
  /\ legal_moves b' = legal_moves b
  /\ (log_ok (castling_rights b) -> castling_rights b' = castling_rights b).
Proof.
  destruct (get_legal_moves_spec b b' ms Hg Hep Hcr H)
    as (pseudo & castlings & _ & _ & _ & _ & Hgrid & Hrights).
  apply get_legal_moves_frame in H. unfold frame in H.
  injection H as H1 H2 H3 H4 H5 H6. repeat split; assumption.
Qed.

Lemma validation_restores_the_board_witness :
  exists b' ms,
    get_legal_moves knight_on_b1 = Ok (b', ms)
    /\ board_array b' = board_array knight_on_b1
    /\ castling_rights b' = castling_rights knight_on_b1.
Proof.
  destruct (get_legal_moves knight_on_b1) as [[b' ms]|] eqn:E.
  - exists b', ms. split; [reflexivity|].
    destruct (validation_restores_the_board knight_on_b1 b' ms
                ltac:(reflexivity) ltac:(reflexivity) ltac:(reflexivity) E)
      as (Hgrid & _ & _ & _ & _ & _ & _ & Hrights).
    split; [exact Hgrid|]. apply Hrights. exists []. reflexivity.
  - exfalso. revert E. vm_compute. discriminate.
Defined.

(** An en-passant capture that is made and taken back leaves the square of
    the captured pawn empty. *)
Lemma en_passant_round_trip_loses_pawn (g : grid) (m : Move) :
  grid_8x8 g = true -> move_on_board m = true ->
  sq g (start_row m) (start_col m) = piece_moved m ->
  sq g (end_row m) (end_col m) = piece_captured m ->
  ep_shape m = true -> is_castling m = false ->
  Z.abs (start_row m - end_row m) <> 2 ->
  grid_unmade (grid_made g m) m = set_sq g (end_row m + behind m) (end_col m) Empty.
Proof.
  intros Hg Hm Hs He Hep Hc Htwo.
  pose proof (grid_made_8x8 g m Hg Hm) as Hg1.
  revert Hg1. unfold grid_unmade, grid_back, grid_made, grid_mid.
  unfold move_on_board in Hm.
  do 5 (apply andb_true_iff in Hm; destruct Hm as [Hm ?]).
  rewrite Hc, Hep in *.
  assert ((Z.abs (start_row m - end_row m) =? 2) = false) as -> by now apply Z.eqb_neq.
  rewrite andb_false_r. cbn [andb]. cbv zeta.
  unfold ep_shape in Hep.
  apply andb_true_iff in Hep as [Hep Hemp]. apply andb_true_iff in Hep as [_ Hcol].
  apply negb_true_iff, Z.eqb_neq in Hcol.
  assert (behind m = 1 \/ behind m = -1) as Hb
      by (unfold behind; destruct (has_color _ _); auto).
  intros Hg1. apply grid_ext.
  - repeat (apply set_sq_8x8; try on_grid).
  - now apply set_sq_8x8.
  - intros r c Hr Hc'. destruct (promoted_piece m); squares.
Qed.

(** X21. A trial on an 8x8 board: a move that is no castling move, whose
    squares are on the board and which records the pieces that stand on its
    start and end squares, made by [_make_psuedo_legal_move] and taken back
    by [undo_move(True)], gives back the grid, the side to move, the clocks,
    the logs and the castling rights (when their history ends with the
    rights in force); the en-passant target is then the end square of the
    move if it moved a pawn by two rows and [None] otherwise.  An en-passant
    capture is the exception: the pawn it captured is not put back. *)
Theorem trial_round_trip (b b1 b2 : Board) (m : Move)
    (Hg : grid_8x8 (board_array b) = true)
    (Hon : move_on_board m = true)
    (Hs : at_ (board_array b) (start_row m) (start_col m) = Ok (piece_moved m))
    (He : at_ (board_array b) (end_row m) (end_col m) = Ok (piece_captured m))
    (Hc : is_castling m = false)
    (Hm : _make_psuedo_legal_move b m = Ok b1)
    (Hu : undo_move true b1 = Ok b2) :
  (ep_shape m = false -> board_array b2 = board_array b)
  /\ (ep_shape m = true -> Z.abs (start_row m - end_row m) <> 2 ->
      board_array b2
      = set_sq (board_array b) (end_row m + behind m) (end_col m) Empty)
  /\ white_to_move b2 = white_to_move b
  /\ halfmove_clock b2 = halfmove_clock b
  /\ fullmove_number b2 = fullmove_number b
  /\ move_log b2 = move_log b
  /\ fen_log b2 = fen_log b
  /\ en_passant_square b2 = en_passant_after_undo m
  /\ (log_ok (castling_rights b) -> castling_rights b2 = castling_rights b).
Proof.
  apply at_is_sq in Hs, He.
  assert (undo_move_in_engine b1 = Ok b2) as Hu'.
  { unfold undo_move in Hu. unfold undo_move_in_engine.
    destruct (rev (move_log b1)); [exact Hu|].
    destruct (undo_move_body true b1 m0 (rev l)); [exact Hu|discriminate Hu]. }
  pose proof (make_undo_frame _ _ _ _ Hm Hu') as Hframe.
  apply frame_eq_fields in Hframe as (F1 & F2 & F3 & F4 & F5 & _).
  rewrite make_eq in Hm by assumption.
  destruct (get_king_locations (grid_mid (board_array b) m)) as [[wk bk]|];
    [|discriminate Hm].
  inv_ok.
  rewrite undo_in_engine_made in Hu' by auto using grid_made_8x8.
  bind_as Hu' k Hk. destruct k as [wk' bk']. inv_ok.
  unfold unmade, made in *. board_fields. cbn in F1, F2, F3, F4, F5.
  repeat split; try assumption.
  - intros Hep. now apply plain_round_trip.
  - intros Hep Htwo. now apply en_passant_round_trip_loses_pawn.
  - intros Hlog. now apply undo_update.
Qed.

Lemma trial_round_trip_witness :
  at_ (board_array en_passant_ready) 3 3 = Ok (Piece Black Pawn)
  /\ exists b1 b2,
       _make_psuedo_legal_move en_passant_ready e5d6 = Ok b1
       /\ undo_move true b1 = Ok b2
       /\ board_array b2 = set_sq (board_array en_passant_ready) 3 3 Empty
       /\ at_ (board_array b2) 3 3 = Ok Empty.
Proof.
  split; [reflexivity|].
  destruct (_make_psuedo_legal_move en_passant_ready e5d6) as [b1|] eqn:E1;
    [|exfalso; revert E1; vm_compute; discriminate].
  destruct (undo_move true b1) as [b2|] eqn:E2.
  - exists b1, b2. split; [reflexivity|]. split; [exact E2|].
    pose proof (trial_round_trip en_passant_ready b1 b2 e5d6
                  eq_refl eq_refl eq_refl eq_refl eq_refl E1 E2) as (_ & H & _).
    specialize (H eq_refl ltac:(vm_compute; discriminate)).
    split; [exact H|]. rewrite H. reflexivity.
  - exfalso. revert E1 E2. vm_compute. intros E1. injection E1 as <-. discriminate.
Defined.

(** ** The position log *)

(** *** The text before the last two blanks *)

Lemma rfind_aux_skip (l rest : list ascii) :
  forallb (fun c => negb (Ascii.eqb c " ")) l = true ->
  forall i stop found,
    stop = i + Z.of_nat (List.length l) \/ rest = [] ->
    rfind_aux (l ++ rest) i stop found = found.
Proof.
  induction l as [|c l IH]; intros Hl i stop found Hstop; cbn [app].
  - destruct rest as [|d rest]; [reflexivity|]. cbn [rfind_aux].
    destruct Hstop as [-> | Hstop]; [|discriminate Hstop].
    cbn [List.length]. replace (i <? i + Z.of_nat 0) with false; [reflexivity|].
    symmetry. apply Z.ltb_ge. lia.
  - cbn [forallb] in Hl. apply andb_true_iff in Hl as [Hc Hl].
    apply negb_true_iff in Hc. cbn [rfind_aux]. rewrite Hc.
    destruct (i <? stop); [|reflexivity].
    apply IH; [exact Hl|]. destruct Hstop as [-> | ->]; [left|now right].
    cbn [List.length]. lia.
Qed.

Lemma rfind_aux_last (a l rest : list ascii) :
  forallb (fun c => negb (Ascii.eqb c " ")) l = true ->
  forall i stop found,
    i + Z.of_nat (List.length a) < stop ->
    stop = i + Z.of_nat (List.length a) + 1 + Z.of_nat (List.length l) \/ rest = [] ->
    rfind_aux (a ++ " "%char :: l ++ rest) i stop found = i + Z.of_nat (List.length a).
Proof.
  intros Hl. induction a as [|c a IH]; intros i stop found Hlt Hstop; cbn [app rfind_aux].
  - cbn [List.length] in *. replace (i <? stop) with true by (symmetry; apply Z.ltb_lt; lia).
    change (Ascii.eqb " " " ") with true. cbv iota.
    rewrite rfind_aux_skip; [lia|exact Hl|].
    destruct Hstop as [-> | ->]; [left; lia|now right].
  - cbn [List.length] in *. replace (i <? stop) with true by (symmetry; apply Z.ltb_lt; lia).
    rewrite IH; [lia|lia|]. destruct Hstop as [-> | ->]; [left; lia|now right].
Qed.

Lemma list_ascii_app (a b : string) :
  list_ascii_of_string (a ++ b)
  = (list_ascii_of_string a ++ list_ascii_of_string b)%list.
Proof. induction a as [|c a IH]; simpl; [reflexivity|now rewrite IH]. Qed.

Lemma blank_free_list (s : string) :
  blank_free s ->
  forallb (fun c => negb (Ascii.eqb c " ")) (list_ascii_of_string s) = true.
Proof.
  unfold blank_free. induction s as [|c s IH]; simpl; [reflexivity|].
  intros H. apply orb_false_iff in H as [Hc Hs]. rewrite Hc. simpl. auto.
Qed.

Lemma list_ascii_length (s : string) :
  List.length (list_ascii_of_string s) = String.length s.
Proof. induction s as [|c s IH]; simpl; [reflexivity|now rewrite IH]. Qed.

Lemma firstn_exact {A : Type} (a b : list A) : firstn (List.length a) (a ++ b) = a.
Proof. induction a as [|x a IH]; simpl; [reflexivity|now rewrite IH]. Qed.

(** [s[:s.rfind(' ', 0, s.rfind(' '))]] drops the last two fields of a text
    that ends with two blank-free fields. *)
Lemma initial_fen_log_entry_drops_two (x f5 f6 : string) :
  blank_free f5 -> blank_free f6 ->
  initial_fen_log_entry (x ++ String " " (f5 ++ String " " f6)) = x.
Proof.
  intros H5 H6. apply blank_free_list in H5, H6.
  unfold initial_fen_log_entry, rfind_blank, slice_to.
  set (s := (x ++ String " " (f5 ++ String " " f6))%string).
  set (lx := list_ascii_of_string x). set (l5 := list_ascii_of_string f5).
  set (l6 := list_ascii_of_string f6).
  assert (list_ascii_of_string s = (lx ++ " "%char :: l5 ++ " "%char :: l6)%list) as El.
  { subst s lx l5 l6. rewrite list_ascii_app. cbn [list_ascii_of_string].
    rewrite list_ascii_app. reflexivity. }
  rewrite El. rewrite <- list_ascii_length, El.
  set (n := Z.of_nat (List.length (lx ++ " "%char :: l5 ++ " "%char :: l6))).
  assert (n = Z.of_nat (List.length lx) + 1 + Z.of_nat (List.length l5) + 1
              + Z.of_nat (List.length l6)) as En.
  { subst n. rewrite length_app. cbn [List.length]. rewrite length_app.
    cbn [List.length]. lia. }
  assert (forall i, 0 <= i <= n -> clip n i = i) as Hclip.
  { intros i Hi. unfold clip.
    replace (i <? 0) with false by (symmetry; apply Z.ltb_ge; lia). lia. }
  assert (rfind_aux (lx ++ " "%char :: l5 ++ " "%char :: l6) 0 (clip n n) (-1)
          = Z.of_nat (List.length lx) + 1 + Z.of_nat (List.length l5)) as E1.
  { rewrite Hclip by lia.
    replace (lx ++ " "%char :: l5 ++ " "%char :: l6)%list
      with ((lx ++ " "%char :: l5) ++ " "%char :: l6 ++ [])%list
      by (rewrite app_nil_r, <- app_assoc; reflexivity).
    rewrite rfind_aux_last; [|exact H6| |now right];
      rewrite length_app; cbn [List.length]; lia. }
  rewrite E1.
  assert (rfind_aux (lx ++ " "%char :: l5 ++ " "%char :: l6) 0
            (clip n (Z.of_nat (List.length lx) + 1 + Z.of_nat (List.length l5))) (-1)
          = Z.of_nat (List.length lx)) as E2.
  { rewrite Hclip by lia.
    rewrite rfind_aux_last; [lia|exact H5|lia|left; lia]. }
  rewrite E2, Hclip by lia. rewrite Nat2Z.id, firstn_exact.
  subst lx. apply string_of_list_ascii_of_string.
Qed.

(** *** The first four fields *)

Lemma remove_extra_details_keeps_four (f1 f2 f3 f4 f5 f6 : string) :
  Forall (fun f => ws_free f = true /\ f <> "") [f1; f2; f3; f4; f5; f6] ->
  remove_extra_details (Py.join " " [f1; f2; f3; f4; f5; f6])
  = Py.join " " [f1; f2; f3; f4].
Proof.
  intros H.
  repeat match goal with
         | H : Forall _ (_ :: _) |- _ =>
             let a := fresh "Hw" in let b := fresh "Hn" in
             inversion H as [|? ? [a b] H']; subst; clear H; rename H' into H
         end.
  unfold remove_extra_details, Py.split_ws, Py.join. cbn [String.concat].
  repeat match goal with
         | |- context [(" " ++ ?x)%string] =>
             change (" " ++ x)%string with (String " " x)
         end.
  repeat (rewrite split_ws_cons by assumption).
  rewrite split_ws_last by assumption. reflexivity.
Qed.

Lemma ws_free_append (a b : string) :
  ws_free (a ++ b) = ws_free a && ws_free b.
Proof. apply string_forallb_append. Qed.

Lemma clock_text_ws_free (x : number) :
  ws_free (Num.str (Num.floordiv_one x)) = true /\ Num.str (Num.floordiv_one x) <> "".
Proof.
  destruct x as [n|h]; cbn [Num.floordiv_one Num.str].
  - apply str_int_ws_free.
  - replace ((2 * (h / 2)) mod 2 =? 0) with true
      by (symmetry; apply Z.eqb_eq; rewrite Z.mul_comm; apply Z.mod_mul; lia).
    destruct (str_int_ws_free (2 * (h / 2) / 2)) as [Hw Hn]. split.
    + rewrite ws_free_append, Hw. reflexivity.
    + destruct (Py.str_int (2 * (h / 2) / 2)); [congruence|discriminate].
Qed.

Lemma en_passant_text_ws_free (ep : option square) (t : string) :
  en_passant_text ep = Ok t -> ws_free t = true /\ t <> "".
Proof.
  intros H.
  assert (match ep with Some s => on_board s | None => true end = true) as Hon.
  { destruct ep as [[r c]|]; [|reflexivity]. cbn [en_passant_text] in H.
    bind_as H f Hf. bind_as H k Hk. unfold on_board. cbn [fst snd].
    apply file_map_range in Hf. apply rank_map_range in Hk. now rewrite Hf, Hk. }
  destruct (en_passant_round_trip ep Hon) as (t' & Ht & Hw & Hn & _).
  assert (t' = t) by congruence. subst. auto.
Qed.

Lemma ws_free_remove (c : ascii) (s : string) :
  ws_free s = true -> ws_free (Py.remove c s) = true.
Proof.
  unfold ws_free. induction s as [|d s IH]; simpl; [reflexivity|].
  intros H. apply andb_true_iff in H as [Hd Hs].
  destruct (Ascii.eqb d c); [auto|]. simpl. rewrite Hd. auto.
Qed.

Lemma ws_free_update (cr : Castling_Rights) (m : Move) :
  ws_free (castling_rights_string cr) = true ->
  ws_free (castling_rights_string (CR.update cr m)) = true.
Proof.
  intros H. unfold CR.update. cbn [castling_rights_string].
  destruct (piece_moved m) as [|[] []];
    repeat match goal with |- context [if ?c then _ else _] => destruct c end;
    cbn [CR.remove_rights fold_left castling_rights_string];
    auto using ws_free_remove.
Qed.

Lemma rights_text_ws_free (cr : Castling_Rights) :
  ws_free (castling_rights_string cr) = true ->
  ws_free (CR.str cr) = true /\ CR.str cr <> "".
Proof.
  intros H. unfold CR.str.
  destruct (String.eqb_spec (castling_rights_string cr) "") as [E | E].
  - split; [reflexivity|discriminate].
  - auto.
Qed.

(** The FEN text is the position key followed by the two clocks. *)
Lemma fen_of_key g wtm cr ep hm fm fen :
  fen_of g wtm cr ep hm fm = Ok fen ->
  exists k,
    position_key g wtm cr ep = Ok k
    /\ fen = (k ++ String " " (Num.str (Num.floordiv_one hm)
                               ++ String " " (Py.str_int fm)))%string.
Proof.
  unfold fen_of, position_key. intros H. bind_as H t Ht. inv_ok.
  rewrite Ht. cbn [bind]. eexists. split; [reflexivity|].
  unfold Py.join. cbn [String.concat].
  repeat (rewrite append_assoc; cbn [String.append]). reflexivity.
Qed.

(** *** The grid stays 8x8 *)

Lemma store_length {A : Type} (l l' : list A) (i : Z) (x : A) :
  Py.store l i x = Ok l' ->
  List.length l' = List.length l
  /\ exists n, forall m, nth_error l' m = if (m =? n)%nat then Some x else nth_error l m.
Proof.
  unfold Py.store. cbv zeta.
  destruct (_ <? 0); [discriminate|].
  destruct (Py.set_nth l _ x) as [l0|] eqn:E; [|discriminate].
  intros H. inv_ok. apply set_nth_nth in E as [E1 E2]. eauto.
Qed.

Lemma index_In {A : Type} (l : list A) (i : Z) (x : A) : Py.index l i = Ok x -> In x l.
Proof.
  unfold Py.index. cbv zeta. destruct (_ <? 0); [discriminate|].
  destruct (nth_error l _) eqn:E; [|discriminate].
  intros H. inv_ok. eauto using nth_error_In.
Qed.

Lemma put_keeps_8x8 (g g' : grid) (r c : Z) (p : piece) :
  grid_8x8 g = true -> put g r c p = Ok g' -> grid_8x8 g' = true.
Proof.
  intros Hg H. unfold put in H. bind_as H row Hrow. bind_as H row' Hrow'.
  apply store_length in Hrow' as [Hl' _]. apply store_length in H as [Hl [n Hn]].
  pose proof (grid_8x8_rows g Hg) as [Hlen Hrows]. rewrite Forall_forall in Hrows.
  apply grid_8x8_intro; [lia|].
  intros k rw Hk. rewrite Hn in Hk. destruct (k =? n)%nat.
  - injection Hk as <-. rewrite Hl'. eauto using index_In.
  - eauto using nth_error_In.
Qed.

(** What [_make_psuedo_legal_move] keeps whatever the move: the 8x8 shape of
    the grid and a rights text without whitespace. *)
Definition shape_ok (b : Board) : Prop :=
  grid_8x8 (board_array b) = true
  /\ ws_free (castling_rights_string (castling_rights b)) = true.

Lemma assign_shape r c p b b' : shape_ok b -> assign r c p b = Ok b' -> shape_ok b'.
Proof.
  unfold assign, shape_ok. intros [Hg Hw] H. bind_as H g' Hp. inv_ok.
  cbn. eauto using put_keeps_8x8.
Qed.

Lemma copy_square_shape r c r' c' b b' :
  shape_ok b -> copy_square r c r' c' b = Ok b' -> shape_ok b'.
Proof. unfold copy_square. intros Hs H. bind_as H p Hp. eauto using assign_shape. Qed.

Lemma make_shape (b b' : Board) (m : Move) :
  shape_ok b -> _make_psuedo_legal_move b m = Ok b' -> shape_ok b'.
Proof.
  unfold _make_psuedo_legal_move. apply try_block_inv.
  repeat apply Forall_cons; try apply Forall_nil; intros x y Hx Hy;
    repeat match type of Hy with
           | (if ?c then _ else _) = _ => destruct c
           | match ?c with _ => _ end = _ => destruct c
           end;
    inv_ok; eauto using assign_shape, copy_square_shape;
    try exact Hx.
  - unfold update_king_pos in Hy. bind_as Hy k Hk. destruct k. inv_ok. exact Hx.
  - destruct Hx as [Hg Hw]. split; [exact Hg|]. cbn. now apply ws_free_update.
Qed.

(** X22. The entries of the position log.  The constructor enters the first
    four fields of the FEN it was given as decoded: placement, side to move,
    castling rights and en-passant square, without the clocks.  An accepted
    move on an 8x8 board whose rights text holds no whitespace appends the
    same four fields of the board as [_make_psuedo_legal_move] leaves it; the
    en-passant field is the one the board had before the move, since the
    entry is written before the target is updated. *)
Theorem position_log_entries :
  (forall fen b g wtm cr ep halfmove fullmove,
      Board_init fen = Ok b ->
      fen_to_board fen = Ok (g, wtm, cr, ep, halfmove, fullmove) ->
      exists k, position_key g wtm cr ep = Ok k /\ fen_log b = [k])
  /\ (forall b b' move,
        grid_8x8 (board_array b) = true ->
        ws_free (castling_rights_string (castling_rights b)) = true ->
        accepted b move = true -> make_legal_move b move = Ok b' ->
        exists mv b1 k,
          find_move move (legal_moves b) = Some mv
          /\ _make_psuedo_legal_move b mv = Ok b1
          /\ position_key (board_array b1) (white_to_move b1) (castling_rights b1)
                          (en_passant_square b) = Ok k
          /\ fen_log b' = (fen_log b ++ [k])%list).
Proof.
  split.
  - intros fen b g wtm cr ep halfmove fullmove Hb Hd.
    apply Board_init_steps in Hb
      as (g' & wtm' & cr' & ep' & hm' & fm' & f & wk & bk & b0 & moves
          & Hd' & Hf & _ & Hl & ->).
    rewrite Hd in Hd'. inv_ok.
    apply fen_of_key in Hf as (k & Hk & ->). exists k. split; [exact Hk|].
    apply get_legal_moves_frame in Hl. apply frame_eq_fields in Hl as (_ & _ & _ & _ & E & _).
    cbn [fen_log set_legal_moves] in *. rewrite E.
    rewrite initial_fen_log_entry_drops_two;
      auto using clock_text_blank_free, str_int_blank_free.
  - intros b b' move Hg Hw Ha Hm.
    destruct (make_legal_move_steps b b' move Ha Hm)
      as (mv & b1 & fen & b3 & b5 & moves & Hf & H1 & H2 & H3 & H5 & Hend).
    pose proof (make_shape b b1 mv (conj Hg Hw) H1) as [Hg1 Hw1].
    pose proof (make_aux _ _ _ H1) as Haux.
    assert (en_passant_square b1 = en_passant_square b) as Hep
        by (unfold aux in Haux; congruence).
    unfold board_to_fen in H2. apply fen_of_key in H2 as (k & Hk & ->).
    exists mv, b1, k. split; [exact Hf|]. split; [exact H1|].
    split; [now rewrite <- Hep|].
    assert (remove_extra_details
              (k ++ String " " (Num.str (Num.floordiv_one (halfmove_clock b1))
                                ++ String " " (Py.str_int (fullmove_number b1))))
            = k) as Hkey.
    { unfold position_key in Hk. bind_as Hk t Ht. inv_ok.
      destruct (placement_round_trip _ Hg1) as (_ & Hpw & Hpn).
      destruct (rights_text_ws_free _ Hw1) as [Hcw Hcn].
      destruct (en_passant_text_ws_free _ _ Ht) as [Htw Htn].
      destruct (clock_text_ws_free (halfmove_clock b1)) as [Hhw Hhn].
      destruct (str_int_ws_free (fullmove_number b1)) as [Hfw Hfn].
      transitivity
        (remove_extra_details
           (Py.join " " [Py.join "/" (map (fun row => fen_of_row row 0) (board_array b1));
                         if white_to_move b1 then "w" else "b";
                         CR.str (castling_rights b1); t;
                         Num.str (Num.floordiv_one (halfmove_clock b1));
                         Py.str_int (fullmove_number b1)])).
      - f_equal. unfold Py.join. cbn [String.concat].
        repeat (rewrite append_assoc; cbn [String.append]). reflexivity.
      - rewrite remove_extra_details_keeps_four; [reflexivity|].
        repeat constructor; try assumption;
          destruct (white_to_move b1); (reflexivity || discriminate). }
    rewrite Hkey in H3.
    apply update_en_passant_square_frame in H3.
    apply get_legal_moves_frame in H5.
    apply frame_eq_fields in H5 as (_ & _ & _ & _ & B5 & _).
    apply frame_eq_fields in H3 as (_ & _ & _ & _ & C5 & _).
    apply make_frame in H1. apply frame_fields in H1 as (_ & _ & _ & _ & D5 & _).
    cbn [fen_log set_fen_log set_halfmove_clock] in *.
    assert (fen_log b' = fen_log b5) as ->.
    { destruct Hend as [(_ & chk & _ & ->) | (_ & ->)];
        [destruct chk|destruct (_ || _)]; reflexivity. }
    congruence.
Qed.

Lemma position_log_entries_witness :
  en_passant_square after_Nf3 = Some (3, 7)
  /\ fen_log after_Nf3_Nf6
     = ["rnbqkbnr/pppppppp/8/8/8/5N2/PPPPPPPP/RNBQKB1R b KQkq -";
        "rnbqkb1r/pppppppp/5n2/8/8/5N2/PPPPPPPP/RNBQKB1R w KQkq h5"]
  /\ exists mv b1 k,
       find_move g8f6 (legal_moves after_Nf3) = Some mv
       /\ _make_psuedo_legal_move after_Nf3 mv = Ok b1
       /\ position_key (board_array b1) (white_to_move b1) (castling_rights b1)
                       (en_passant_square after_Nf3) = Ok k
       /\ fen_log after_Nf3_Nf6 = (fen_log after_Nf3 ++ [k])%list.
Proof.
  split; [reflexivity|]. split; [reflexivity|].
  assert (make_legal_move after_Nf3 g8f6 = Ok after_Nf3_Nf6) as Hm
      by (vm_compute; reflexivity).
  exact (proj2 position_log_entries after_Nf3 after_Nf3_Nf6 g8f6
           ltac:(reflexivity) ltac:(reflexivity) ltac:(vm_compute; reflexivity) Hm).
Defined.

(** ** Encoding a board whose en-passant target is off the board *)

Lemma en_passant_text_returns (ep : option square) :
  is_ok (en_passant_text ep)
  = match ep with Some s => on_board s | None => true end.
Proof.
  destruct ep as [[r c]|]; [|reflexivity]. unfold on_board. cbn [en_passant_text fst snd].
  destruct (file_map c) as [f|e] eqn:Ef; cbn [bind].
  - apply file_map_range in Ef. rewrite Ef, andb_true_r.
    destruct (rank_map r) as [k|e] eqn:Ek; cbn [bind is_ok].
    + apply rank_map_range in Ek. now rewrite Ek.
    + destruct (in_range8 r) eqn:Er; [|reflexivity].
      destruct (rank_map_total r Er) as [k Hk]. congruence.
  - cbn [is_ok]. destruct (in_range8 c) eqn:Ec; [|now rewrite andb_false_r].
    destruct (file_map_total c Ec) as [f Hf]. congruence.
Qed.

Lemma en_passant_text_KeyError (ep : option square) (e : exn) :
  en_passant_text ep = Raise e -> e = KeyError.
Proof.
  destruct ep as [[r c]|]; [|discriminate]. cbn [en_passant_text].
  destruct (file_map c) as [f|e'] eqn:Ef; cbn [bind].
  - destruct (rank_map r) as [k|e''] eqn:Ek; cbn [bind]; [discriminate|].
    intros H. inv_ok. injection H as <-. eauto using rank_map_raises.
  - intros H. injection H as <-. eauto using file_map_raises.
Qed.

(** X23. [board_to_fen] returns exactly when the en-passant target is absent
    or on the board; otherwise it raises KeyError, from the lookup in the
    notation maps, and nothing else.  [fen_to_board] accepts targets off the
    board (a rank digit 0 or 9, a file letter after h), so the constructor,
    which encodes the board it has just decoded, raises KeyError on such a
    FEN; and [Board.__eq__] raises KeyError when its first board has such a
    target. *)
Theorem board_to_fen_needs_target_on_board :
  (forall b,
      is_ok (board_to_fen b)
      = match en_passant_square b with Some s => on_board s | None => true end)
  /\ (forall b e, board_to_fen b = Raise e -> e = KeyError)
  /\ (forall fen g wtm cr s halfmove fullmove,
        fen_to_board fen = Ok (g, wtm, cr, Some s, halfmove, fullmove) ->
        on_board s = false ->
        Board_init fen = Raise KeyError)
  /\ (forall a b s,
        en_passant_square a = Some s -> on_board s = false ->
        Board_eq a b = Raise KeyError).
Proof.
  assert (forall g wtm cr ep hm fm,
            is_ok (fen_of g wtm cr ep hm fm) = is_ok (en_passant_text ep)) as Hok.
  { intros. unfold fen_of. now destruct (en_passant_text ep). }
  assert (forall g wtm cr ep hm fm e,
            fen_of g wtm cr ep hm fm = Raise e -> e = KeyError) as Hraise.
  { intros g wtm cr ep hm fm e. unfold fen_of.
    destruct (en_passant_text ep) eqn:E; cbn [bind]; [discriminate|].
    intros H. injection H as <-. eauto using en_passant_text_KeyError. }
  assert (forall g wtm cr s hm fm,
            on_board s = false -> fen_of g wtm cr (Some s) hm fm = Raise KeyError) as Hoff.
  { intros g wtm cr s hm fm Hs.
    pose proof (Hok g wtm cr (Some s) hm fm) as H. rewrite en_passant_text_returns, Hs in H.
    destruct (fen_of g wtm cr (Some s) hm fm) eqn:E; [discriminate H|].
    apply Hraise in E. now subst. }
  split; [|split; [|split]].
  - intros b. unfold board_to_fen. rewrite Hok. apply en_passant_text_returns.
  - intros b e. apply Hraise.
  - intros fen g wtm cr s hm fm Hd Hs. unfold Board_init. rewrite Hd. cbn [bind].
    now rewrite Hoff.
  - intros a b s Ha Hs. unfold Board_eq, board_to_fen. rewrite Ha, Hoff by exact Hs.
    reflexivity.
Qed.

Lemma board_to_fen_needs_target_on_board_witness :
  is_ok (fen_to_board "4k3/8/8/8/8/8/8/4K3 w - e9 0 1") = true
  /\ Board_init "4k3/8/8/8/8/8/8/4K3 w - e9 0 1" = Raise KeyError.
Proof.
  split; [reflexivity|].
  destruct (fen_to_board "4k3/8/8/8/8/8/8/4K3 w - e9 0 1")
    as [[[[[[g wtm] cr] [s|]] hm] fm]|] eqn:E.
  - apply (proj1 (proj2 (proj2 board_to_fen_needs_target_on_board))
             _ g wtm cr s hm fm E).
    revert E. vm_compute. intros E. injection E as _ _ _ <- _ _. reflexivity.
  - exfalso. revert E. vm_compute. discriminate.
  - exfalso. revert E. vm_compute. discriminate.
Defined.

(** ** The history of the castling rights *)

Lemma updates_log_ok (moves : list Move) (cr : Castling_Rights) :
  log_ok cr -> log_ok (fold_left CR.update moves cr).
Proof.
  revert cr. induction moves as [|m ms IH]; intros cr H; cbn [fold_left]; [exact H|].
  apply IH, update_log_ok.
Qed.

(** X24. The history of the castling rights is a stack: after any sequence
    of updates, as many undos give back the rights and the history there
    were before, provided that history ended with the rights in force; and
    whatever the moves, a right that was absent before the sequence is
    absent after it. *)
Theorem rights_history_is_a_stack (cr : Castling_Rights) (moves : list Move)
    (H : log_ok cr) :
  Nat.iter (List.length moves) CR.undo_castling_rights (fold_left CR.update moves cr) = cr
  /\ forall side,
       CR.has_rights cr side = false ->
       CR.has_rights (fold_left CR.update moves cr) side = false.
Proof.
  split.
  - revert cr H. induction moves as [|m ms IH]; intros cr H; [reflexivity|].
    cbn [fold_left List.length]. rewrite Nat.iter_succ.
    rewrite IH by apply update_log_ok. now apply undo_update.
  - revert cr H. induction moves as [|m ms IH]; intros cr H side Hs; [exact Hs|].
    cbn [fold_left]. apply IH; [apply update_log_ok|].
    destruct (CR.has_rights (CR.update cr m) side) eqn:E; [|reflexivity].
    apply update_le in E. congruence.
Qed.

Lemma rights_history_is_a_stack_witness :
  Nat.iter 3 CR.undo_castling_rights
    (fold_left CR.update [h1g1; e1e2; g1f3] (CR.init "KQkq"))
  = CR.init "KQkq"
  /\ CR.has_rights (fold_left CR.update [h1g1; e1e2; g1f3] (CR.init "Qkq")) "K" = false.
Proof.
  assert (log_ok (CR.init "KQkq")) as H1 by (exists []; reflexivity).
  assert (log_ok (CR.init "Qkq")) as H2 by (exists []; reflexivity).
  split.
  - exact (proj1 (rights_history_is_a_stack (CR.init "KQkq") [h1g1; e1e2; g1f3] H1)).
  - exact (proj2 (rights_history_is_a_stack (CR.init "Qkq") [h1g1; e1e2; g1f3] H2)
             "K"%char eq_refl).
Defined.

(** ** The printed board *)

Lemma code_inj (p q : piece) : code p = code q -> p = q.
Proof. destruct p as [|[] []], q as [|[] []]; simpl; intros H; congruence. Qed.

Lemma code_sep_free (p : piece) :
  sep_free " " (code p) = true /\ sep_free "010" (code p) = true /\ code p <> "".
Proof. destruct p as [|[] []]; repeat split; discriminate. Qed.

Lemma sep_free_join (sep : ascii) (inner : string) (l : list string) :
  sep_free sep inner = true -> Forall (fun s => sep_free sep s = true) l ->
  sep_free sep (Py.join inner l) = true.
Proof.
  intros Hi. unfold Py.join. induction 1 as [|x t Hx _ IH]; [reflexivity|].
  cbn [String.concat]. destruct t as [|y t']; [exact Hx|].
  unfold sep_free in *. rewrite !string_forallb_append, Hx, Hi. exact IH.
Qed.

Lemma map_inj {A B : Type} (f : A -> B) (l l' : list A) :
  (forall x y, f x = f y -> x = y) -> map f l = map f l' -> l = l'.
Proof.
  intros Hf. revert l'. induction l as [|x l IH]; intros [|y l'] H; try discriminate.
  - reflexivity.
  - injection H as H1 H2. f_equal; auto.
Qed.

Lemma row_text_inj (row row' : list piece) :
  row <> [] -> row' <> [] ->
  Py.join " " (map code row) = Py.join " " (map code row') -> row = row'.
Proof.
  intros Hn Hn' H.
  assert (forall r : list piece, r <> [] ->
            Py.split_on " " (Py.join " " (map code r)) = map code r) as K.
  { intros r Hr. apply split_on_join.
    - destruct r; [congruence|discriminate].
    - apply forallb_forall. intros s Hs. apply in_map_iff in Hs as (p & <- & _).
      apply code_sep_free. }
  apply (map_inj code); [apply code_inj|].
  rewrite <- (K row Hn), <- (K row' Hn'). now rewrite H.
Qed.

(** X25. The text of [Board.__repr__] shows the grid without ambiguity: two
    8x8 grids with the same text are the same grid. *)
Theorem Board_repr_shows_the_grid (g g' : grid)
    (Hg : grid_8x8 g = true) (Hg' : grid_8x8 g' = true)
    (H : Board_repr g = Board_repr g') :
  g = g'.
Proof.
  assert (forall x : grid, grid_8x8 x = true ->
            x <> [] /\ Forall (fun row => row <> []) x) as Hrows.
  { intros x Hx. apply grid_8x8_rows in Hx as [Hl Hr]. split.
    - intros ->. discriminate Hl.
    - eapply Forall_impl; [|exact Hr]. intros row Hrow ->. discriminate Hrow. }
  assert (forall x : grid, grid_8x8 x = true ->
            Py.split_on "010" (Board_repr x)
            = map (fun row => Py.join " " (map code row)) x) as K.
  { intros x Hx. destruct (Hrows x Hx) as [Hne _]. unfold Board_repr, newline.
    apply split_on_join.
    - destruct x; [congruence|discriminate].
    - apply forallb_forall. intros s Hs. apply in_map_iff in Hs as (row & <- & _).
      apply sep_free_join; [reflexivity|].
      apply Forall_forall. intros t Ht. apply in_map_iff in Ht as (p & <- & _).
      apply code_sep_free. }
  pose proof (K g Hg) as E. rewrite H, (K g' Hg') in E.
  destruct (Hrows g Hg) as [_ Hr]. destruct (Hrows g' Hg') as [_ Hr'].
  clear - E Hr Hr'. revert g' E Hr'.
  induction Hr as [|row t Hrow _ IH]; intros [|row' t'] E Hr'; try discriminate.
  - reflexivity.
  - injection E as E1 E2. inversion Hr' as [|? ? Hrow' Ht']; subst.
    f_equal; [symmetry; now apply row_text_inj|auto].
Qed.

Lemma Board_repr_shows_the_grid_witness :
  board_array after_Nf3_undone = board_array after_Nf3.
Proof.
  exact (Board_repr_shows_the_grid (board_array after_Nf3_undone) (board_array after_Nf3)
           eq_refl eq_refl eq_refl).
Defined.

(** ** The constructed board *)

Lemma fen_to_board_rights fen g wtm cr ep hm fm :
  fen_to_board fen = Ok (g, wtm, cr, ep, hm, fm) -> log_ok cr.
Proof.
  unfold fen_to_board. intros H.
  repeat match type of H with
         | bind _ _ = Ok _ => let x := fresh "x" in let E := fresh "E" in bind_as H x E
         end.
  inv_ok. exists []. reflexivity.
Qed.

(** X26. A board constructed from a FEN that names no en-passant target,
    whose placement decodes to an 8x8 grid with both kings and whose castling
    rights are sound, holds the decoded position: grid, side to move,
    castling rights and clocks are those of the FEN; and its legal moves are
    exactly the candidates of that position (pseudo-legal moves, then
    castling moves) that leave the king of the side to move out of check,
    each flagged with whether it gives check. *)
Theorem constructor_keeps_the_position (fen : string) (b : Board)
    (g : grid) (wtm : bool) (cr : Castling_Rights) (halfmove : number) (fullmove : Z)
    (wk bk : square)
    (Hd : fen_to_board fen = Ok (g, wtm, cr, None, halfmove, fullmove))
    (Hg : grid_8x8 g = true)
    (Hk : get_king_locations g = Ok (wk, bk))
    (Hcr : castling_rights_sound
             (mkBoard g wtm cr None halfmove fullmove [] [] wk bk false false []) = true)
    (Hb : Board_init fen = Ok b) :
  board_array b = g /\ white_to_move b = wtm /\ castling_rights b = cr
  /\ halfmove_clock b = halfmove /\ fullmove_number b = fullmove
  /\ let b0 := mkBoard g wtm cr None halfmove fullmove [] (fen_log b) wk bk
                       false false [] in
     exists pseudo castlings,
       get_psuedo_legal_moves b0 = Ok pseudo
       /\ get_castling_moves b0 (fst (if wtm then wk else bk)) (snd (if wtm then wk else bk))
            pseudo = Ok (pseudo ++ castlings)%list
       /\ legal_moves b
          = map (fun c => set_is_check c (is_true (gives_check b0 c)))
              (filter (fun c => is_true (leaves_king_safe b0 c)) (pseudo ++ castlings)).
Proof.
  pose proof (fen_to_board_rights _ _ _ _ _ _ _ Hd) as Hlog.
  apply Board_init_steps in Hb
    as (g' & wtm' & cr' & ep' & hm' & fm' & f & wk' & bk' & b' & moves
        & Hd' & Hf & Hk' & Hl & ->).
  rewrite Hd in Hd'. inv_ok. rewrite Hk in Hk'. inv_ok.
  pose proof (get_legal_moves_frame _ _ _ Hl) as Hframe.
  apply frame_eq_fields in Hframe as (F1 & F2 & F3 & F4 & F5 & F6).
  cbn in F1, F2, F3, F4, F5, F6.
  pose proof (fun H1 H2 H3 => get_legal_moves_spec _ _ _ H1 H2 H3 Hl) as Hspec.
  destruct (Hspec Hg eq_refl Hcr)
    as (pseudo & castlings & Hp & Hc & _ & Hms & Hgrid & Hrights).
  cbn [board_array white_to_move castling_rights halfmove_clock fullmove_number
       legal_moves fen_log set_legal_moves] in *.
  rewrite F5.
  split; [exact Hgrid|]. split; [exact F2|]. split; [exact (Hrights Hlog)|].
  split; [exact F4|]. split; [exact F3|].
  exists pseudo, castlings. split; [exact Hp|]. split; [exact Hc|]. exact Hms.
Qed.

Lemma constructor_keeps_the_position_witness :
  board_array knight_on_b1
  = [[Piece Black Rook; Empty; Empty; Empty; Piece Black King; Empty; Empty;
      Piece Black Rook];
     repeat Empty 8; repeat Empty 8; repeat Empty 8; repeat Empty 8;
     repeat Empty 8; repeat Empty 8;
     [Piece White Rook; Piece White Knight; Empty; Empty; Piece White King; Empty;
      Empty; Piece White Rook]]
  /\ white_to_move knight_on_b1 = true
  /\ castling_rights knight_on_b1 = CR.init "KQkq".
Proof.
  assert (Board_init knight_on_b1_fen = Ok knight_on_b1) as Hb by (vm_compute; reflexivity).
  destruct (constructor_keeps_the_position knight_on_b1_fen knight_on_b1
              [[Piece Black Rook; Empty; Empty; Empty; Piece Black King; Empty; Empty;
                Piece Black Rook];
               repeat Empty 8; repeat Empty 8; repeat Empty 8; repeat Empty 8;
               repeat Empty 8; repeat Empty 8;
               [Piece White Rook; Piece White Knight; Empty; Empty; Piece White King;
                Empty; Empty; Piece White Rook]]
              true (CR.init "KQkq") (Int 0) 1 (7, 4) (0, 4)
              ltac:(vm_compute; reflexivity) ltac:(reflexivity) ltac:(reflexivity)
              ltac:(reflexivity) Hb)
    as (H1 & H2 & H3 & _).
  auto.
Defined.

(** ** The squares after an accepted move *)

Lemma castling_rights_sound_same (x y : Board) :
  board_array x = board_array y -> white_to_move x = white_to_move y ->
  castling_rights x = castling_rights y ->
  white_king_pos x = white_king_pos y -> black_king_pos x = black_king_pos y ->
  castling_rights_sound x = castling_rights_sound y.
Proof. unfold castling_rights_sound. now intros -> -> -> -> ->. Qed.

(** X27. An accepted move that is no castling move and no two-row pawn move,
    on an 8x8 board, when the castling rights are sound on the board that
    [_make_psuedo_legal_move] leaves: the board reached has the grid of that
    board, which is the grid before with the moved piece (the promoted piece
    for a promotion) on the end square, the start square empty and, for an
    en-passant capture, the square behind the end square empty, every other
    square as it was; its castling rights are the updated rights. *)
Theorem accepted_move_moves_the_piece (b b1 b' : Board) (move mv : Move)
    (Hg : grid_8x8 (board_array b) = true)
    (Ha : accepted b move = true)
    (Hf : find_move move (legal_moves b) = Some mv)
    (Hon : move_on_board mv = true)
    (Hc : is_castling mv = false)
    (Htwo : is_pawn (piece_moved mv) && (Z.abs (start_row mv - end_row mv) =? 2) = false)
    (H1 : _make_psuedo_legal_move b mv = Ok b1)
    (Hcr : castling_rights_sound b1 = true)
    (Hm : make_legal_move b move = Ok b') :
  board_array b' = board_array b1
  /\ castling_rights b' = CR.update (castling_rights b) mv
  /\ forall r c,
       in_range8 r = true -> in_range8 c = true ->
       sq (board_array b') r c
       = if square_eqb (r, c) (end_row mv, end_col mv) then
           match promoted_piece mv with
           | Some k => promoted_code mv k
           | None => piece_moved mv
           end
         else if square_eqb (r, c) (start_row mv, start_col mv) then Empty
         else if ep_shape mv && square_eqb (r, c) (end_row mv + behind mv, end_col mv)
              then Empty
              else sq (board_array b) r c.
Proof.
  destruct (make_legal_move_steps b b' move Ha Hm)
    as (mv' & b1' & fen & b3 & b5 & moves & Hf' & H1' & H2 & H3 & H5 & Hend).
  rewrite Hf in Hf'. injection Hf' as <-. rewrite H1 in H1'. injection H1' as <-.
  unfold update_en_passant_square in H3. rewrite Htwo in H3. inv_ok.
  pose proof H1 as Hmade. rewrite make_eq in Hmade by assumption.
  destruct (get_king_locations (grid_mid (board_array b) mv)) as [[wk bk]|];
    [|discriminate Hmade].
  injection Hmade as Hmade.
  assert (board_array b1 = grid_made (board_array b) mv) as Eg by (now rewrite <- Hmade).
  assert (castling_rights b1 = CR.update (castling_rights b) mv) as Ec
      by (now rewrite <- Hmade).
  assert (grid_8x8 (board_array b1) = true) as Hg1
      by (rewrite Eg; now apply grid_made_8x8).
  pose proof (fun P1 P2 P3 => get_legal_moves_spec _ _ _ P1 P2 P3 H5) as Hspec.
  destruct (Hspec Hg1 eq_refl) as (_ & _ & _ & _ & _ & _ & Hgrid & Hrights).
  { rewrite <- Hcr. now apply castling_rights_sound_same. }
  cbn [board_array castling_rights set_halfmove_clock set_en_passant_square set_fen_log]
    in Hgrid, Hrights.
  assert (board_array b' = board_array b5 /\ castling_rights b' = castling_rights b5)
    as [Eg' Ec'].
  { destruct Hend as [(_ & chk & _ & ->) | (_ & ->)];
      [destruct chk|destruct (_ || _)]; split; reflexivity. }
  split; [congruence|]. split.
  - rewrite Ec', Hrights; [exact Ec|]. rewrite Ec. apply update_log_ok.
  - intros r c Hr Hc'. rewrite Eg', Hgrid, Eg.
    unfold move_on_board in Hon.
    do 5 (apply andb_true_iff in Hon; destruct Hon as [Hon ?]).
    unfold grid_made, grid_mid. rewrite Hc.
    destruct (ep_shape mv) eqn:Hep, (promoted_piece mv); cbn [andb]; squares.
Qed.

Lemma accepted_move_moves_the_piece_witness :
  sq (board_array after_Nf3_Nf6) 2 5 = Piece Black Knight
  /\ sq (board_array after_Nf3_Nf6) 0 6 = Empty
  /\ board_array after_Nf3_Nf6
     = set_sq (set_sq (board_array after_Nf3) 0 6 Empty) 2 5 (Piece Black Knight).
Proof.
  assert (make_legal_move after_Nf3 g8f6 = Ok after_Nf3_Nf6) as Hm
      by (vm_compute; reflexivity).
  destruct (_make_psuedo_legal_move after_Nf3 g8f6) as [b1|] eqn:E1;
    [|exfalso; revert E1; vm_compute; discriminate].
  assert (board_array b1
          = set_sq (set_sq (board_array after_Nf3) 0 6 Empty) 2 5 (Piece Black Knight)
          /\ castling_rights_sound b1 = true) as [Eb Hs].
  { revert E1. vm_compute. intros E1. injection E1 as <-. split; reflexivity. }
  destruct (accepted_move_moves_the_piece after_Nf3 b1 after_Nf3_Nf6 g8f6 g8f6
              eq_refl ltac:(vm_compute; reflexivity) ltac:(vm_compute; reflexivity)
              eq_refl eq_refl eq_refl E1 Hs Hm) as (Hgrid & _ & Hsq).
  split; [exact (Hsq 2 5 eq_refl eq_refl)|].
  split; [exact (Hsq 0 6 eq_refl eq_refl)|].
  now rewrite Hgrid.
Defined.
